(** * The speech cache of [homeassistant/components/tts/__init__.py]

    A shallow embedding of [SpeechManager] and of the module-level helpers
    it uses: the cache-key derivation, the two filename grammars, option
    processing, the tag writer, the two cache tiers with their eviction
    timers, and the asyncio tasks that read, synthesise and store audio.

    Conventions.
    - A Python [str] is modelled by the [string] of its UTF-8 bytes, and
      [str.lower] acts on the ASCII letters; the model is exact on ASCII
      text, which is what keys and file names consist of.
    - A Python [bytes] value is a [list Byte.byte].
    - A Python [dict] used for options is an insertion-ordered association
      list; the two caches, whose order is never observed, are [gmap]s.
    - All the errors the module raises are [HomeAssistantError]s that differ
      by their message only; the embedding gives each message its own
      constructor.
    - A task is cancelled when [asyncio.CancelledError] ends its coroutine;
      a synthesis task meets that exception at its one [await], the call
      of the engine. *)

From Stdlib Require Import NArith ZArith Ascii String List Lia DecimalString.
From Stdlib Require OrderedTypeEx.
From stdpp Require Import gmap strings list fin_maps sorting.

Local Open Scope string_scope.
Local Open Scope nat_scope.
Local Open Scope list_scope.

(** ** Python strings *)

Module Py.

Definition code (c : ascii) : N := N_of_ascii c.

Definition in_range (lo hi : N) (c : ascii) : bool :=
  (lo <=? code c)%N && (code c <=? hi)%N.

Definition is_upper : ascii -> bool := in_range 65 90.
Definition is_lower : ascii -> bool := in_range 97 122.
Definition is_digit : ascii -> bool := in_range 48 57.

(** [str.lower], one character.  On ASCII text [str.lower] turns the
    letters A to Z into a to z and keeps every other character, which is
    what [lower] does.  On other text [str.lower] also maps letters
    outside ASCII, some of them to ASCII letters (the Kelvin sign to k),
    and [lower] does not: it is [str.lower] for the texts that [is_ascii]
    accepts. *)
Definition lower_char (c : ascii) : ascii :=
  if is_upper c then ascii_of_N (code c + 32) else c.

Fixpoint smap (f : ascii -> ascii) (s : string) : string :=
  match s with
  | EmptyString => EmptyString
  | String c s' => String (f c) (smap f s')
  end.

Definition lower : string -> string := smap lower_char.

(** [s.replace(a, b)] for one-character [a] and [b]. *)
Definition replace_char (a b : ascii) (s : string) : string :=
  smap (fun c => if Ascii.eqb c a then b else c) s.

Fixpoint sall (p : ascii -> bool) (s : string) : bool :=
  match s with
  | EmptyString => true
  | String c s' => p c && sall p s'
  end.


(** [str.encode()]: the bytes of the text, as numbers. *)
Fixpoint encode (s : string) : list N :=
  match s with
  | EmptyString => []
  | String c s' => code c :: encode s'
  end.

(** Truthiness of a [str]. *)
Definition truthy (s : string) : bool :=
  match s with EmptyString => false | _ => true end.

(** The values that travel in an options mapping ([dict[str, Any]]). *)
Inductive value :=
| VNone
| VBool (b : bool)
| VInt (z : Z)
| VStr (s : string).

(** [str(v)]. *)
Definition str (v : value) : string :=
  match v with
  | VNone => "None"
  | VBool true => "True"
  | VBool false => "False"
  | VInt z => NilZero.string_of_int (Z.to_int z)
  | VStr s => s
  end.

#[global] Instance value_eq_dec : EqDecision value.
Proof. solve_decision. Defined.

(** An insertion-ordered [dict[str, V]]. *)
Definition dict (V : Type) := list (string * V).

Section Dict.
Context {V : Type}.

Fixpoint get (d : dict V) (k : string) : option V :=
  match d with
  | [] => None
  | (k', v) :: d' => if String.eqb k' k then Some v else get d' k
  end.

Definition contains (d : dict V) (k : string) : bool :=
  match get d k with Some _ => true | None => false end.

(** [d[k] = v]: an existing key keeps its position. *)
Fixpoint set (d : dict V) (k : string) (v : V) : dict V :=
  match d with
  | [] => [(k, v)]
  | (k', v') :: d' =>
      if String.eqb k' k then (k', v) :: d' else (k', v') :: set d' k v
  end.

(** [d.update(other)]. *)
Definition update (d other : dict V) : dict V :=
  fold_left (fun acc kv => set acc (fst kv) (snd kv)) other d.

(** Iterating a dict yields its keys in insertion order. *)
Definition keys (d : dict V) : list string := map fst d.

(** Truthiness of a possibly absent dict: [None] and [{}] are falsy. *)
Definition nonempty (o : option (dict V)) : bool :=
  match o with
  | Some (_ :: _) => true
  | _ => false
  end.
End Dict.

(** The text after the last [c] of [s], if [c] occurs in [s]. *)
Fixpoint after_last (c : ascii) (s : string) : option string :=
  match s with
  | EmptyString => None
  | String a s' =>
      match after_last c s' with
      | Some r => Some r
      | None => if Ascii.eqb a c then Some s' else None
      end
  end.

Fixpoint prefix (n : nat) (s : string) : string :=
  match n, s with
  | S n', String a s' => String a (prefix n' s')
  | _, _ => EmptyString
  end.

(** [os.path.splitext(p)[1][1:]] on POSIX: the text after the last dot of
    the last path component, unless only dots precede that dot. *)
Definition splitext_ext (p : string) : string :=
  let base := match after_last "/" p with Some b => b | None => p end in
  match after_last "." base with
  | None => EmptyString
  | Some e =>
      let stem := prefix (String.length base - String.length e - 1) base in
      if sall (fun c => Ascii.eqb c ".") stem then EmptyString else e
  end.

End Py.

(** ** SHA-1 ([hashlib.sha1]) *)

Module Sha1.
Local Open Scope N_scope.

Definition w32 (x : N) : N := x mod 4294967296.
Definition add32 (x y : N) : N := w32 (x + y).
Definition rotl (n x : N) : N :=
  w32 (N.lor (N.shiftl x n) (N.shiftr x (32 - n))).
Definition not32 (x : N) : N := N.lxor (w32 x) 4294967295.

(** Big-endian bytes of a number, [n] of them. *)
Fixpoint be_bytes (n : nat) (x : N) : list N :=
  match n with
  | O => []
  | S n' => be_bytes n' (x / 256) ++ [x mod 256]
  end.

Definition pad (msg : list N) : list N :=
  let l := length msg in
  let zeros := ((119 - l mod 64) mod 64)%nat in
  msg ++ [128] ++ repeat 0 zeros ++ be_bytes 8 (8 * N.of_nat l).

Fixpoint be_words (fuel : nat) (bs : list N) : list N :=
  match fuel, bs with
  | S fuel', b0 :: b1 :: b2 :: b3 :: bs' =>
      (((b0 * 256 + b1) * 256 + b2) * 256 + b3) :: be_words fuel' bs'
  | _, _ => []
  end.

(** The message schedule, most recent word first. *)
Fixpoint extend (n : nat) (ws : list N) : list N :=
  match n with
  | O => ws
  | S n' =>
      let w := rotl 1 (N.lxor (N.lxor (nth 2 ws 0) (nth 7 ws 0))
                              (N.lxor (nth 13 ws 0) (nth 15 ws 0))) in
      extend n' (w :: ws)
  end.

Definition schedule (block : list N) : list N :=
  rev (extend 64 (rev block)).

Record state := State { ha : N; hb : N; hc : N; hd : N; he : N }.

Definition init : state :=
  State 1732584193 4023233417 2562383102 271733878 3285377520.

Definition round (t : nat) (s : state) (w : N) : state :=
  let '(State a b c d e) := s in
  let '(f, k) :=
    if (t <? 20)%nat then
      (N.lor (N.land b c) (N.land (not32 b) d), 1518500249)
    else if (t <? 40)%nat then
      (N.lxor (N.lxor b c) d, 1859775393)
    else if (t <? 60)%nat then
      (N.lor (N.lor (N.land b c) (N.land b d)) (N.land c d), 2400959708)
    else
      (N.lxor (N.lxor b c) d, 3395469782) in
  let temp := add32 (add32 (add32 (add32 (rotl 5 a) f) e) k) w in
  State temp a (rotl 30 b) c d.

Fixpoint rounds (t : nat) (ws : list N) (s : state) : state :=
  match ws with
  | [] => s
  | w :: ws' => rounds (S t) ws' (round t s w)
  end.

Definition compress (h : state) (block : list N) : state :=
  let s := rounds 0 (schedule block) h in
  State (add32 (ha h) (ha s)) (add32 (hb h) (hb s)) (add32 (hc h) (hc s))
        (add32 (hd h) (hd s)) (add32 (he h) (he s)).

Fixpoint blocks (fuel : nat) (ws : list N) (h : state) : state :=
  match fuel, ws with
  | S fuel', _ :: _ => blocks fuel' (drop 16 ws) (compress h (take 16 ws))
  | _, _ => h
  end.

Definition digest (msg : list N) : state :=
  let bs := pad msg in
  let ws := be_words (length bs) bs in
  blocks (length ws) ws init.

Definition hex_digit (x : N) : ascii :=
  let d := x mod 16 in
  if d <? 10 then ascii_of_N (48 + d) else ascii_of_N (87 + d).

(** The low [n] nibbles of [x], most significant first. *)
Fixpoint hex (n : nat) (x : N) : string :=
  match n with
  | O => EmptyString
  | S n' => hex n' (x / 16) +:+ String (hex_digit x) EmptyString
  end.

Definition hexdigest (msg : list N) : string :=
  let s := digest msg in
  hex 8 (ha s) +:+ hex 8 (hb s) +:+ hex 8 (hc s) +:+ hex 8 (hd s)
    +:+ hex 8 (he s).

End Sha1.

(** ** BLAKE2s ([hashlib.blake2s], unkeyed) *)

Module Blake2s.
Local Open Scope N_scope.

Definition w32 (x : N) : N := x mod 4294967296.
Definition add32 (x y : N) : N := w32 (x + y).
Definition rotr (n x : N) : N :=
  w32 (N.lor (N.shiftr x n) (N.shiftl x (32 - n))).

Definition IV : list N :=
  [1779033703; 3144134277; 1013904242; 2773480762;
   1359893119; 2600822924; 528734635; 1541459225].

Definition SIGMA : list (list nat) :=
  [[0; 1; 2; 3; 4; 5; 6; 7; 8; 9; 10; 11; 12; 13; 14; 15];
   [14; 10; 4; 8; 9; 15; 13; 6; 1; 12; 0; 2; 11; 7; 5; 3];
   [11; 8; 12; 0; 5; 2; 15; 13; 10; 14; 3; 6; 7; 1; 9; 4];
   [7; 9; 3; 1; 13; 12; 11; 14; 2; 6; 5; 10; 4; 0; 15; 8];
   [9; 0; 5; 7; 2; 4; 10; 15; 14; 1; 11; 12; 6; 8; 3; 13];
   [2; 12; 6; 10; 0; 11; 8; 3; 4; 13; 7; 5; 15; 14; 1; 9];
   [12; 5; 1; 15; 14; 13; 4; 10; 0; 7; 6; 3; 9; 2; 8; 11];
   [13; 11; 7; 14; 12; 1; 3; 9; 5; 0; 15; 4; 8; 6; 2; 10];
   [6; 15; 14; 9; 11; 3; 0; 8; 12; 2; 13; 7; 1; 4; 10; 5];
   [10; 2; 8; 4; 7; 6; 1; 5; 15; 11; 9; 14; 3; 12; 13; 0]]%nat.

Definition at_ (l : list N) (i : nat) : N := nth i l 0.

(** The mixing function G on the working vector [v]. *)
Definition G (a b c d : nat) (x y : N) (v : list N) : list N :=
  let va := add32 (add32 (at_ v a) (at_ v b)) x in
  let vd := rotr 16 (N.lxor (at_ v d) va) in
  let vc := add32 (at_ v c) vd in
  let vb := rotr 12 (N.lxor (at_ v b) vc) in
  let va := add32 (add32 va vb) y in
  let vd := rotr 8 (N.lxor vd va) in
  let vc := add32 vc vd in
  let vb := rotr 7 (N.lxor vb vc) in
  <[d:=vd]> (<[c:=vc]> (<[b:=vb]> (<[a:=va]> v))).

Definition mix_round (m : list N) (v : list N) (s : list nat) : list N :=
  let ms i := at_ m (nth i s 0%nat) in
  let v := G 0 4 8 12 (ms 0%nat) (ms 1%nat) v in
  let v := G 1 5 9 13 (ms 2%nat) (ms 3%nat) v in
  let v := G 2 6 10 14 (ms 4%nat) (ms 5%nat) v in
  let v := G 3 7 11 15 (ms 6%nat) (ms 7%nat) v in
  let v := G 0 5 10 15 (ms 8%nat) (ms 9%nat) v in
  let v := G 1 6 11 12 (ms 10%nat) (ms 11%nat) v in
  let v := G 2 7 8 13 (ms 12%nat) (ms 13%nat) v in
  G 3 4 9 14 (ms 14%nat) (ms 15%nat) v.

Fixpoint le_words (fuel : nat) (bs : list N) : list N :=
  match fuel, bs with
  | S fuel', b0 :: b1 :: b2 :: b3 :: bs' =>
      (((b3 * 256 + b2) * 256 + b1) * 256 + b0) :: le_words fuel' bs'
  | _, _ => []
  end.

(** Compression of one 64-byte block; [t] counts the bytes fed so far and
    [last] marks the final block. *)
Definition compress (h : list N) (block : list N) (t : N) (last : bool)
  : list N :=
  let m := le_words 16 block in
  let v := (h ++ IV)%list in
  let v := <[12%nat := N.lxor (at_ v 12) (w32 t)]> v in
  let v := <[13%nat := N.lxor (at_ v 13) (w32 (t / 4294967296))]> v in
  let v := if last then <[14%nat := N.lxor (at_ v 14) 4294967295]> v else v in
  let v := fold_left (mix_round m) SIGMA v in
  imap (fun i hi => N.lxor (N.lxor hi (at_ v i)) (at_ v (i + 8))) h.

(** Every block but the last is compressed as it fills up; the last one,
    possibly empty or full, is zero-padded and finalises the state. *)
Fixpoint absorb (fuel : nat) (h : list N) (t : N) (bs : list N) : list N :=
  match fuel with
  | O => h
  | S fuel' =>
      if (length bs <=? 64)%nat then
        compress h (bs ++ repeat 0 (64 - length bs))%list (t + N.of_nat (length bs))
          true
      else
        absorb fuel' (compress h (take 64 bs) (t + 64) false) (t + 64)
          (drop 64 bs)
  end.

Definition le_bytes (x : N) : list N :=
  [x mod 256; (x / 256) mod 256; (x / 65536) mod 256; (x / 16777216) mod 256].

(** The digest of [msg] with [digest_size = nn] (at most 32). *)
Definition digest (nn : nat) (msg : list N) : list N :=
  let h0 := <[0%nat := N.lxor (at_ IV 0) (N.lxor 16842752 (N.of_nat nn))]> IV in
  let h := absorb (S (length msg)) h0 0 msg in
  take nn (flat_map le_bytes h).

Fixpoint hex_bytes (bs : list N) : string :=
  match bs with
  | [] => EmptyString
  | b :: bs' => Sha1.hex 2 b +:+ hex_bytes bs'
  end.

Definition hexdigest (nn : nat) (msg : list N) : string :=
  hex_bytes (digest nn msg).

End Blake2s.

(** ** Regular expressions ([re.match])

    The two patterns of the module use literals, capture groups that do not
    nest, and greedy repetitions of a character class.  [re.match] anchors
    the pattern at the start of the text only, so a match may stop before
    the end.  Repetition is greedy with backtracking, as in Python. *)

Module Re.

Inductive atom :=
| Lit (s : string)                                 (* literal text *)
| Rep (p : ascii -> bool) (lo : nat) (hi : option nat)   (* [p]{lo,hi} *)
| Open                                             (* ( *)
| Close.                                           (* ) *)

Definition regex := list atom.

Fixpoint strip (l s : string) : option string :=
  match l, s with
  | EmptyString, _ => Some s
  | String a l', String b s' => if Ascii.eqb a b then strip l' s' else None
  | String _ _, EmptyString => None
  end.

Definition below (n : nat) (hi : option nat) : bool :=
  match hi with
  | Some h => n <? h
  | None => true
  end.

(** Takes as many characters of class [p] as allowed, then gives back one
    at a time until the continuation [k] accepts. *)
Fixpoint greedy {R} (k : string -> string -> option R) (p : ascii -> bool)
    (lo : nat) (hi : option nat) (taken : string) (n : nat) (s : string)
  : option R :=
  let stop := if lo <=? n then k taken s else None in
  match s with
  | String c s' =>
      if p c && below n hi then
        match greedy k p lo hi (taken +:+ String c EmptyString) (S n) s' with
        | Some r => Some r
        | None => stop
        end
      else stop
  | EmptyString => stop
  end.

(** [cur] is the text matched since the last [Open]; [caps] holds the
    closed groups, last one first. *)
Fixpoint run (r : regex) (s : string) (cur : string) (caps : list string)
  : option (list string) :=
  match r with
  | [] => Some (rev caps)
  | Open :: r' => run r' s EmptyString caps
  | Close :: r' => run r' s EmptyString (cur :: caps)
  | Lit l :: r' =>
      match strip l s with
      | Some s' => run r' s' (cur +:+ l) caps
      | None => None
      end
  | Rep p lo hi :: r' =>
      greedy (fun taken s' => run r' s' (cur +:+ taken) caps) p lo hi
        EmptyString 0 s
  end.

(** [pattern.match(s)]: the groups 1, 2, ... of the match, if any. *)
Definition match_ (r : regex) (s : string) : option (list string) :=
  run r s EmptyString [].

Definition group (groups : list string) (i : nat) : string :=
  nth (i - 1) groups EmptyString.

(** Character classes. *)
Definition hex_class (c : ascii) : bool :=                  (* [a-f0-9] *)
  Py.in_range 97 102 c || Py.is_digit c.
Definition not_underscore (c : ascii) : bool :=             (* [^_] *)
  negb (Ascii.eqb c "_").
Definition lower_underscore (c : ascii) : bool :=           (* [a-z_] *)
  Py.is_lower c || Ascii.eqb c "_".
Definition lower_digit (c : ascii) : bool :=                (* [a-z0-9] *)
  Py.is_lower c || Py.is_digit c.
Definition lower_digit_underscore (c : ascii) : bool :=     (* [a-z0-9_] *)
  Py.is_lower c || Py.is_digit c || Ascii.eqb c "_".

End Re.

(** ** Module-level constants and helpers *)

Definition ATTR_AUDIO_OUTPUT : string := "audio_output".
Definition ATTR_VOICE : string := "voice".

(** [([a-f0-9]{40})_([^_]+)_([^_]+)_([a-z_]+)\.[a-z0-9]{3,4}] *)
Definition _RE_LEGACY_VOICE_FILE : Re.regex :=
  [Re.Open; Re.Rep Re.hex_class 40 (Some 40); Re.Close; Re.Lit "_";
   Re.Open; Re.Rep Re.not_underscore 1 None; Re.Close; Re.Lit "_";
   Re.Open; Re.Rep Re.not_underscore 1 None; Re.Close; Re.Lit "_";
   Re.Open; Re.Rep Re.lower_underscore 1 None; Re.Close;
   Re.Lit "."; Re.Rep Re.lower_digit 3 (Some 4)].

(** [([a-f0-9]{40})_([^_]+)_([^_]+)_(tts\.[a-z0-9_]+)\.[a-z0-9]{3,4}] *)
Definition _RE_VOICE_FILE : Re.regex :=
  [Re.Open; Re.Rep Re.hex_class 40 (Some 40); Re.Close; Re.Lit "_";
   Re.Open; Re.Rep Re.not_underscore 1 None; Re.Close; Re.Lit "_";
   Re.Open; Re.Rep Re.not_underscore 1 None; Re.Close; Re.Lit "_";
   Re.Open; Re.Lit "tts."; Re.Rep Re.lower_digit_underscore 1 None; Re.Close;
   Re.Lit "."; Re.Rep Re.lower_digit 3 (Some 4)].

(** ["{0}_{1}_{2}_{3}".format(a, b, c, d)] *)
Definition KEY_PATTERN (a b c d : string) : string :=
  a +:+ "_" +:+ b +:+ "_" +:+ c +:+ "_" +:+ d.

(** [sorted(options.items())]: the keys of a dict are distinct, so the
    order of the pairs is the order of their keys. *)
Definition key_leb (a b : string) : bool :=
  match String.compare a b with Gt => false | _ => true end.

Fixpoint insert_item (kv : string * Py.value) (l : list (string * Py.value))
  : list (string * Py.value) :=
  match l with
  | [] => [kv]
  | kv' :: l' =>
      if key_leb (fst kv) (fst kv') then kv :: l else kv' :: insert_item kv l'
  end.

Definition sorted_items (options : Py.dict Py.value)
  : list (string * Py.value) :=
  fold_right insert_item [] options.

(** Hashes an options dictionary. *)
Definition _hash_options (options : Py.dict Py.value) : string :=
  Blake2s.hexdigest 5
    (flat_map (fun kv => Py.encode (fst kv) ++ Py.encode (Py.str (snd kv)))%list
       (sorted_items options)).

(** Generate a cache key for a message. *)
Definition _generate_cache_key (message language : string)
    (options : option (Py.dict Py.value)) (engine : string) : string :=
  let options_key :=
    match options with
    | Some (kv :: d) => _hash_options (kv :: d)
    | _ => "-"
    end in
  let msg_hash := Sha1.hexdigest (Py.encode message) in
  Py.lower
    (KEY_PATTERN msg_hash (Py.replace_char "_" "-" language) options_key
       engine).

(** The match that [async_read_tts] and [_get_cache_files] both take: the
    current pattern first, the legacy one otherwise; then the key made of
    the four groups. *)
Definition match_voice_file (name : string) : option (list string) :=
  match Re.match_ _RE_VOICE_FILE name with
  | Some record => Some record
  | None => Re.match_ _RE_LEGACY_VOICE_FILE name
  end.

Definition record_key (record : list string) : string :=
  KEY_PATTERN (Re.group record 1) (Re.group record 2) (Re.group record 3)
    (Re.group record 4).

(** Return a dict of given engine files: [folder_data] is the listing of
    the cache directory. *)
Definition _get_cache_files (folder_data : list string) : gmap string string :=
  fold_left
    (fun cache file_data =>
       match match_voice_file file_data with
       | Some record => <[Py.lower (record_key record) := Py.lower file_data]> cache
       | None => cache
       end)
    folder_data ∅.

(** ** Errors and results *)

Definition bytes := list Byte.byte.

(** An exception raised by code outside the module: the tagging library,
    an engine, or the event loop, which throws [asyncio.CancelledError]
    into a coroutine at its [await] when its task is cancelled.  A task
    whose coroutine ends with [CancelledError] is a cancelled task. *)
Inductive foreign :=
| FMutagenError (msg : string)        (* mutagen.MutagenError *)
| FCancelledError                     (* asyncio.CancelledError *)
| FException (msg : string).          (* an exception of any other class *)

(** The exceptions that leave the module's coroutines: the
    [HomeAssistantError]s it raises, one constructor per message, the
    [KeyError] of a failed dict access, and the foreign ones it lets
    through. *)
Inductive error :=
| ProviderNotFound (engine : string)
| LanguageNotSupported (language : option string)
| InvalidOptionsFound (invalid_opts : list string)
| EngineNameNotSet
| NoTTS (engine_name message : string)
| FilenameInvalid (filename engine_name : string)
| KeyNotInFileCache (cache_key : string)
| CantRead (filename : string)
| WrongFileFormat
| NotInCache (cache_key : string)
| KeyError (key : string)
| Foreign (e : foreign).

Inductive outcome (E A : Type) :=
| Returned (a : A)
| Raised (e : E).
Arguments Returned {E A} a.
Arguments Raised {E A} e.

Abbreviation result := (outcome error).

Inductive log_entry :=
| LogID3TagError (msg : string)
| LogCantRemove (filename : string)
| LogCantWrite (filename : string).

(** ** Engines

    What the manager reads of a [TextToSpeechEntity] or a legacy
    [Provider]. *)
Record engine_instance := {
  name : option string;
  default_language : option string;
  supported_languages : option (list string);
  default_options : option (Py.dict Py.value);
  supported_options : option (list string);
}.

(** Validate and process options. *)
Definition process_options (engine : engine_instance)
    (language : option string) (options : option (Py.dict Py.value))
  : result (string * option (Py.dict Py.value)) :=
  (* Languages *)
  let language :=
    match language with
    | Some l => if Py.truthy l then Some l else default_language engine
    | None => default_language engine
    end in
  match language, supported_languages engine with
  | Some lang, Some supported =>
      if bool_decide (lang ∈ supported) then
        (* Options *)
        let options :=
          match default_options engine, options with
          | Some (d :: ds), Some (o :: os) =>
              Some (Py.update (d :: ds) (o :: os))
          | _, _ => options
          end in
        let options :=
          if Py.nonempty options then options else default_options engine in
        match options with
        | Some opts =>
            let supported_options :=
              match supported_options engine with Some l => l | None => [] end in
            let invalid_opts :=
              filter (fun opt_name => opt_name ∉ supported_options)
                (Py.keys opts) in
            match invalid_opts with
            | _ :: _ => Raised (InvalidOptionsFound invalid_opts)
            | [] => Returned (lang, Some opts)
            end
        | None => Returned (lang, None)
        end
      else Raised (LanguageNotSupported language)
  | _, _ => Raised (LanguageNotSupported language)
  end.

(** ** Tags

    The part of the mutagen library that [write_tags] calls.  A call either
    returns or raises; [save] writes into the buffer it is given and may
    raise after having written. *)
Inductive tag :=
| ID3Text (text : Py.value)           (* ID3Text(encoding=3, text=...) *)
| PlainText (text : Py.value).

Class Mutagen := {
  file_type : Type;
  (** [mutagen.File(data_bytes)], the buffer carrying [name]. *)
  File : string -> bytes -> outcome foreign (option file_type);
  (** Truthiness of [tts_file.tags]. *)
  has_tags : file_type -> bool;
  add_tags : file_type -> outcome foreign file_type;
  (** [isinstance(tts_file.tags, ID3)]. *)
  tags_are_ID3 : file_type -> bool;
  (** [tts_file[key] = value], construction of the value included. *)
  set_item : file_type -> string -> tag -> outcome foreign file_type;
  (** [tts_file.save(data_bytes)]: the buffer afterwards, and the
      exception if one was raised. *)
  save : file_type -> bytes -> bytes * option foreign;
}.

Section WriteTags.
Context `{Mutagen}.

Definition bind {E A B} (r : outcome E A) (k : A -> outcome E B)
  : outcome E B :=
  match r with
  | Returned a => k a
  | Raised e => Raised e
  end.

(** The body of the [try] block: the buffer afterwards and the exception
    that left the block, if any. *)
Definition tag_buffer (filename : string) (data : bytes)
    (artist album : Py.value) (message : string) : bytes * option foreign :=
  match File filename data with
  | Raised e => (data, Some e)
  | Returned None => (data, None)
  | Returned (Some tts_file) =>
      let mk := if tags_are_ID3 tts_file then ID3Text else PlainText in
      let tagged :=
        bind (if has_tags tts_file then Returned tts_file
              else add_tags tts_file) (fun f =>
        let mk := if tags_are_ID3 f then ID3Text else PlainText in
        bind (set_item f "artist" (mk artist)) (fun f =>
        bind (set_item f "album" (mk album)) (fun f =>
        set_item f "title" (mk (Py.VStr message))))) in
      match tagged with
      | Raised e => (data, Some e)
      | Returned f => save f data
      end
  end.

(** Write ID3 tags to file. *)
Definition write_tags (filename : string) (data : bytes)
    (engine_name message language : string)
    (options : option (Py.dict Py.value))
  : list log_entry * result bytes :=
  let album := Py.VStr engine_name in
  let artist :=
    match options with
    | Some opts =>
        match Py.get opts "voice" with
        | Some Py.VNone | None => Py.VStr language
        | Some voice => voice
        end
    | None => Py.VStr language
    end in
  match tag_buffer filename data artist album message with
  | (data_bytes, Some (FMutagenError err)) =>
      ([LogID3TagError err], Returned data_bytes)
  | (_, Some e) => ([], Raised (Foreign e))
  | (data_bytes, None) => ([], Returned data_bytes)
  end.
End WriteTags.

(** ** The manager, the disk and the event loop *)

(** Cached TTS file; [pending] is the index of the task awaited. *)
Record TTSCache := {
  filename : string;
  voice : bytes;
  pending : option nat;
}.

(** The arguments of the two public entry points. *)
Record request := {
  req_engine : string;
  req_message : string;
  req_cache : option bool;
  req_language : option string;
  req_options : option (Py.dict Py.value);
}.

(** The arguments of [_async_get_tts_audio], which [get_tts_data] closes
    over. *)
Record synthesis := {
  syn_engine : engine_instance;
  syn_key : string;
  syn_message : string;
  syn_cache : bool;
  syn_language : string;
  syn_options : option (Py.dict Py.value);
}.

(** What the [await] of the engine's [async_get_tts_audio(message,
    language, options)] gives [get_tts_data]: a pair, or an exception.
    [BackendRaised FCancelledError] is the cancellation of the synthesis
    task while it waits for the engine, asked of the task itself or of a
    caller that awaits it (a cancelled caller passes the cancellation on to
    the task it awaits). *)
Inductive backend_result :=
| BackendRaised (e : foreign)
| BackendReturned (extension : option string) (data : option bytes).

Inductive entry :=
| Call_get_tts_audio (r : request)
| Call_get_url_path (r : request)
| Call_read_tts (filename : string)
| Call_clear_cache.

Inductive retval :=
| RAudio (extension : string) (data : bytes)
| RRead (content : option string) (data : bytes)
| RUrl (path : string)
| RFilename (filename : string)
| RNone.

(** The first component of what [async_get_tts_audio] and [async_read_tts]
    return, computed before the pending task is awaited. *)
Inductive head :=
| HAudio (extension : string)
| HRead (content : option string).

Definition head_ret (h : head) (data : bytes) : retval :=
  match h with
  | HAudio extension => RAudio extension data
  | HRead content => RRead content data
  end.

(** Who runs [_async_file_to_mem]. *)
Inductive after_load :=
| LoadForAudio
| LoadForRead (filename : string)
| LoadTask.

(** A coroutine: not started yet, suspended at one of its [await]s, or
    done.  Tasks and callers live in one pool and are named by their index
    in it. *)
Inductive coro :=
| Call (e : entry)
| Task_get_tts_data (p : synthesis)
| Task_save_tts_audio (key filename : string) (data : bytes)
| Task_file_to_mem (key : string)
| Loading (k : after_load) (key filename : string) (r : option (option bytes))
| AwaitAudioTask (url : bool) (key : string) (t : nat)
| AwaitPending (h : head) (key : string) (t : nat)
| Synthesizing (p : synthesis) (r : option backend_result)
| Saving (key filename : string) (data : bytes) (r : option bool)
| Clearing (removed : bool)
| Done (r : result retval).

(** What does not change while the manager serves. *)
Record config := {
  use_cache : bool;
  engines : gmap string engine_instance;      (* get_engine_instance *)
  guess_type : string -> option string;       (* mimetypes.guess_type(f)[0] *)
}.

(** The manager's two caches, the cache directory, the event loop and what
    an observer records.  Writing or removing a [protected] name raises
    [OSError]; so does reading or removing a name that is not in
    [files]. *)
Record world := {
  file_cache : gmap string string;
  mem_cache : gmap string TTSCache;
  files : gmap string bytes;
  protected : gset string;
  coros : list coro;
  timers : list string;
  callbacks : list (nat * string);
  backend_calls : list synthesis;
  log : list log_entry;
}.

Definition with_file_cache (x : gmap string string) (w : world) : world :=
  {| file_cache := x; mem_cache := mem_cache w; files := files w;
     protected := protected w; coros := coros w; timers := timers w;
     callbacks := callbacks w; backend_calls := backend_calls w;
     log := log w |}.

Definition with_mem_cache (x : gmap string TTSCache) (w : world) : world :=
  {| file_cache := file_cache w; mem_cache := x; files := files w;
     protected := protected w; coros := coros w; timers := timers w;
     callbacks := callbacks w; backend_calls := backend_calls w;
     log := log w |}.

Definition with_files (x : gmap string bytes) (w : world) : world :=
  {| file_cache := file_cache w; mem_cache := mem_cache w; files := x;
     protected := protected w; coros := coros w; timers := timers w;
     callbacks := callbacks w; backend_calls := backend_calls w;
     log := log w |}.

Definition with_coros (x : list coro) (w : world) : world :=
  {| file_cache := file_cache w; mem_cache := mem_cache w; files := files w;
     protected := protected w; coros := x; timers := timers w;
     callbacks := callbacks w; backend_calls := backend_calls w;
     log := log w |}.

Definition with_timers (x : list string) (w : world) : world :=
  {| file_cache := file_cache w; mem_cache := mem_cache w; files := files w;
     protected := protected w; coros := coros w; timers := x;
     callbacks := callbacks w; backend_calls := backend_calls w;
     log := log w |}.

Definition with_callbacks (x : list (nat * string)) (w : world) : world :=
  {| file_cache := file_cache w; mem_cache := mem_cache w; files := files w;
     protected := protected w; coros := coros w; timers := timers w;
     callbacks := x; backend_calls := backend_calls w; log := log w |}.

Definition with_backend_calls (x : list synthesis) (w : world) : world :=
  {| file_cache := file_cache w; mem_cache := mem_cache w; files := files w;
     protected := protected w; coros := coros w; timers := timers w;
     callbacks := callbacks w; backend_calls := x; log := log w |}.

Definition with_log (x : list log_entry) (w : world) : world :=
  {| file_cache := file_cache w; mem_cache := mem_cache w; files := files w;
     protected := protected w; coros := coros w; timers := timers w;
     callbacks := callbacks w; backend_calls := backend_calls w; log := x |}.

Definition set_coro (i : nat) (c : coro) (w : world) : world :=
  with_coros (<[i := c]> (coros w)) w.

Definition finish (i : nat) (r : result retval) (w : world) : world :=
  set_coro i (Done r) w.

(** [hass.async_create_task]: the new task and its index. *)
Definition create_task (c : coro) (w : world) : nat * world :=
  (length (coros w), with_coros (coros w ++ [c]) w).

(** Store data to memcache and set timer to remove it. *)
Definition _async_store_to_memcache (cache_key filename : string)
    (data : bytes) (w : world) : world :=
  with_timers (timers w ++ [cache_key])
    (with_mem_cache
       (<[cache_key := {| filename := filename; voice := data;
                          pending := None |}]> (mem_cache w)) w).

(** Cleanup memcache: the callback of the timer, [mem_cache.pop(key, None)]. *)
Definition async_remove_from_mem (cache_key : string) (w : world) : world :=
  with_mem_cache (delete cache_key (mem_cache w)) w.

(** The done-callback of a synthesis task that was given a placeholder:
    [if audio_task.exception(): self.mem_cache.pop(cache_key, None)].  On a
    cancelled task [exception()] raises [CancelledError] instead of
    returning it, the callback ends there and nothing is popped. *)
Definition handle_error (audio_task : result retval) (cache_key : string)
    (w : world) : world :=
  match audio_task with
  | Raised (Foreign FCancelledError) => w
  | Raised _ => with_mem_cache (delete cache_key (mem_cache w)) w
  | Returned _ => w
  end.

(** [cached = self.mem_cache[cache_key]] after [await pending]. *)
Definition after_pending (i : nat) (h : head) (cache_key : string)
    (w : world) : world :=
  match mem_cache w !! cache_key with
  | Some cached => finish i (Returned (head_ret h (voice cached))) w
  | None => finish i (Raised (KeyError cache_key)) w
  end.

(** [await pending]: a task that is done answers at once. *)
Definition await_pending (i : nat) (h : head) (cache_key : string) (t : nat)
    (w : world) : world :=
  match coros w !! t with
  | Some (Done (Returned _)) => after_pending i h cache_key w
  | Some (Done (Raised e)) => finish i (Raised e) w
  | _ => set_coro i (AwaitPending h cache_key t) w
  end.

(** The end that [async_get_tts_audio] and [async_read_tts] share:
    [cached = self.mem_cache[cache_key]], the pending task awaited if there
    is one, the entry read again, its voice returned. *)
Definition read_cached (i : nat) (h : head) (cache_key : string) (w : world)
  : world :=
  match mem_cache w !! cache_key with
  | None => finish i (Raised (KeyError cache_key)) w
  | Some cached =>
      match pending cached with
      | Some t => await_pending i h cache_key t w
      | None => finish i (Returned (head_ret h (voice cached))) w
      end
  end.

(** [extension = os.path.splitext(self.mem_cache[cache_key]["filename"])[1][1:]]
    and what follows it in [async_get_tts_audio]. *)
Definition audio_tail (i : nat) (cache_key : string) (w : world) : world :=
  match mem_cache w !! cache_key with
  | None => finish i (Raised (KeyError cache_key)) w
  | Some cached =>
      read_cached i (HAudio (Py.splitext_ext (filename cached))) cache_key w
  end.

(** Load voice from file cache into memory, up to the executor job. *)
Definition _async_file_to_mem (i : nat) (k : after_load) (cache_key : string)
    (w : world) : world :=
  match file_cache w !! cache_key with
  | Some filename =>
      if Py.truthy filename then
        set_coro i (Loading k cache_key filename None) w
      else finish i (Raised (KeyNotInFileCache cache_key)) w
  | None => finish i (Raised (KeyNotInFileCache cache_key)) w
  end.

Definition expected_extension (options : option (Py.dict Py.value))
  : option Py.value :=
  match options with
  | Some opts =>
      match Py.get opts ATTR_AUDIO_OUTPUT with
      | Some Py.VNone => None
      | x => x
      end
  | None => None
  end.

(** Receive TTS, store for view in cache and return filename: the task is
    created; without an expected extension the caller awaits it ([inl]),
    with one the placeholder is stored and its filename returned ([inr]). *)
Definition _async_get_tts_audio (p : synthesis) (w : world)
  : (nat + string) * world :=
  let '(audio_task, w) := create_task (Task_get_tts_data p) w in
  match expected_extension (syn_options p) with
  | None => (inl audio_task, w)
  | Some extension =>
      let w := with_callbacks (callbacks w ++ [(audio_task, syn_key p)]) w in
      let filename := Py.lower (syn_key p +:+ "." +:+ Py.str extension) in
      (inr filename,
       with_mem_cache
         (<[syn_key p := {| filename := filename; voice := [];
                            pending := Some audio_task |}]> (mem_cache w)) w)
  end.

(** Save the speech to the cache directory: [Some false] is [OSError]. *)
Definition save_speech (filename : string) (data : bytes) (w : world)
  : option bool * world :=
  if bool_decide (filename ∈ protected w) then (Some false, w)
  else (Some true, with_files (<[filename := data]> (files w)) w).

(** Remove files from filesystem. *)
Definition remove_file (w : world) (filename : string) : world :=
  if bool_decide (filename ∈ protected w)
     || bool_decide (files w !! filename = None)
  then with_log (log w ++ [LogCantRemove filename]) w
  else with_files (delete filename (files w)) w.

Definition remove_files (w : world) : world :=
  fold_left remove_file (map snd (map_to_list (file_cache w))) w.

Definition TTS_PROXY (filename : string) : string :=
  "/api/tts_proxy/" +:+ filename.

Section Manager.
Context `{Mutagen} (cfg : config).

(** What the two entry points do first: the engine, the processed
    options, the cache key, the cache switch. *)
Definition prepare (r : request) : result synthesis :=
  match engines cfg !! req_engine r with
  | None => Raised (ProviderNotFound (req_engine r))
  | Some engine_instance =>
      match process_options engine_instance (req_language r)
              (req_options r) with
      | Raised e => Raised e
      | Returned (language, options) =>
          Returned
            {| syn_engine := engine_instance;
               syn_key := _generate_cache_key (req_message r) language
                            options (req_engine r);
               syn_message := req_message r;
               syn_cache := match req_cache r with
                            | Some c => c
                            | None => use_cache cfg
                            end;
               syn_language := language;
               syn_options := options |}
      end
  end.

(** Fetch TTS audio. *)
Definition async_get_tts_audio (i : nat) (r : request) (w : world)
  : world :=
  match prepare r with
  | Raised e => finish i (Raised e) w
  | Returned p =>
      match mem_cache w !! syn_key p with
      | Some _ => audio_tail i (syn_key p) w
      | None =>
          if syn_cache p && bool_decide (is_Some (file_cache w !! syn_key p))
          then _async_file_to_mem i LoadForAudio (syn_key p) w
          else
            match _async_get_tts_audio p w with
            | (inl t, w) => set_coro i (AwaitAudioTask false (syn_key p) t) w
            | (inr _, w) => audio_tail i (syn_key p) w
            end
      end
  end.

(** Get URL for play message. *)
Definition async_get_url_path (i : nat) (r : request) (w : world) : world :=
  match prepare r with
  | Raised e => finish i (Raised e) w
  | Returned p =>
      match mem_cache w !! syn_key p with
      | Some cached => finish i (Returned (RUrl (TTS_PROXY (filename cached)))) w
      | None =>
          match (if syn_cache p then file_cache w !! syn_key p else None) with
          | Some filename =>
              let '(_, w) := create_task (Task_file_to_mem (syn_key p)) w in
              finish i (Returned (RUrl (TTS_PROXY filename))) w
          | None =>
              match _async_get_tts_audio p w with
              | (inl t, w) => set_coro i (AwaitAudioTask true (syn_key p) t) w
              | (inr filename, w) =>
                  finish i (Returned (RUrl (TTS_PROXY filename))) w
              end
          end
      end
  end.

(** Read a voice file and return binary. *)
Definition async_read_tts (i : nat) (filename : string) (w : world)
  : world :=
  match match_voice_file (Py.lower filename) with
  | None => finish i (Raised WrongFileFormat) w
  | Some record =>
      let cache_key := record_key record in
      let h := HRead (guess_type cfg filename) in
      match mem_cache w !! cache_key with
      | Some _ => read_cached i h cache_key w
      | None =>
          match file_cache w !! cache_key with
          | None => finish i (Raised (NotInCache cache_key)) w
          | Some _ => _async_file_to_mem i (LoadForRead filename) cache_key w
          end
      end
  end.

(** Read file cache and delete files: up to the executor job. *)
Definition async_clear_cache (i : nat) (w : world) : world :=
  set_coro i (Clearing false) (with_mem_cache ∅ w).

Definition async_clear_cache_resume (i : nat) (w : world) : world :=
  finish i (Returned RNone) (with_file_cache ∅ w).

(** [_async_file_to_mem] once [load_speech] has answered; [None] is
    [OSError]. *)
Definition _async_file_to_mem_resume (i : nat) (k : after_load)
    (cache_key filename : string) (r : option bytes) (w : world) : world :=
  match r with
  | None =>
      match file_cache w !! cache_key with
      | Some _ =>
          finish i (Raised (CantRead filename))
            (with_file_cache (delete cache_key (file_cache w)) w)
      | None => finish i (Raised (KeyError cache_key)) w
      end
  | Some data =>
      let w := _async_store_to_memcache cache_key filename data w in
      match k with
      | LoadForAudio => audio_tail i cache_key w
      | LoadForRead requested =>
          read_cached i (HRead (guess_type cfg requested)) cache_key w
      | LoadTask => finish i (Returned RNone) w
      end
  end.

(** Handle data available: up to the call of the engine. *)
Definition get_tts_data (i : nat) (p : synthesis) (w : world) : world :=
  match name (syn_engine p) with
  | None => finish i (Raised EngineNameNotSet) w
  | Some _ =>
      set_coro i (Synthesizing p None)
        (with_backend_calls (backend_calls w ++ [p]) w)
  end.

(** [get_tts_data] once the engine has answered. *)
Definition get_tts_data_resume (i : nat) (p : synthesis)
    (r : backend_result) (w : world) : world :=
  let engine_name :=
    match name (syn_engine p) with Some n => n | None => EmptyString end in
  match r with
  | BackendRaised e => finish i (Raised (Foreign e)) w
  | BackendReturned (Some extension) (Some data) =>
      (* Create file infos *)
      let filename := Py.lower (syn_key p +:+ "." +:+ extension) in
      (* Validate filename *)
      match match_voice_file filename with
      | None => finish i (Raised (FilenameInvalid filename engine_name)) w
      | Some _ =>
          (* Save to memory *)
          let '(logged, tagged) :=
            if String.eqb extension "mp3" then
              write_tags filename data engine_name (syn_message p)
                (syn_language p) (syn_options p)
            else ([], Returned data) in
          let w := with_log (log w ++ logged) w in
          match tagged with
          | Raised e => finish i (Raised e) w
          | Returned data =>
              let w := _async_store_to_memcache (syn_key p) filename data w in
              let w :=
                if syn_cache p then
                  snd (create_task
                         (Task_save_tts_audio (syn_key p) filename data) w)
                else w in
              finish i (Returned (RFilename filename)) w
          end
      end
  | BackendReturned _ _ =>
      finish i (Raised (NoTTS engine_name (syn_message p))) w
  end.

(** Store voice data to file and file_cache, once [save_speech] has
    answered. *)
Definition _async_save_tts_audio_resume (i : nat)
    (cache_key filename : string) (saved : bool) (w : world) : world :=
  finish i (Returned RNone)
    (if saved then
       with_file_cache (<[cache_key := filename]> (file_cache w)) w
     else with_log (log w ++ [LogCantWrite filename]) w).

(** [return await audio_task] in [_async_get_tts_audio], and what the
    caller does with the filename. *)
Definition audio_task_resume (i : nat) (url : bool) (cache_key : string)
    (r : result retval) (w : world) : world :=
  match r with
  | Raised e => finish i (Raised e) w
  | Returned v =>
      if url then
        finish i
          (Returned (RUrl (TTS_PROXY match v with
                                     | RFilename f => f
                                     | _ => EmptyString
                                     end))) w
      else audio_tail i cache_key w
  end.

(** The loop resumes coroutine [i], which runs to its next [await]. *)
Definition run_coro (i : nat) (w : world) : option world :=
  match coros w !! i with
  | Some (Call (Call_get_tts_audio r)) => Some (async_get_tts_audio i r w)
  | Some (Call (Call_get_url_path r)) => Some (async_get_url_path i r w)
  | Some (Call (Call_read_tts f)) => Some (async_read_tts i f w)
  | Some (Call Call_clear_cache) => Some (async_clear_cache i w)
  | Some (Task_get_tts_data p) => Some (get_tts_data i p w)
  | Some (Task_save_tts_audio key f data) =>
      Some (set_coro i (Saving key f data None) w)
  | Some (Task_file_to_mem key) => Some (_async_file_to_mem i LoadTask key w)
  | Some (Loading k key f (Some r)) =>
      Some (_async_file_to_mem_resume i k key f r w)
  | Some (AwaitAudioTask url key t) =>
      match coros w !! t with
      | Some (Done r) => Some (audio_task_resume i url key r w)
      | _ => None
      end
  | Some (AwaitPending h key t) =>
      match coros w !! t with
      | Some (Done (Returned _)) => Some (after_pending i h key w)
      | Some (Done (Raised e)) => Some (finish i (Raised e) w)
      | _ => None
      end
  | Some (Synthesizing p (Some r)) => Some (get_tts_data_resume i p r w)
  | Some (Saving key f data (Some saved)) =>
      Some (_async_save_tts_audio_resume i key f saved w)
  | Some (Clearing true) => Some (async_clear_cache_resume i w)
  | _ => None
  end.

(** The executor runs the job that coroutine [i] waits for. *)
Definition run_job (i : nat) (w : world) : option world :=
  match coros w !! i with
  | Some (Loading k key f None) =>
      Some (set_coro i (Loading k key f (Some (files w !! f))) w)
  | Some (Saving key f data None) =>
      let '(r, w) := save_speech f data w in
      Some (set_coro i (Saving key f data r) w)
  | Some (Clearing false) => Some (set_coro i (Clearing true) (remove_files w))
  | _ => None
  end.

Inductive event :=
| Request (e : entry)                     (* an entry point is called *)
| Run (i : nat)                           (* the loop resumes [i] *)
| Job (i : nat)                           (* the executor serves [i] *)
| Backend (i : nat) (r : backend_result)  (* the engine answers [i] *)
| Callback (n : nat)                      (* a done-callback is called *)
| Timer (n : nat).                        (* an eviction timer fires *)

(** One step of the system; [None] when the event cannot happen. *)
Definition step (ev : event) (w : world) : option world :=
  match ev with
  | Request e => Some (snd (create_task (Call e) w))
  | Run i => run_coro i w
  | Job i => run_job i w
  | Backend i r =>
      match coros w !! i with
      | Some (Synthesizing p None) =>
          Some (set_coro i (Synthesizing p (Some r)) w)
      | _ => None
      end
  | Callback n =>
      match callbacks w !! n with
      | Some (t, key) =>
          match coros w !! t with
          | Some (Done r) =>
              Some (handle_error r key
                      (with_callbacks (delete n (callbacks w)) w))
          | _ => None
          end
      | None => None
      end
  | Timer n =>
      match timers w !! n with
      | Some key =>
          Some (async_remove_from_mem key
                  (with_timers (delete n (timers w)) w))
      | None => None
      end
  end.

Fixpoint run (evs : list event) (w : world) : option world :=
  match evs with
  | [] => Some w
  | ev :: evs' =>
      match step ev w with
      | Some w' => run evs' w'
      | None => None
      end
  end.
End Manager.

(** A manager that has just been initialised: [file_cache] comes from the
    scan of the cache directory, nothing is in memory, the loop is idle. *)
Definition init_world (file_cache : gmap string string)
    (files : gmap string bytes) (protected : gset string) : world :=
  {| file_cache := file_cache; mem_cache := ∅; files := files;
     protected := protected; coros := []; timers := []; callbacks := [];
     backend_calls := []; log := [] |}.

(** ** Notions used to state the properties *)

(** The cache key as the specification words it: the parts joined by
    underscores, the whole in lower case. *)
Fixpoint join (sep : string) (parts : list string) : string :=
  match parts with
  | [] => EmptyString
  | [x] => x
  | x :: rest => x +:+ sep +:+ join sep rest
  end.

(** The lexicographic order of the keys. *)
Definition key_le (a b : string) : Prop := String.leb a b = true.

#[global] Instance key_le_dec a b : Decision (key_le a b).
Proof. unfold key_le. apply _. Defined.

Definition sorted_keys (options : Py.dict Py.value) : list string :=
  merge_sort key_le (Py.keys options).

(** The stringified pair of a key and its value. *)
Definition pair_text (options : Py.dict Py.value) (k : string) : string :=
  k +:+ match Py.get options k with Some v => Py.str v | None => "" end.

(** The options digest as the specification words it: the keys are
    sorted lexicographically, the stringified key/value pairs are
    concatenated in that order, and the text is hashed to a short digest of
    fixed size, which is BLAKE2s with five bytes of output, in hex; absent
    and empty options give the sentinel ["-"]. *)
Definition options_digest (options : option (Py.dict Py.value)) : string :=
  match options with
  | None | Some [] => "-"
  | Some opts =>
      Blake2s.hexdigest 5
        (Py.encode (String.concat "" (map (pair_text opts) (sorted_keys opts))))
  end.

Definition derive_key (message language : string)
    (options : option (Py.dict Py.value)) (engine : string) : string :=
  Py.lower
    (join "_" [Sha1.hexdigest (Py.encode message);
               Py.replace_char "_" "-" language;
               options_digest options; engine]).

(** The item of a key of the options. *)
Definition item_of (options : Py.dict Py.value) (k : string)
  : string * Py.value :=
  (k, match Py.get options k with Some v => v | None => Py.VStr "" end).

(** A Python dict has each key once. *)
Definition dict_wf {V} (o : option (Py.dict V)) : Prop :=
  match o with
  | Some d => NoDup (Py.keys d)
  | None => True
  end.

Definition lookup_options {V} (o : option (Py.dict V)) (k : string)
  : option V :=
  match o with
  | Some d => Py.get d k
  | None => None
  end.

(** [language or engine_instance.default_language]. *)
Definition resolved_language (engine : engine_instance)
    (language : option string) : option string :=
  match language with
  | Some l => if Py.truthy l then Some l else default_language engine
  | None => default_language engine
  end.

Definition language_supported (engine : engine_instance)
    (language : option string) : Prop :=
  exists l supported,
    language = Some l /\ supported_languages engine = Some supported
    /\ l ∈ supported.

Definition allowed_options (engine : engine_instance) : list string :=
  match supported_options engine with
  | Some l => l
  | None => []
  end.

(** The artist tag that [write_tags] chooses. *)
Definition artist_of (language : string)
    (options : option (Py.dict Py.value)) : Py.value :=
  match lookup_options options ATTR_VOICE with
  | Some Py.VNone | None => Py.VStr language
  | Some voice => voice
  end.

(** An MPEG-1 Layer III frame of 128 kbit/s at 44.1 kHz: its header and
    413 bytes of data, 417 bytes in all; and an audio of four such frames,
    which is what mutagen asks for before it takes a buffer without
    variable-bit-rate header for MPEG audio. *)
Definition frame_header : bytes := [Byte.xff; Byte.xfb; Byte.x90; Byte.x00].



Fixpoint starts_with (l data : bytes) : bool :=
  match l, data with
  | [], _ => true
  | a :: l', b :: data' => Byte.eqb a b && starts_with l' data'
  | _ :: _, [] => false
  end.

(** [n] frames follow one another at the start of [data]. *)
Fixpoint mpeg_frames (n : nat) (data : bytes) : bool :=
  match n with
  | 0 => true
  | S n' => starts_with frame_header data && mpeg_frames n' (skipn 417 data)
  end.

(** A tagging library to run [write_tags] on: mutagen as [write_tags]
    meets it on a buffer that has no ID3 tag yet.  [File] takes MPEG audio
    of the frames above and raises [HeaderNotFoundError], a
    [MutagenError], on any other buffer; the file has no tags until
    [add_tags] gives it an empty ID3 tag; a text frame whose text is not a
    string is refused with a [ValueError], which is not a [MutagenError].
    The tag that [save] writes in front of the audio is left out. *)
Definition header_mutagen : Mutagen :=
  {| file_type := bool;                 (* does the file have an ID3 tag *)
     File := fun _ data =>
       if mpeg_frames 4 data then Returned (Some false)
       else Raised (FMutagenError "can't sync to MPEG frame");
     has_tags := fun _ => false;
     add_tags := fun f =>
       if f then Raised (FMutagenError "an ID3 tag already exists")
       else Returned true;
     tags_are_ID3 := fun f => f;
     set_item := fun f _ t =>
       match t with
       | ID3Text (Py.VStr _) => Returned f
       | ID3Text _ => Raised (FException "ValueError")
       | PlainText _ => Raised (FException "TypeError")
       end;
     save := fun _ data => (data, None) |}.

(** The options that [process_options] validates. *)
Definition merged_options (engine : engine_instance)
    (options : option (Py.dict Py.value)) : option (Py.dict Py.value) :=
  let options :=
    match default_options engine, options with
    | Some (d :: ds), Some (o :: os) => Some (Py.update (d :: ds) (o :: os))
    | _, _ => options
    end in
  if Py.nonempty options then options else default_options engine.

Definition option_keys (o : option (Py.dict Py.value)) : list string :=
  match o with
  | Some d => Py.keys d
  | None => []
  end.

(** The longest prefix of [s] in the class [p], and the rest. *)
Fixpoint span (p : ascii -> bool) (s : string) : string * string :=
  match s with
  | String c s' =>
      if p c then let '(a, r) := span p s' in (String c a, r)
      else (EmptyString, s)
  | EmptyString => (EmptyString, EmptyString)
  end.

Definition within (n : nat) (hi : option nat) : bool :=
  match hi with
  | Some h => n <=? h
  | None => true
  end.

(** Engine ids and extensions that the file name patterns accept: the
    fourth group of the legacy pattern, that of the current pattern, and
    the extension of both. *)
Definition legacy_engine (e : string) : bool :=
  Py.truthy e && Py.sall Re.lower_underscore e.

Definition current_engine (e : string) : bool :=
  match Re.strip "tts." e with
  | Some r => Py.truthy r && Py.sall Re.lower_digit_underscore r
  | None => false
  end.

Definition grammar_engine (e : string) : bool :=
  legacy_engine e || current_engine e.

Definition grammar_extension (x : string) : bool :=
  (3 <=? String.length x) && (String.length x <=? 4)
  && Py.sall Re.lower_digit x.


(** What follows the third underscore in the two patterns. *)
Definition current_tail : Re.regex :=
  [Re.Open; Re.Lit "tts."; Re.Rep Re.lower_digit_underscore 1 None; Re.Close;
   Re.Lit "."; Re.Rep Re.lower_digit 3 (Some 4)].

Definition legacy_tail : Re.regex :=
  [Re.Open; Re.Rep Re.lower_underscore 1 None; Re.Close;
   Re.Lit "."; Re.Rep Re.lower_digit 3 (Some 4)].

(** An engine and requests to run the definitions on. *)
Definition demo_engine : engine_instance :=
  {| name := Some "demo";
     default_language := Some "en";
     supported_languages := Some ["en"; "de"];
     default_options := Some [("voice", Py.VStr "anna")];
     supported_options := Some ["voice"; "audio_output"] |}.

Definition demo_config : config :=
  {| use_cache := true;
     engines := {[ "demo" := demo_engine ]};
     guess_type := fun _ => Some "audio/mpeg" |}.

Definition hello_request : request :=
  {| req_engine := "demo"; req_message := "Hello world"; req_cache := None;
     req_language := None; req_options := None |}.

Definition hello_key : string :=
  "7b502c3a1f48c8609ae212cdfb639dee39673f5e_en_07a1f88621_demo".

Definition mp3 (b : Byte.byte) : backend_result :=
  BackendReturned (Some "mp3") (Some [Byte.x49; Byte.x44; Byte.x33; b]).

(** Two callers ask for the same audio one after the other, before either
    synthesis has answered. *)
Definition two_requests : list event :=
  [Request (Call_get_tts_audio hello_request);
   Request (Call_get_tts_audio hello_request);
   Run 0; Run 1; Run 2; Run 3;
   Backend 2 (mp3 Byte.x01); Backend 3 (mp3 Byte.x02); Run 2; Run 3].

Definition locked_world : world :=
  {| file_cache := {[ hello_key := hello_key +:+ ".mp3" ]};
     mem_cache := ∅;
     files := {[ hello_key +:+ ".mp3" := [Byte.x49; Byte.x44; Byte.x33] ]};
     protected := {[ hello_key +:+ ".mp3" ]};
     coros := [Call Call_clear_cache]; timers := []; callbacks := [];
     backend_calls := []; log := [] |}.

(** The request [r] with its [cache] argument set. *)
Definition with_req_cache (c : option bool) (r : request) : request :=
  {| req_engine := req_engine r; req_message := req_message r;
     req_cache := c; req_language := req_language r;
     req_options := req_options r |}.

Definition hello_synthesis (c : bool) : synthesis :=
  {| syn_engine := demo_engine; syn_key := hello_key;
     syn_message := "Hello world"; syn_cache := c; syn_language := "en";
     syn_options := Some [("voice", Py.VStr "anna")] |}.

Definition hello_file : string := hello_key +:+ ".mp3".


(** The key of the Hello request is on the disk and not in memory; one
    caller is about to ask for it. *)
Definition disk_world (c : bool) : world :=
  {| file_cache := {[ hello_key := hello_file ]};
     mem_cache := ∅;
     files := {[ hello_file := [Byte.x49; Byte.x44; Byte.x33] ]};
     protected := ∅;
     coros := [Call (Call_get_tts_audio (with_req_cache (Some c) hello_request))];
     timers := []; callbacks := []; backend_calls := []; log := [] |}.

(** The exceptions that end a synthesis task. *)
Definition synth_error (e : error) : bool :=
  match e with
  | EngineNameNotSet | NoTTS _ _ | FilenameInvalid _ _ | Foreign _ => true
  | _ => false
  end.

(** The states of a synthesis task. *)
Definition synth_state (c : coro) : bool :=
  match c with
  | Task_get_tts_data _ | Synthesizing _ _ => true
  | Done (Returned (RFilename _)) => true
  | Done (Raised e) => synth_error e
  | _ => false
  end.

(** The task that a suspended coroutine awaits. *)
Definition awaits (c : coro) : option nat :=
  match c with
  | AwaitPending _ _ t | AwaitAudioTask _ _ t => Some t
  | _ => None
  end.

Definition is_synth (cs : list coro) (t : nat) : Prop :=
  exists c, cs !! t = Some c /\ synth_state c = true.

(** Every task that an entry, a coroutine or a done-callback refers to is
    a synthesis task. *)
Definition refs_ok_of (mc : gmap string TTSCache) (cs : list coro)
    (cbs : list (nat * string)) : Prop :=
  (forall key c t, mc !! key = Some c -> pending c = Some t -> is_synth cs t)
  /\ (forall i c t, cs !! i = Some c -> awaits c = Some t -> is_synth cs t)
  /\ (forall n t key, cbs !! n = Some (t, key) -> is_synth cs t).

Definition refs_ok (w : world) : Prop :=
  refs_ok_of (mem_cache w) (coros w) (callbacks w).

(** The worlds that a manager can be in: those that a run of the event
    loop leads to, starting from an initialised manager. *)
Definition reachable `{Mutagen} (cfg : config) (w : world) : Prop :=
  exists evs file_cache files protected,
    run cfg evs (init_world file_cache files protected) = Some w.





(** The exception with which [get_tts_data] ends on the answer [r] of the
    engine, when the engine raised, returned no extension or no audio, or
    returned an extension that makes no valid file name.  The cancellation
    of the task is not a failure of the synthesis. *)
Definition synthesis_failure (p : synthesis) (r : backend_result)
  : option error :=
  let engine_name :=
    match name (syn_engine p) with Some n => n | None => EmptyString end in
  match r with
  | BackendRaised FCancelledError => None
  | BackendRaised e => Some (Foreign e)
  | BackendReturned (Some extension) (Some _) =>
      let fname := Py.lower (syn_key p +:+ "." +:+ extension) in
      match match_voice_file fname with
      | None => Some (FilenameInvalid fname engine_name)
      | Some _ => None
      end
  | BackendReturned _ _ => Some (NoTTS engine_name (syn_message p))
  end.

(** The Hello request with a declared output extension. *)
Definition mp3_request : request :=
  {| req_engine := "demo"; req_message := "Hello world"; req_cache := None;
     req_language := None;
     req_options := Some [("audio_output", Py.VStr "mp3")] |}.

Definition mp3_synthesis : synthesis :=
  {| syn_engine := demo_engine;
     syn_key := _generate_cache_key "Hello world" "en"
                  (Some [("voice", Py.VStr "anna");
                         ("audio_output", Py.VStr "mp3")]) "demo";
     syn_message := "Hello world"; syn_cache := true; syn_language := "en";
     syn_options := Some [("voice", Py.VStr "anna");
                          ("audio_output", Py.VStr "mp3")] |}.

Definition timeout : backend_result := BackendRaised (FException "timeout").

(** A caller of [async_get_tts_audio] has been given a placeholder and
    awaits it; the engine has failed. *)
Definition failing_audio : list event :=
  [Request (Call_get_tts_audio mp3_request); Run 0; Run 1; Backend 1 timeout].

(** The same for a caller of [async_get_url_path], up to the end of the
    task and of its done-callback. *)
Definition failing_url : list event :=
  [Request (Call_get_url_path mp3_request); Run 0; Run 1; Backend 1 timeout;
   Run 1; Callback 0].

(** What the memory cache holds for a key: nothing, a placeholder whose
    task is awaited, or the audio. *)
Inductive phase :=
| Absent
| Pending (t : nat)
| Resolved (d : bytes).

Definition phase_of (key : string) (mc : gmap string TTSCache) : phase :=
  match mc !! key with
  | None => Absent
  | Some cached =>
      match pending cached with
      | Some t => Pending t
      | None => Resolved (voice cached)
      end
  end.

(** A synthesis task that has not ended. *)
Definition in_flight (c : coro) : bool :=
  match c with
  | Task_get_tts_data _ | Synthesizing _ _ => true
  | _ => false
  end.

(** No coroutine has ended with an exception. *)
Definition no_raised (cs : list coro) : Prop :=
  forall i e, cs !! i <> Some (Done (Raised e)).

(** The events of a schedule in which the callers ask for the synthesis
    [p] through the two entry points, and in which no eviction timer
    fires. *)
Definition asks `{Mutagen} (cfg : config) (p : synthesis) (ev : event)
  : Prop :=
  match ev with
  | Request (Call_get_tts_audio r) | Request (Call_get_url_path r) =>
      prepare cfg r = Returned p
  | Request _ | Timer _ => False
  | _ => True
  end.

(** What a coroutine of such a schedule can be, by the phase of the key:
    [nr] says that no coroutine has raised, [bc] are the calls of the
    engine. *)
Definition ok_coro `{Mutagen} (cfg : config) (p : synthesis) (ph : phase)
    (nr : Prop) (bc : list synthesis) (j : nat) (c : coro) : Prop :=
  match c with
  | Call (Call_get_tts_audio r) | Call (Call_get_url_path r) =>
      prepare cfg r = Returned p
  | Task_get_tts_data p' => p' = p /\ ph = Pending j /\ (nr -> bc = [])
  | Synthesizing p' _ => p' = p /\ ph = Pending j /\ (nr -> bc = [p])
  | Task_save_tts_audio key _ _ | Saving key _ _ _ =>
      key = syn_key p /\ exists d, ph = Resolved d
  | AwaitPending _ key _ => key = syn_key p
  | Done (Returned (RAudio _ d)) | Done (Returned (RRead _ d)) =>
      ph = Resolved d
  | Done (Returned (RFilename _)) => exists d, ph = Resolved d
  | Done _ => True
  | _ => False
  end.

(** The invariant of such a schedule. *)
Definition flight_inv_of `{Mutagen} (cfg : config) (p : synthesis)
    (mc : gmap string TTSCache) (fc : gmap string string) (cs : list coro)
    (cbs : list (nat * string)) (bc : list synthesis) : Prop :=
  let ph := phase_of (syn_key p) mc in
  let nr := no_raised cs in
  (forall j c, cs !! j = Some c -> ok_coro cfg p ph nr bc j c)
  /\ (forall n t key, cbs !! n = Some (t, key) ->
        key = syn_key p
        /\ forall e, cs !! t = Some (Done (Raised e)) -> ph = Pending t)
  /\ length cbs <= 1
  /\ (syn_cache p = false \/ fc !! syn_key p = None
      \/ exists d, ph = Resolved d)
  /\ (nr -> match ph with
            | Absent => bc = []
            | Resolved _ => bc = [p]
            | Pending _ => True
            end).

Definition flight_inv `{Mutagen} (cfg : config) (p : synthesis) (w : world)
  : Prop :=
  flight_inv_of cfg p (mem_cache w) (file_cache w) (coros w) (callbacks w)
    (backend_calls w).

(** Three callers ask for the same audio with a declared extension, two
    through [async_get_tts_audio] and one through [async_get_url_path]. *)
Definition shared_requests : list event :=
  [Request (Call_get_tts_audio mp3_request);
   Request (Call_get_tts_audio mp3_request);
   Request (Call_get_url_path mp3_request);
   Run 0; Run 1; Run 2; Run 3; Backend 3 (mp3 Byte.x01); Run 3;
   Callback 0; Run 0; Run 1].

(** Two callers have asked for the same audio; neither has run yet. *)
Definition two_callers : world :=
  {| file_cache := ∅; mem_cache := ∅; files := ∅; protected := ∅;
     coros := [Call (Call_get_tts_audio hello_request);
               Call (Call_get_tts_audio hello_request)];
     timers := []; callbacks := []; backend_calls := []; log := [] |}.

(** Every audio held in memory is awaited by an eviction timer. *)
Definition evict_ok_of (mc : gmap string TTSCache) (ts : list string) : Prop :=
  forall key c, mc !! key = Some c -> pending c = None -> key ∈ ts.

Definition evict_ok (w : world) : Prop :=
  evict_ok_of (mem_cache w) (timers w).

(** A synthesis task for [key] that has not returned: not started yet,
    waiting for the engine, or ended with an exception. *)
Definition owns (key : string) (c : coro) : Prop :=
  match c with
  | Task_get_tts_data p | Synthesizing p _ => syn_key p = key
  | Done (Raised _) => True
  | _ => False
  end.

(** A cancelled task: its coroutine ended with [CancelledError]. *)
Definition cancelled (c : coro) : bool :=
  match c with
  | Done (Raised (Foreign FCancelledError)) => true
  | _ => false
  end.

(** Every placeholder of the memory cache has its task running or ended
    with an exception and, unless the task is cancelled, its done-callback
    registered. *)
Definition placeholder_ok_of (mc : gmap string TTSCache) (cs : list coro)
    (cbs : list (nat * string)) : Prop :=
  forall key c t,
    mc !! key = Some c -> pending c = Some t ->
    exists ct,
      cs !! t = Some ct /\ owns key ct
      /\ (cancelled ct = true \/ exists n, cbs !! n = Some (t, key)).

(** A synthesis with a declared extension is cancelled while it waits for
    the engine; its done-callback is called; a second caller asks for the
    same audio. *)
Definition cancelled_audio : list event :=
  [Request (Call_get_url_path mp3_request); Run 0; Run 1;
   Backend 1 (BackendRaised FCancelledError); Run 1; Callback 0;
   Request (Call_get_tts_audio mp3_request)].

Definition placeholder_ok (w : world) : Prop :=
  placeholder_ok_of (mem_cache w) (coros w) (callbacks w).

(** The index names a file that is not in the cache directory; a caller
    has asked for its audio. *)
Definition lost_file : world :=
  {| file_cache := {[ hello_key := hello_key +:+ ".mp3" ]};
     mem_cache := ∅; files := ∅; protected := ∅;
     coros := [Call (Call_get_tts_audio hello_request)];
     timers := []; callbacks := []; backend_calls := []; log := [] |}.

(** What [hass.data] holds for the component: the entities of the entity
    component, with their entity ids, in the order in which the component
    iterates over them, and the legacy providers of the manager, a dict. *)
Record registry := {
  entities : Py.dict engine_instance;
  providers : Py.dict engine_instance;
}.

(** Return the domain or entity id of the default engine. *)
Definition async_default_engine (hass : registry) : option string :=
  if Py.contains (providers hass) "cloud" then Some "cloud"
  else
    match entities hass with
    | (entity_id, _) :: _ => Some entity_id
    | [] =>
        match providers hass with
        | (engine, _) :: _ => Some engine
        | [] => None
        end
    end.

(** Resolve engine. *)
Definition async_resolve_engine (hass : registry) (engine : option string)
  : option string :=
  match engine with
  | Some e =>
      if negb (Py.contains (entities hass) e)
         && negb (Py.contains (providers hass) e)
      then None
      else Some e
  | None => async_default_engine hass
  end.

(** Return if an engine supports options. *)
Definition async_support_options (cfg : config) (engine : string)
    (language : option string) (options : option (Py.dict Py.value))
  : result bool :=
  match engines cfg !! engine with
  | None => Raised (ProviderNotFound engine)
  | Some engine_instance =>
      match process_options engine_instance language options with
      | Raised _ => Returned false
      | Returned _ => Returned true
      end
  end.

(** An engine that [hass] knows, as entity or as provider. *)
Definition registered (hass : registry) (engine : string) : bool :=
  Py.contains (entities hass) engine || Py.contains (providers hass) engine.

(** The errors of [process_options]. *)
Definition process_options_error (e : error) : bool :=
  match e with
  | LanguageNotSupported _ | InvalidOptionsFound _ => true
  | _ => false
  end.

(** A caller has been given a placeholder for an mp3; the engine answers
    with a wav. *)
Definition wav_answer : list event :=
  [Request (Call_get_tts_audio mp3_request); Run 0; Run 1;
   Backend 1 (BackendReturned (Some "wav") (Some [Byte.x52; Byte.x49]))].

(** A synthesis has ended and its audio is to be saved; a second caller
    asks for the same audio after the entry has left the memory. *)
Definition saving_world : world :=
  {| file_cache := ∅; mem_cache := ∅; files := ∅; protected := ∅;
     coros := [Task_save_tts_audio hello_key (hello_key +:+ ".mp3")
                 [Byte.x49; Byte.x44; Byte.x33];
               Call (Call_get_tts_audio hello_request)];
     timers := []; callbacks := []; backend_calls := []; log := [] |}.


(** The manager after the scan of a cache directory that holds one audio
    file and one other file; a caller asks for the audio file. *)
Definition scanned_world : world :=
  {| file_cache := _get_cache_files [hello_key +:+ ".mp3"; "readme.txt"];
     mem_cache := ∅;
     files := {[ hello_key +:+ ".mp3" := [Byte.x49; Byte.x44; Byte.x33] ]};
     protected := ∅;
     coros := [Call (Call_read_tts (hello_key +:+ ".mp3"))];
     timers := []; callbacks := []; backend_calls := []; log := [] |}.

(** One step of the scan. *)
Definition index_file (cache : gmap string string) (file_data : string)
  : gmap string string :=
  match match_voice_file file_data with
  | Some record => <[Py.lower (record_key record) := Py.lower file_data]> cache
  | None => cache
  end.

(** The loop, the executor or the engine can let coroutine [i] go on. *)
Definition enabled `{Mutagen} (cfg : config) (w : world) (i : nat) : Prop :=
  exists ev w',
    (ev = Run i \/ ev = Job i \/ exists r, ev = Backend i r)
    /\ step cfg ev w = Some w'.

(** An upper bound of the number of times that a coroutine is resumed, by
    the loop, by the executor or by an answer of the engine, before it
    ends. *)
Definition rank (c : coro) : nat :=
  match c with
  | Call _ | Task_file_to_mem _ => 4
  | Task_get_tts_data _ | Task_save_tts_audio _ _ _ | Loading _ _ _ None => 3
  | Synthesizing _ None | Saving _ _ _ None | Loading _ _ _ (Some _)
  | AwaitAudioTask _ _ _ | Clearing false => 2
  | Synthesizing _ (Some _) | Saving _ _ _ (Some _) | AwaitPending _ _ _
  | Clearing true => 1
  | Done _ => 0
  end.

(** What is left for coroutine [i]; a coroutine that does not exist yet
    has everything before it. *)
Definition potential (w : world) (i : nat) : nat :=
  match coros w !! i with
  | Some c => rank c
  | None => 4
  end.

(** The events that resume coroutine [i]. *)
Definition resumes (i : nat) (ev : event) : bool :=
  match ev with
  | Run j | Job j | Backend j _ => bool_decide (j = i)
  | _ => false
  end.

Definition pot_of (cs : list coro) (i : nat) : nat :=
  match cs !! i with
  | Some c => rank c
  | None => 4
  end.

(** * Properties *)

Example sha1_abc :
  Sha1.hexdigest (Py.encode "abc") = "a9993e364706816aba3e25717850c26c9cd0d89d".
Proof. vm_compute. reflexivity. Qed.

Example sha1_empty :
  Sha1.hexdigest (Py.encode "") = "da39a3ee5e6b4b0d3255bfef95601890afd80709".
Proof. vm_compute. reflexivity. Qed.

Example sha1_two_blocks :
  Sha1.hexdigest (repeat 97%N 70) = "ed6c69d9e8b4373af86303dfaa3528dfbc129902".
Proof. vm_compute. reflexivity. Qed.

Example blake2s_abc :
  Blake2s.hexdigest 32 (Py.encode "abc")
  = "508c5e8c327c14e2e1a72ba34eeb452f37458b209ed63a294d999b4c86675982".
Proof. vm_compute. reflexivity. Qed.

Example blake2s_5_lengths :
  Blake2s.hexdigest 5 [] = "0c58705f4f"
  /\ Blake2s.hexdigest 5 (repeat 97%N 64) = "b017b6af71"
  /\ Blake2s.hexdigest 5 (repeat 97%N 65) = "4cd7343796"
  /\ Blake2s.hexdigest 5 (repeat 97%N 130) = "2e96cb4397".
Proof. vm_compute. repeat split. Qed.

Example key_hello_world_scratch :
  _generate_cache_key "Hello world" "en" (Some []) "demo"
  = "7b502c3a1f48c8609ae212cdfb639dee39673f5e_en_-_demo".
Proof. vm_compute. reflexivity. Qed.

Example hash_options_vectors :
  _hash_options [("voice", Py.VStr "a")] = "647016a091"
  /\ _hash_options [("voice", Py.VStr "b")] = "0259377ab8"
  /\ _hash_options [("b", Py.VStr "x"); ("a", Py.VBool true); ("c", Py.VInt 12)]
     = "7daf6f76ed".
Proof. vm_compute. repeat split. Qed.

Example match_examples :
  match_voice_file "7b502c3a1f48c8609ae212cdfb639dee39673f5e_en_-_demo.mp3"
  = Some ["7b502c3a1f48c8609ae212cdfb639dee39673f5e"; "en"; "-"; "demo"]
  /\ match_voice_file "7b502c3a1f48c8609ae212cdfb639dee39673f5e_en-us_0259377ab8_tts.google_en_com.wav"
  = Some ["7b502c3a1f48c8609ae212cdfb639dee39673f5e"; "en-us"; "0259377ab8"; "tts.google_en_com"]
  /\ match_voice_file "zzzzzb502c3a1f48c8609ae212cdfb639dee39673f5e_en_-_demo.mp3" = None
  /\ match_voice_file "7b502c3a1f48c8609ae212cdfb639dee39673f5e_en_-_demo2.mp3" = None
  /\ match_voice_file "7b502c3a1f48c8609ae212cdfb639dee39673f5e_en_-_a.bcd.mp3"
  = Some ["7b502c3a1f48c8609ae212cdfb639dee39673f5e"; "en"; "-"; "a"].
Proof. vm_compute. repeat split. Qed.

(** ** The cache key *)

Lemma append_nil_l s : "" +:+ s = s.
Proof. reflexivity. Qed.

Lemma append_cons c a b : String c a +:+ b = String c (a +:+ b).
Proof. reflexivity. Qed.

Create Rewrite HintDb str.
#[local] Hint Rewrite append_nil_l append_cons : str.

Ltac str := autorewrite with str; simpl.

Lemma append_nil_r s : s +:+ "" = s.
Proof. induction s as [|? ? IH]; str; rewrite ?IH; done. Qed.

Lemma join4 sep a b c d :
  join sep [a; b; c; d] = a +:+ sep +:+ b +:+ sep +:+ c +:+ sep +:+ d.
Proof. reflexivity. Qed.

Lemma key_leb_total a b : key_leb a b = true \/ key_leb b a = true.
Proof.
  unfold key_leb. rewrite (String.compare_antisym b a).
  destruct (String.compare a b); simpl; auto.
Qed.

Lemma key_leb_antisym a b : key_leb a b = true -> key_leb b a = true -> a = b.
Proof.
  unfold key_leb. rewrite (String.compare_antisym b a).
  destruct (String.compare a b) eqn:Hc; simpl; try done.
  intros _ _. by apply String.compare_eq_iff.
Qed.

Lemma key_leb_trans a b c :
  key_leb a b = true -> key_leb b c = true -> key_leb a c = true.
Proof.
  unfold key_leb.
  destruct (String.compare a b) eqn:Hab; try done;
    destruct (String.compare b c) eqn:Hbc; try done; intros _ _.
  - apply String.compare_eq_iff in Hab as ->. by rewrite Hbc.
  - apply String.compare_eq_iff in Hab as ->. by rewrite Hbc.
  - apply String.compare_eq_iff in Hbc as <-. by rewrite Hab.
  - apply OrderedTypeEx.String_as_OT.cmp_lt in Hab, Hbc.
    pose proof (OrderedTypeEx.String_as_OT.lt_trans _ _ _ Hab Hbc) as Hac.
    apply OrderedTypeEx.String_as_OT.cmp_lt in Hac.
    unfold OrderedTypeEx.String_as_OT.cmp in Hac. by rewrite Hac.
Qed.

Lemma insert_item_comm a b l :
  fst a <> fst b ->
  insert_item a (insert_item b l) = insert_item b (insert_item a l).
Proof.
  intros Hne.
  assert (Hab : key_leb (fst a) (fst b) = negb (key_leb (fst b) (fst a))).
  { destruct (key_leb (fst a) (fst b)) eqn:H1,
      (key_leb (fst b) (fst a)) eqn:H2; try done.
    - by destruct Hne; apply key_leb_antisym.
    - by destruct (key_leb_total (fst a) (fst b)) as [H|H]; rewrite H in *. }
  induction l as [|c l IH]; simpl.
  - rewrite Hab. by destruct (key_leb (fst b) (fst a)).
  - destruct (key_leb (fst b) (fst c)) eqn:Hbc,
      (key_leb (fst a) (fst c)) eqn:Hac; simpl;
      rewrite ?Hbc, ?Hac, ?Hab; try done.
    + by destruct (key_leb (fst b) (fst a)); simpl; rewrite ?Hbc, ?Hac.
    + destruct (key_leb (fst b) (fst a)) eqn:Hba; simpl;
        rewrite ?Hbc, ?Hac; try done.
      by rewrite (key_leb_trans _ _ _ Hab Hbc) in Hac.
    + destruct (key_leb (fst b) (fst a)) eqn:Hba; simpl;
        rewrite ?Hbc, ?Hac; try done.
      by rewrite (key_leb_trans _ _ _ Hba Hac) in Hbc.
    + by rewrite IH.
Qed.

Lemma sorted_items_perm d1 d2 :
  NoDup (Py.keys d1) -> d1 ≡ₚ d2 -> sorted_items d1 = sorted_items d2.
Proof.
  intros Hnd Hp. unfold sorted_items, Py.keys in *.
  induction Hp as [|x l l' Hp IH|x y l|l l' l'' Hp1 IH1 Hp2 IH2]; simpl.
  - done.
  - apply NoDup_cons in Hnd as [_ Hnd]. by rewrite IH.
  - apply insert_item_comm. simpl in Hnd.
    apply NoDup_cons in Hnd as [Hy _]. intros Heq. apply Hy.
    rewrite Heq. by left.
  - rewrite IH1 by done. apply IH2. by rewrite <- Hp1.
Qed.

#[global] Instance key_le_total : Total key_le.
Proof. intros a b. apply String.leb_total. Qed.

Lemma encode_app (a b : string) :
  Py.encode (a +:+ b) = Py.encode a ++ Py.encode b.
Proof. induction a as [|c a IH]; [done|]. simpl. by rewrite IH. Qed.

(** Sorting a list that is sorted already changes nothing. *)
Lemma sorted_items_sorted l :
  Sorted (fun a b : string * Py.value => key_le (fst a) (fst b)) l ->
  sorted_items l = l.
Proof.
  unfold sorted_items. induction 1 as [|x l Hs IH Hhd]; simpl; [done|].
  rewrite IH. destruct Hhd as [|y l Hxy]; simpl; [done|].
  unfold key_leb. unfold key_le, String.leb in Hxy.
  by destruct (String.compare x.1 y.1).
Qed.

Lemma items_of_keys (d : Py.dict Py.value) :
  NoDup (Py.keys d) -> map (item_of d) (Py.keys d) = d.
Proof.
  unfold Py.keys. induction d as [|[k v] d IH]; simpl; [done|].
  intros [Hk Hnd]%NoDup_cons. f_equal.
  - unfold item_of. simpl. by rewrite String.eqb_refl.
  - transitivity (map (item_of d) (map fst d)); [|by apply IH].
    apply map_ext_in. intros k' Hin.
    unfold item_of. simpl. destruct (String.eqb k k') eqn:E; [|done].
    apply String.eqb_eq in E. subst k'. destruct Hk.
    by apply list_elem_of_In.
Qed.

(** The items in the order of [sorted(options.items())] are the items of
    the sorted keys. *)
Lemma sorted_items_keys (d : Py.dict Py.value) :
  NoDup (Py.keys d) -> sorted_items d = map (item_of d) (sorted_keys d).
Proof.
  intros Hnd.
  rewrite (sorted_items_perm d (map (item_of d) (sorted_keys d))) by
    (try done; rewrite <- (items_of_keys d Hnd) at 1;
     apply fmap_Permutation; symmetry; apply merge_sort_Permutation).
  apply sorted_items_sorted.
  unfold sorted_keys.
  pose proof (Sorted_merge_sort key_le (Py.keys d)) as Hs.
  induction Hs as [|x l Hs IH Hhd]; simpl; constructor; [done|].
  destruct Hhd; simpl; by constructor.
Qed.

(** Feeding the hash key by key and value by value is hashing the
    concatenation. *)
Lemma hash_options_digest (d : Py.dict Py.value) :
  NoDup (Py.keys d) ->
  _hash_options d
  = Blake2s.hexdigest 5
      (Py.encode (String.concat "" (map (pair_text d) (sorted_keys d)))).
Proof.
  intros Hnd. unfold _hash_options. rewrite (sorted_items_keys d Hnd).
  f_equal. generalize (sorted_keys d). intros ks.
  assert (Hgen : forall ks,
             flat_map (fun kv : string * Py.value =>
                         Py.encode (fst kv) ++ Py.encode (Py.str (snd kv)))
               (map (item_of d) ks)
             = Py.encode (fold_right (fun k acc => pair_text d k +:+ acc) "" ks)).
  { induction ks0 as [|k ks0 IH]; simpl; [done|].
    rewrite IH, !encode_app. unfold pair_text, item_of. simpl.
    rewrite encode_app. destruct (Py.get d k); simpl; by rewrite <- app_assoc. }
  rewrite Hgen. f_equal. clear.
  induction ks as [|k [|k' ks] IH]; simpl in *.
  - done.
  - apply append_nil_r.
  - by rewrite IH.
Qed.

(** C2. The key derivation is a function of its four arguments alone (it
    neither reads nor changes the manager).  For options that are a dict,
    whose keys are distinct, it is the lower-cased join by underscores of
    the SHA-1 hex digest of the message, the language with underscores
    turned into hyphens, the options digest (the BLAKE2s digest of the
    concatenated key/value pairs in the order of the sorted keys, ["-"] for
    absent and for empty options) and the engine id.  The key of ("Hello
    world", "en", {}, "demo") is the SHA-1 of "Hello world" followed by
    [_en_-_demo]; with the options voice and audio_output, the language
    en_US and the engine Demo it has the digest of
    [audio_outputMP3voiceanna] in the third place; two voices give two
    keys. *)
Theorem generate_cache_key_spec :
  (forall message language options engine,
      dict_wf options ->
      _generate_cache_key message language options engine
      = derive_key message language options engine)
  /\ (forall message language engine,
         _generate_cache_key message language None engine
         = _generate_cache_key message language (Some []) engine)
  /\ Sha1.hexdigest (Py.encode "Hello world")
     = "7b502c3a1f48c8609ae212cdfb639dee39673f5e"
  /\ _generate_cache_key "Hello world" "en" (Some []) "demo"
     = Sha1.hexdigest (Py.encode "Hello world") +:+ "_en_-_demo"
  /\ Blake2s.hexdigest 5 (Py.encode "audio_outputMP3voiceanna")
     = "845a4d0206"
  /\ _generate_cache_key "Hello world" "en_US"
       (Some [("voice", Py.VStr "anna"); ("audio_output", Py.VStr "MP3")])
       "Demo"
     = "7b502c3a1f48c8609ae212cdfb639dee39673f5e_en-us_845a4d0206_demo"
  /\ _generate_cache_key "Hello world" "en" (Some [("voice", Py.VStr "a")])
       "demo"
     = "7b502c3a1f48c8609ae212cdfb639dee39673f5e_en_647016a091_demo"
  /\ _generate_cache_key "Hello world" "en" (Some [("voice", Py.VStr "b")])
       "demo"
     = "7b502c3a1f48c8609ae212cdfb639dee39673f5e_en_0259377ab8_demo".
Proof.
  split_and!.
  - intros message language options engine Hwf.
    unfold _generate_cache_key, derive_key, KEY_PATTERN, options_digest.
    rewrite join4. destruct options as [[|kv d]|]; try done.
    by rewrite hash_options_digest.
  - reflexivity.
  - vm_compute. reflexivity.
  - vm_compute. reflexivity.
  - vm_compute. reflexivity.
  - vm_compute. reflexivity.
  - vm_compute. reflexivity.
  - vm_compute. reflexivity.
Qed.

Lemma generate_cache_key_spec_witness :
  _generate_cache_key "Hello world" "en_US"
    (Some [("voice", Py.VStr "anna"); ("audio_output", Py.VStr "MP3")]) "Demo"
  = derive_key "Hello world" "en_US"
      (Some [("voice", Py.VStr "anna"); ("audio_output", Py.VStr "MP3")])
      "Demo".
Proof.
  apply (proj1 generate_cache_key_spec). simpl.
  apply NoDup_cons. split; [|apply NoDup_singleton].
  intros Hin%list_elem_of_singleton. discriminate Hin.
Defined.

(** ** The tag writer *)

Lemma write_tags_unfold `{Mutagen} filename data engine_name message language
    options :
  write_tags filename data engine_name message language options
  = match tag_buffer filename data (artist_of language options)
            (Py.VStr engine_name) message with
    | (data_bytes, Some (FMutagenError err)) =>
        ([LogID3TagError err], Returned data_bytes)
    | (_, Some e) => ([], Raised (Foreign e))
    | (data_bytes, None) => ([], Returned data_bytes)
    end.
Proof.
  unfold write_tags, artist_of, lookup_options, ATTR_VOICE.
  destruct options as [opts|]; [|reflexivity].
  destruct (Py.get opts "voice") as [[]|]; reflexivity.
Qed.





(** ** Option processing *)

Section DictFacts.
Context {V : Type}.
Implicit Types (d o : Py.dict V) (k : string) (v : V).

Lemma get_set d k v k' :
  Py.get (Py.set d k v) k' = if String.eqb k k' then Some v else Py.get d k'.
Proof.
  induction d as [|[k0 v0] d IH]; simpl.
  - reflexivity.
  - destruct (String.eqb k0 k) eqn:E0; simpl.
    + apply String.eqb_eq in E0; subst k0.
      destruct (String.eqb k k'); reflexivity.
    + destruct (String.eqb k0 k') eqn:E1; [|exact IH].
      apply String.eqb_eq in E1; subst k0.
      rewrite String.eqb_sym in E0. by rewrite E0.
Qed.

Lemma get_None_keys d k : Py.get d k = None <-> k ∉ Py.keys d.
Proof.
  induction d as [|[k0 v0] d IH]; simpl.
  - split; [intros _; apply not_elem_of_nil | done].
  - rewrite not_elem_of_cons. destruct (String.eqb k0 k) eqn:E.
    + apply String.eqb_eq in E; subst. split; [done | intros [? _]; done].
    + apply String.eqb_neq in E. rewrite IH. split; [auto|intros [_ ?]; auto].
Qed.

Lemma set_nonempty d k v : Py.set d k v <> [].
Proof. destruct d as [|[k0 v0] d]; simpl; [done|]. by destruct (String.eqb _ _). Qed.

Lemma update_nonempty d o : d <> [] -> Py.update d o <> [].
Proof.
  unfold Py.update. revert d.
  induction o as [|kv o IH]; simpl; intros d Hd; [done|].
  apply IH, set_nonempty.
Qed.

(** [d.update(o)]: the value of [o] wins. *)
Lemma get_update d o k :
  NoDup (Py.keys o) ->
  Py.get (Py.update d o) k
  = match Py.get o k with Some v => Some v | None => Py.get d k end.
Proof.
  unfold Py.update. revert d.
  induction o as [|[k0 v0] o IH]; intros d Hnd; [reflexivity|].
  change (NoDup (k0 :: Py.keys o)) in Hnd.
  apply NoDup_cons in Hnd as [Hk0 Hnd].
  cbn [fold_left fst snd Py.get]. rewrite (IH _ Hnd), get_set.
  destruct (String.eqb k0 k) eqn:E; [|reflexivity].
  apply String.eqb_eq in E; subst k0.
  apply get_None_keys in Hk0. by rewrite Hk0.
Qed.
End DictFacts.

Lemma merged_lookup engine options k :
  dict_wf options ->
  lookup_options (merged_options engine options) k
  = match lookup_options options k with
    | Some v => Some v
    | None => lookup_options (default_options engine) k
    end.
Proof.
  intros Hwf. unfold merged_options.
  destruct (default_options engine) as [[|d ds]|], options as [[|o os]|];
    try reflexivity.
  - cbn [Py.nonempty lookup_options]. by destruct (Py.get (o :: os) k).
  - destruct (Py.update (d :: ds) (o :: os)) as [|x xs] eqn:E.
    + by apply update_nonempty in E.
    + cbn [Py.nonempty]. rewrite <- E. cbn [lookup_options].
      by apply get_update.
  - cbn [Py.nonempty lookup_options]. by destruct (Py.get (o :: os) k).
Qed.

Lemma process_options_unfold engine language options :
  process_options engine language options
  = match resolved_language engine language, supported_languages engine with
    | Some lang, Some supported =>
        if bool_decide (lang ∈ supported) then
          match merged_options engine options with
          | Some opts =>
              let invalid_opts :=
                filter (fun n => n ∉ allowed_options engine) (Py.keys opts) in
              match invalid_opts with
              | _ :: _ => Raised (InvalidOptionsFound invalid_opts)
              | [] => Returned (lang, Some opts)
              end
          | None => Returned (lang, None)
          end
        else Raised (LanguageNotSupported (resolved_language engine language))
    | _, _ => Raised (LanguageNotSupported (resolved_language engine language))
    end.
Proof. reflexivity. Qed.

Lemma finish_backend_calls i r w :
  backend_calls (finish i r w) = backend_calls w
  /\ length (coros (finish i r w)) = length (coros w)
  /\ mem_cache (finish i r w) = mem_cache w
  /\ file_cache (finish i r w) = file_cache w.
Proof. unfold finish, set_coro; simpl. by rewrite length_insert. Qed.

(** C8. Option processing: an absent language is replaced by the engine's
    default; a resolved language outside the engine's supported set fails
    with "Language not supported"; the options validated are the request's
    merged over the engine's defaults, the request winning key by key; when
    the language is supported and some merged option name is outside the
    engine's allow-list, the call fails with "Invalid options found" and
    the error lists exactly the offending names; otherwise the resolved
    language and the merged options are returned.  Both entry points fail
    with the same error without creating a task or calling the engine. *)
Theorem process_options_spec `{Mutagen} engine language options :
  dict_wf options ->
  let resolved := resolved_language engine language in
  let merged := merged_options engine options in
  let invalid_opts :=
    filter (fun n => n ∉ allowed_options engine) (option_keys merged) in
  (language = None -> resolved = default_language engine)
  /\ (forall k,
         lookup_options merged k
         = match lookup_options options k with
           | Some v => Some v
           | None => lookup_options (default_options engine) k
           end)
  /\ (forall n,
         n ∈ invalid_opts
         <-> n ∈ option_keys merged /\ n ∉ allowed_options engine)
  /\ (~ language_supported engine resolved ->
      process_options engine language options
      = Raised (LanguageNotSupported resolved))
  /\ (language_supported engine resolved -> invalid_opts <> [] ->
      process_options engine language options
      = Raised (InvalidOptionsFound invalid_opts))
  /\ (forall lang,
         resolved = Some lang -> language_supported engine resolved ->
         invalid_opts = [] ->
         process_options engine language options = Returned (lang, merged))
  /\ (forall cfg i w engine_id message cache e,
         engines cfg !! engine_id = Some engine ->
         process_options engine language options = Raised e ->
         let r := {| req_engine := engine_id; req_message := message;
                     req_cache := cache; req_language := language;
                     req_options := options |} in
         async_get_tts_audio cfg i r w = finish i (Raised e) w
         /\ async_get_url_path cfg i r w = finish i (Raised e) w
         /\ backend_calls (finish i (Raised e) w) = backend_calls w
         /\ length (coros (finish i (Raised e) w)) = length (coros w)).
Proof.
  intros Hwf resolved merged invalid_opts.
  split; [by intros ->|].
  split; [intros k; by apply merged_lookup|].
  split; [intros n; unfold invalid_opts; rewrite list_elem_of_filter; tauto|].
  assert (Hsup : forall lang supported,
             resolved = Some lang -> supported_languages engine = Some supported ->
             bool_decide (lang ∈ supported) = true ->
             process_options engine language options
             = match invalid_opts with
               | _ :: _ => Raised (InvalidOptionsFound invalid_opts)
               | [] => Returned (lang, merged)
               end).
  { intros lang supported Hres Hsl Hin. rewrite process_options_unfold.
    fold resolved. rewrite Hres, Hsl, Hin.
    subst invalid_opts. fold merged. by destruct merged. }
  split; [|split; [|split]].
  - intros Hno. rewrite process_options_unfold. fold resolved.
    destruct resolved as [lang|] eqn:Hres; [|done].
    destruct (supported_languages engine) as [supported|] eqn:Hsl; [|done].
    case_bool_decide as Hin; [|done].
    destruct Hno. by exists lang, supported.
  - intros (lang & supported & Hres & Hsl & Hin) Hne.
    rewrite (Hsup lang supported) by (try apply bool_decide_eq_true; done).
    by destruct invalid_opts.
  - intros lang Hres (lang' & supported & Hres' & Hsl & Hin) Hnil.
    rewrite Hres in Hres'. injection Hres' as <-.
    rewrite (Hsup lang supported) by (try apply bool_decide_eq_true; done).
    by rewrite Hnil.
  - intros cfg i w engine_id message cache e Heng Hfail r.
    unfold async_get_tts_audio, async_get_url_path, prepare. simpl.
    rewrite Heng, Hfail. repeat split; apply finish_backend_calls.
Qed.

Lemma process_options_spec_witness :
  process_options demo_engine None (Some [("speed", Py.VInt 2)])
  = Raised (InvalidOptionsFound ["speed"]).
Proof.
  destruct (@process_options_spec header_mutagen demo_engine None
              (Some [("speed", Py.VInt 2)]))
    as (_ & _ & _ & _ & Hinvalid & _).
  - apply NoDup_singleton.
  - apply Hinvalid.
    + exists "en", ["en"; "de"]. repeat split. apply list_elem_of_here.
    + vm_compute. discriminate.
Defined.

(** ** File names *)

(** ** Strings *)

Lemma append_assoc (a b c : string) : (a +:+ b) +:+ c = a +:+ (b +:+ c).
Proof. induction a as [|? ? IH]; str; rewrite ?IH; done. Qed.

Lemma append_length (a b : string) :
  String.length (a +:+ b) = String.length a + String.length b.
Proof. induction a as [|? ? IH]; str; rewrite ?IH; done. Qed.

Lemma smap_app f (a b : string) :
  Py.smap f (a +:+ b) = Py.smap f a +:+ Py.smap f b.
Proof. induction a as [|? ? IH]; str; rewrite ?IH; done. Qed.

Lemma smap_length f s : String.length (Py.smap f s) = String.length s.
Proof. induction s as [|? ? IH]; simpl; rewrite ?IH; done. Qed.

Lemma sall_app p (a b : string) :
  Py.sall p (a +:+ b) = Py.sall p a && Py.sall p b.
Proof. induction a; str; [done|]. rewrite IHa. by destruct (p a). Qed.

Lemma sall_smap p q f s :
  (forall c, q c = true -> p (f c) = true) ->
  Py.sall q s = true -> Py.sall p (Py.smap f s) = true.
Proof.
  intros Hf. induction s as [|c s IH]; simpl; [done|].
  intros [Hc Hs]%andb_true_iff. by rewrite (Hf _ Hc), IH.
Qed.

Lemma sall_impl (p q : ascii -> bool) s :
  (forall c, p c = true -> q c = true) ->
  Py.sall p s = true -> Py.sall q s = true.
Proof.
  intros Hpq. induction s as [|c s IH]; simpl; [done|].
  intros [Hc Hs]%andb_true_iff. by rewrite (Hpq _ Hc), IH.
Qed.

Lemma smap_id_on p f s :
  (forall c, p c = true -> f c = c) -> Py.sall p s = true -> Py.smap f s = s.
Proof.
  intros Hf. induction s as [|c s IH]; simpl; [done|].
  intros [Hc Hs]%andb_true_iff. by rewrite (Hf _ Hc), IH.
Qed.

(** ** Characters *)

Ltac each_char c := destruct c as [[] [] [] [] [] [] [] []]; try reflexivity; try discriminate.

Lemma lower_char_idem c : Py.lower_char (Py.lower_char c) = Py.lower_char c.
Proof. each_char c. Qed.

Lemma lower_char_not_underscore c :
  Re.not_underscore c = true -> Re.not_underscore (Py.lower_char c) = true.
Proof. each_char c. Qed.

Lemma replace_not_underscore c :
  Re.not_underscore (if Ascii.eqb c "_" then "-"%char else c) = true.
Proof. each_char c. Qed.

Lemma hex_class_lower c : Re.hex_class c = true -> Py.lower_char c = c.
Proof. each_char c. Qed.

Lemma hex_class_not_underscore c :
  Re.hex_class c = true -> Re.not_underscore c = true.
Proof. each_char c. Qed.

Lemma lower_idem s : Py.lower (Py.lower s) = Py.lower s.
Proof.
  unfold Py.lower. induction s as [|c s IH]; simpl; [done|].
  by rewrite lower_char_idem, IH.
Qed.

(** ** The matcher on the patterns of the module *)

Lemma span_app p (a : string) c rest :
  Py.sall p a = true -> p c = false ->
  span p (a +:+ String c rest) = (a, String c rest).
Proof.
  intros Ha Hc. induction a as [|x a IH]; str.
  - by rewrite Hc.
  - simpl in Ha. apply andb_true_iff in Ha as [Hx Ha].
    by rewrite Hx, (IH Ha).
Qed.

Lemma span_all p (a : string) :
  Py.sall p a = true -> span p a = (a, EmptyString).
Proof.
  induction a as [|x a IH]; simpl; [done|].
  intros [Hx Ha]%andb_true_iff. by rewrite Hx, (IH Ha).
Qed.

(** When what follows a repetition cannot start with a character of the
    class, giving characters back never helps: the repetition takes the
    longest run. *)
Lemma greedy_det {R} (k : string -> string -> option R) p lo hi taken n s :
  (forall t c s', p c = true -> k t (String c s') = None) ->
  within n hi = true ->
  Re.greedy k p lo hi taken n s
  = let '(a, rest) := span p s in
    if (lo <=? n + String.length a) && within (n + String.length a) hi
    then k (taken +:+ a) rest else None.
Proof.
  intros Hk. revert taken n.
  induction s as [|c s IH]; intros taken n Hn; simpl.
  - rewrite Nat.add_0_r, Hn, andb_true_r, append_nil_r. done.
  - destruct (p c) eqn:Hc; simpl.
    + rewrite (Hk _ _ _ Hc).
      destruct (Re.below n hi) eqn:Hb.
      * rewrite IH.
        2:{ destruct hi as [h|]; unfold within, Re.below in *; [|done].
            apply Nat.leb_le. apply Nat.ltb_lt in Hb. lia. }
        destruct (span p s) as [a rest]. simpl String.length.
        rewrite append_assoc. str.
        rewrite Nat.add_succ_r.
        destruct (_ && _); [|by destruct (lo <=? n)].
        destruct (k (taken +:+ String c a) rest); [done|].
        by destruct (lo <=? n).
      * destruct (span p s) as [a rest]. simpl String.length.
        destruct hi as [h|]; unfold within, Re.below in *; [|done].
        apply Nat.ltb_ge in Hb.
        replace (n + S (String.length a) <=? h) with false
          by (symmetry; apply Nat.leb_gt; lia).
        rewrite andb_false_r. by destruct (lo <=? n).
    + rewrite Nat.add_0_r, Hn, andb_true_r, append_nil_r. done.
Qed.

(** The last repetition of a pattern: nothing follows, any count in range
    will do. *)
Lemma greedy_last {R} (r : R) p lo hi taken n (a rest : string) :
  Py.sall p a = true ->
  lo <= n + String.length a -> within (n + String.length a) hi = true ->
  Re.greedy (fun _ _ => Some r) p lo hi taken n (a +:+ rest) = Some r.
Proof.
  assert (Hconst : forall s taken n,
             Re.greedy (fun _ _ => Some r) p lo hi taken n s = Some r
             \/ Re.greedy (fun _ _ => Some r) p lo hi taken n s = None).
  { induction s as [|c s IH]; intros t m; simpl.
    - destruct (lo <=? m); auto.
    - destruct (p c && Re.below m hi).
      + destruct (IH (t +:+ String c "") (S m)) as [-> | ->]; auto.
        destruct (lo <=? m); auto.
      + destruct (lo <=? m); auto. }
  revert taken n. induction a as [|x a IH]; intros taken n Ha Hlo Hhi; str.
  - simpl in Hlo. rewrite Nat.add_0_r in Hlo.
    apply Nat.leb_le in Hlo.
    destruct rest as [|c s]; simpl; rewrite ?Hlo; [done|].
    destruct (p c && Re.below n hi); [|done].
    by destruct (Hconst s (taken +:+ String c "") (S n)) as [-> | ->].
  - simpl in Ha, Hlo, Hhi. apply andb_true_iff in Ha as [Hx Ha].
    assert (Hb : Re.below n hi = true).
    { destruct hi as [h|]; unfold within, Re.below in *; [|done].
      apply Nat.ltb_lt. apply Nat.leb_le in Hhi. lia. }
    rewrite Nat.add_succ_r in Hlo, Hhi.
    rewrite Hx, Hb. simpl. by rewrite IH.
Qed.

Lemma run_open r s cur caps :
  Re.run (Re.Open :: r) s cur caps = Re.run r s EmptyString caps.
Proof. reflexivity. Qed.

Lemma run_close r s cur caps :
  Re.run (Re.Close :: r) s cur caps = Re.run r s EmptyString (cur :: caps).
Proof. reflexivity. Qed.

Lemma run_lit l r s cur caps :
  Re.run (Re.Lit l :: r) s cur caps
  = match Re.strip l s with
    | Some s' => Re.run r s' (cur +:+ l) caps
    | None => None
    end.
Proof. reflexivity. Qed.

Lemma strip_app l rest : Re.strip l (l +:+ rest) = Some rest.
Proof.
  induction l as [|c l IH]; [done|].
  rewrite append_cons. simpl. by rewrite Ascii.eqb_refl.
Qed.

Lemma strip_Some l s r : Re.strip l s = Some r -> s = l +:+ r.
Proof.
  revert s. induction l as [|c l IH]; intros s; simpl.
  - by intros [= ->].
  - destruct s as [|c' s]; [done|].
    destruct (Ascii.eqb c c') eqn:E; [|done].
    apply Ascii.eqb_eq in E; subst c'. intros Hs%IH. by rewrite Hs.
Qed.

(** A repetition followed by the end of its group and a literal whose
    first character is outside the class. *)
Lemma run_rep_lit p lo hi l0 l r s cur caps :
  p l0 = false ->
  Re.run (Re.Rep p lo hi :: Re.Close :: Re.Lit (String l0 l) :: r) s cur caps
  = let '(a, rest) := span p s in
    if (lo <=? String.length a) && within (String.length a) hi
    then Re.run (Re.Close :: Re.Lit (String l0 l) :: r) rest (cur +:+ a) caps
    else None.
Proof.
  intros Hl0. change (Re.run (Re.Rep p lo hi :: ?r') s cur caps)
    with (Re.greedy (fun taken s' => Re.run r' s' (cur +:+ taken) caps)
            p lo hi EmptyString 0 s).
  rewrite greedy_det.
  - by destruct (span p s).
  - intros t c s' Hc. rewrite run_close, run_lit. simpl.
    destruct (Ascii.eqb l0 c) eqn:E; [|done].
    apply Ascii.eqb_eq in E. congruence.
  - by destruct hi.
Qed.

Lemma run_rep_last p lo hi (a : string) cur caps :
  Py.sall p a = true ->
  lo <= String.length a -> within (String.length a) hi = true ->
  Re.run [Re.Rep p lo hi] a cur caps = Some (rev caps).
Proof.
  intros Ha Hlo Hhi.
  change (Re.run [Re.Rep p lo hi] a cur caps)
    with (Re.greedy (fun _ _ => Some (rev caps)) p lo hi EmptyString 0 a).
  rewrite <- (append_nil_r a) at 1. by apply greedy_last.
Qed.

Section Shape.
Variables sha lang opt eng ext rest : string.
Hypothesis Hsha : Py.sall Re.hex_class sha = true.
Hypothesis Hsha40 : String.length sha = 40.
Hypothesis Hlang : Py.sall Re.not_underscore lang = true.
Hypothesis Hlang1 : lang <> EmptyString.
Hypothesis Hopt : Py.sall Re.not_underscore opt = true.
Hypothesis Hopt1 : opt <> EmptyString.
Hypothesis Hext : grammar_extension ext = true.

Let tail_text : string := eng +:+ String "." (ext +:+ rest).
Let text : string :=
  sha +:+ String "_" (lang +:+ String "_" (opt +:+ String "_" tail_text)).

Lemma nonempty_length (s : string) :
  s <> EmptyString -> (1 <=? String.length s) = true.
Proof. by destruct s. Qed.

(** Both patterns read the digest, the language and the options alike. *)
Lemma run_three_groups tail :
  Re.run
    ([Re.Open; Re.Rep Re.hex_class 40 (Some 40); Re.Close; Re.Lit "_";
      Re.Open; Re.Rep Re.not_underscore 1 None; Re.Close; Re.Lit "_";
      Re.Open; Re.Rep Re.not_underscore 1 None; Re.Close; Re.Lit "_"]
       ++ tail) text EmptyString []
  = Re.run tail tail_text "_" [opt; lang; sha].
Proof.
  unfold text. cbn [app].
  rewrite run_open, run_rep_lit by done.
  rewrite span_app by done. rewrite Hsha40.
  cbn [Nat.leb within andb].
  rewrite run_close, run_lit. cbn [Re.strip]. rewrite Ascii.eqb_refl.
  rewrite run_open, run_rep_lit by done.
  rewrite span_app by done. rewrite (nonempty_length _ Hlang1).
  cbn [within andb].
  rewrite run_close, run_lit. cbn [Re.strip]. rewrite Ascii.eqb_refl.
  rewrite run_open, run_rep_lit by done.
  rewrite span_app by done. rewrite (nonempty_length _ Hopt1).
  cbn [within andb].
  rewrite run_close, run_lit. cbn [Re.strip]. rewrite Ascii.eqb_refl.
  reflexivity.
Qed.

Lemma extension_facts :
  Py.sall Re.lower_digit ext = true /\ 3 <= String.length ext
  /\ within (String.length ext) (Some 4) = true.
Proof.
  unfold grammar_extension in Hext.
  apply andb_true_iff in Hext as [[H3 H4]%andb_true_iff Hld].
  apply Nat.leb_le in H3. done.
Qed.

(** The extension is read whatever follows it. *)
Lemma run_extension cur caps :
  Re.run [Re.Rep Re.lower_digit 3 (Some 4)] (ext +:+ rest) cur caps
  = Some (rev caps).
Proof.
  destruct extension_facts as (? & ? & ?).
  change (Re.run [Re.Rep Re.lower_digit 3 (Some 4)] (ext +:+ rest) cur caps)
    with (Re.greedy (fun _ _ => Some (rev caps)) Re.lower_digit 3 (Some 4)
            EmptyString 0 (ext +:+ rest)).
  by apply greedy_last.
Qed.

Lemma current_tail_current caps :
  current_engine eng = true ->
  Re.run current_tail tail_text "_" caps = Some (rev (eng :: caps)).
Proof.
  unfold current_engine, current_tail, tail_text.
  destruct (Re.strip "tts." eng) as [r|] eqn:Hstrip; [|done].
  intros [Hr1 Hr]%andb_true_iff.
  apply strip_Some in Hstrip. subst eng.
  rewrite run_open, run_lit, append_assoc, strip_app.
  rewrite run_rep_lit by done.
  rewrite span_app by done.
  rewrite nonempty_length by (by destruct r). cbn [within andb].
  rewrite run_close, run_lit. cbn [Re.strip]. rewrite Ascii.eqb_refl.
  by rewrite run_extension.
Qed.

Lemma legacy_tail_legacy caps :
  legacy_engine eng = true ->
  Re.run legacy_tail tail_text "_" caps = Some (rev (eng :: caps)).
Proof.
  unfold legacy_engine, legacy_tail, tail_text.
  intros [He1 He]%andb_true_iff.
  rewrite run_open, run_rep_lit by done.
  rewrite span_app by done.
  rewrite nonempty_length by (by destruct eng). cbn [within andb].
  rewrite run_close, run_lit. cbn [Re.strip]. rewrite Ascii.eqb_refl.
  by rewrite run_extension.
Qed.


End Shape.

Section ExactShape.
Variables sha lang opt eng ext : string.
Hypothesis Hsha : Py.sall Re.hex_class sha = true.
Hypothesis Hsha40 : String.length sha = 40.
Hypothesis Hlang : Py.sall Re.not_underscore lang = true.
Hypothesis Hlang1 : lang <> EmptyString.
Hypothesis Hopt : Py.sall Re.not_underscore opt = true.
Hypothesis Hopt1 : opt <> EmptyString.
Hypothesis Hext : grammar_extension ext = true.

Let tail_text : string := eng +:+ String "." ext.
Let text : string :=
  sha +:+ String "_" (lang +:+ String "_" (opt +:+ String "_" tail_text)).

Lemma strip_tts_legacy s' :
  legacy_engine eng = true ->
  Re.strip "tts." tail_text = Some s' -> s' = ext.
Proof.
  unfold legacy_engine, tail_text.
  intros [He1 He]%andb_true_iff.
  destruct eng as [|c1 [|c2 [|c3 [|c4 e]]]]; [done|..];
    rewrite ?append_cons, ?append_nil_l; cbn [Re.strip].
  - destruct (Ascii.eqb "t" c1); [|done]. by simpl.
  - destruct (Ascii.eqb "t" c1); [|done].
    destruct (Ascii.eqb "t" c2); [|done]. by simpl.
  - destruct (Ascii.eqb "t" c1); [|done].
    destruct (Ascii.eqb "t" c2); [|done].
    destruct (Ascii.eqb "s" c3); [|done]. simpl. by intros [= ->].
  - destruct (Ascii.eqb "t" c1); [|done].
    destruct (Ascii.eqb "t" c2); [|done].
    destruct (Ascii.eqb "s" c3); [|done].
    destruct (Ascii.eqb "." c4) eqn:E; [|done].
    apply Ascii.eqb_eq in E; subst c4. simpl in He.
    by destruct (Re.lower_underscore c1), (Re.lower_underscore c2),
      (Re.lower_underscore c3).
Qed.

Lemma current_tail_legacy caps :
  legacy_engine eng = true -> Re.run current_tail tail_text "_" caps = None.
Proof.
  intros He. unfold current_tail. rewrite run_open, run_lit.
  destruct (Re.strip "tts." tail_text) as [s'|] eqn:Hstrip; [|done].
  apply strip_tts_legacy in Hstrip as ->; [|done].
  destruct (extension_facts ext Hext) as (Hld & _ & _).
  rewrite run_rep_lit by done.
  rewrite span_all.
  2:{ revert Hld. apply sall_impl. intros c Hc.
      unfold Re.lower_digit_underscore. unfold Re.lower_digit in Hc.
      by rewrite Hc. }
  destruct (_ && _); [|done].
  by rewrite run_close, run_lit.
Qed.

(** A name of the shape that the key derivation gives matches, and its
    groups are the four parts. *)
Lemma match_voice_file_shape :
  grammar_engine eng = true ->
  match_voice_file text = Some [sha; lang; opt; eng].
Proof.
  intros He. unfold match_voice_file, Re.match_.
  change _RE_VOICE_FILE with
    ([Re.Open; Re.Rep Re.hex_class 40 (Some 40); Re.Close; Re.Lit "_";
      Re.Open; Re.Rep Re.not_underscore 1 None; Re.Close; Re.Lit "_";
      Re.Open; Re.Rep Re.not_underscore 1 None; Re.Close; Re.Lit "_"]
       ++ current_tail).
  change _RE_LEGACY_VOICE_FILE with
    ([Re.Open; Re.Rep Re.hex_class 40 (Some 40); Re.Close; Re.Lit "_";
      Re.Open; Re.Rep Re.not_underscore 1 None; Re.Close; Re.Lit "_";
      Re.Open; Re.Rep Re.not_underscore 1 None; Re.Close; Re.Lit "_"]
       ++ legacy_tail).
  unfold text, tail_text. rewrite <- (append_nil_r ext).
  rewrite !(run_three_groups sha lang opt eng ext "") by done.
  rewrite (append_nil_r ext).
  destruct (current_engine eng) eqn:Hcur.
  - rewrite <- (append_nil_r ext).
    by rewrite (current_tail_current eng ext "").
  - unfold grammar_engine in He. rewrite Hcur, orb_false_r in He.
    fold tail_text. rewrite current_tail_legacy by done.
    unfold tail_text. rewrite <- (append_nil_r ext).
    by rewrite (legacy_tail_legacy eng ext "").
Qed.

End ExactShape.

(** ** What a match says about the name *)

Lemma span_spec p s a rest :
  span p s = (a, rest) ->
  s = a +:+ rest /\ Py.sall p a = true
  /\ (forall c r, rest = String c r -> p c = false).
Proof.
  revert a rest. induction s as [|c s IH]; intros a rest; simpl.
  - intros [= <- <-]. by split_and!.
  - destruct (p c) eqn:Hc.
    + destruct (span p s) as [a' r'] eqn:Hs. intros [= <- <-].
      destruct (IH _ _ eq_refl) as (-> & Ha & Hr).
      split_and!; [by rewrite append_cons|by simpl; rewrite Hc|done].
    + intros [= <- <-]. split_and!; [done..|].
      by intros c' r [= <- <-].
Qed.

(** A repetition takes a text of the class, of a length within its
    bounds. *)
Lemma greedy_sound {R} (k : string -> string -> option R) p lo hi taken n s g :
  Re.greedy k p lo hi taken n s = Some g ->
  within n hi = true ->
  exists a rest,
    s = a +:+ rest /\ Py.sall p a = true
    /\ lo <= n + String.length a
    /\ within (n + String.length a) hi = true
    /\ k (taken +:+ a) rest = Some g.
Proof.
  revert taken n. induction s as [|c s IH]; intros taken n; simpl.
  - destruct (lo <=? n) eqn:Hlo; [|done]. intros Hk Hn.
    exists EmptyString, EmptyString. apply Nat.leb_le in Hlo.
    rewrite !append_nil_r, Nat.add_0_r. by split_and!.
  - intros Hg Hn.
    assert (Hstop : (if lo <=? n then k taken (String c s) else None) = Some g
                    -> exists a rest,
                         String c s = a +:+ rest /\ Py.sall p a = true
                         /\ lo <= n + String.length a
                         /\ within (n + String.length a) hi = true
                         /\ k (taken +:+ a) rest = Some g).
    { destruct (lo <=? n) eqn:Hlo; [|done]. intros Hk.
      exists EmptyString, (String c s). apply Nat.leb_le in Hlo.
      rewrite !append_nil_r, Nat.add_0_r. by split_and!. }
    destruct (p c && Re.below n hi) eqn:Hc; [|by apply Hstop].
    apply andb_true_iff in Hc as [Hc Hb].
    destruct (Re.greedy k p lo hi (taken +:+ String c "") (S n) s)
      as [g'|] eqn:Hrec; [|by apply Hstop].
    injection Hg as ->.
    destruct (IH _ _ Hrec) as (a & rest & -> & Ha & Hlo & Hhi & Hk).
    { unfold within, Re.below in *. destruct hi as [h|]; [|done].
      apply Nat.ltb_lt in Hb. apply Nat.leb_le. lia. }
    exists (String c a), rest. rewrite append_cons. simpl. rewrite Hc.
    rewrite append_assoc in Hk. rewrite append_cons, append_nil_l in Hk.
    replace (n + S (String.length a)) with (S n + String.length a) by lia.
    by split_and!.
Qed.

Lemma nonempty_of_length (s : string) : 1 <= String.length s -> s <> EmptyString.
Proof. destruct s; simpl; [lia|done]. Qed.

Lemma leb_within (a : string) lo hi :
  (lo <=? String.length a) && within (String.length a) hi = true ->
  lo <= String.length a /\ within (String.length a) hi = true.
Proof. intros [H1 H2]%andb_true_iff. apply Nat.leb_le in H1. done. Qed.

(** The digest, the language and the options, as both patterns read
    them. *)
Lemma three_groups_sound tail name g :
  Re.run
    ([Re.Open; Re.Rep Re.hex_class 40 (Some 40); Re.Close; Re.Lit "_";
      Re.Open; Re.Rep Re.not_underscore 1 None; Re.Close; Re.Lit "_";
      Re.Open; Re.Rep Re.not_underscore 1 None; Re.Close; Re.Lit "_"]
       ++ tail) name EmptyString [] = Some g ->
  exists sha lang opt tail_text,
    name = sha +:+ String "_" (lang +:+ String "_" (opt +:+ String "_" tail_text))
    /\ Py.sall Re.hex_class sha = true /\ String.length sha = 40
    /\ Py.sall Re.not_underscore lang = true /\ lang <> EmptyString
    /\ Py.sall Re.not_underscore opt = true /\ opt <> EmptyString
    /\ Re.run tail tail_text "_" [opt; lang; sha] = Some g.
Proof.
  cbn [app]. rewrite run_open, run_rep_lit by done.
  destruct (span Re.hex_class name) as [sha r1] eqn:H1.
  destruct (_ && _) eqn:Hc1; [|done].
  apply leb_within in Hc1 as [Hlo1 Hhi1].
  rewrite run_close, run_lit.
  destruct (Re.strip "_" r1) as [r1'|] eqn:Hs1; [|done].
  rewrite run_open, run_rep_lit by done.
  destruct (span Re.not_underscore r1') as [lang r2] eqn:H2.
  destruct (_ && _) eqn:Hc2; [|done].
  apply leb_within in Hc2 as [Hlo2 _].
  rewrite run_close, run_lit.
  destruct (Re.strip "_" r2) as [r2'|] eqn:Hs2; [|done].
  rewrite run_open, run_rep_lit by done.
  destruct (span Re.not_underscore r2') as [opt r3] eqn:H3.
  destruct (_ && _) eqn:Hc3; [|done].
  apply leb_within in Hc3 as [Hlo3 _].
  rewrite run_close, run_lit.
  destruct (Re.strip "_" r3) as [r3'|] eqn:Hs3; [|done].
  intros Hrun.
  apply span_spec in H1 as (-> & Hsha & _).
  apply span_spec in H2 as (-> & Hlang & _).
  apply span_spec in H3 as (-> & Hopt & _).
  apply strip_Some in Hs1 as ->. apply strip_Some in Hs2 as ->.
  apply strip_Some in Hs3 as ->.
  exists sha, lang, opt, r3'. rewrite !append_cons, !append_nil_l.
  split_and!; try done.
  - unfold within in Hhi1. apply Nat.leb_le in Hhi1. lia.
  - by apply nonempty_of_length.
  - by apply nonempty_of_length.
Qed.

Lemma extension_sound s cur caps g :
  Re.run [Re.Rep Re.lower_digit 3 (Some 4)] s cur caps = Some g ->
  g = rev caps
  /\ exists ext rest, s = ext +:+ rest /\ grammar_extension ext = true.
Proof.
  change (Re.run [Re.Rep Re.lower_digit 3 (Some 4)] s cur caps)
    with (Re.greedy (fun _ _ => Some (rev caps)) Re.lower_digit 3 (Some 4)
            EmptyString 0 s).
  intros (ext & rest & -> & Hext & Hlo & Hhi & [= <-])%greedy_sound; [|done].
  split; [done|]. exists ext, rest. split; [done|].
  unfold grammar_extension. simpl in Hlo, Hhi. rewrite Hext, Hhi.
  apply Nat.leb_le in Hlo. by rewrite Hlo.
Qed.

Lemma truthy_of_length (s : string) : 1 <= String.length s -> Py.truthy s = true.
Proof. destruct s; simpl; [lia|done]. Qed.

Lemma current_tail_sound tail_text caps g :
  Re.run current_tail tail_text "_" caps = Some g ->
  exists eng ext rest,
    tail_text = eng +:+ String "." (ext +:+ rest)
    /\ current_engine eng = true /\ grammar_extension ext = true
    /\ g = rev (eng :: caps).
Proof.
  unfold current_tail. rewrite run_open, run_lit.
  destruct (Re.strip "tts." tail_text) as [s1|] eqn:Hs1; [|done].
  rewrite run_rep_lit by done.
  destruct (span Re.lower_digit_underscore s1) as [a r] eqn:Ha.
  destruct (_ && _) eqn:Hc; [|done].
  apply leb_within in Hc as [Hlo _].
  rewrite run_close, run_lit.
  destruct (Re.strip "." r) as [r'|] eqn:Hs2; [|done].
  intros [-> (ext & rest & -> & Hext)]%extension_sound.
  apply span_spec in Ha as (-> & Hldu & _).
  apply strip_Some in Hs1 as ->. apply strip_Some in Hs2 as ->.
  exists ("tts." +:+ a), ext, rest. split_and!.
  - by rewrite ?append_assoc, ?append_cons, ?append_nil_l.
  - unfold current_engine. rewrite strip_app, Hldu.
    by rewrite truthy_of_length.
  - done.
  - by rewrite ?append_nil_l.
Qed.

Lemma legacy_tail_sound tail_text caps g :
  Re.run legacy_tail tail_text "_" caps = Some g ->
  exists eng ext rest,
    tail_text = eng +:+ String "." (ext +:+ rest)
    /\ legacy_engine eng = true /\ grammar_extension ext = true
    /\ g = rev (eng :: caps).
Proof.
  unfold legacy_tail. rewrite run_open, run_rep_lit by done.
  destruct (span Re.lower_underscore tail_text) as [a r] eqn:Ha.
  destruct (_ && _) eqn:Hc; [|done].
  apply leb_within in Hc as [Hlo _].
  rewrite run_close, run_lit.
  destruct (Re.strip "." r) as [r'|] eqn:Hs2; [|done].
  intros [-> (ext & rest & -> & Hext)]%extension_sound.
  apply span_spec in Ha as (-> & Hlu & _).
  apply strip_Some in Hs2 as ->.
  exists a, ext, rest. split_and!.
  - by rewrite ?append_cons, ?append_nil_l.
  - unfold legacy_engine. by rewrite Hlu, truthy_of_length.
  - done.
  - by rewrite ?append_nil_l.
Qed.



(** The parts of a name that matches. *)
Lemma match_voice_file_parts name record :
  match_voice_file name = Some record ->
  exists sha lang opt eng ext rest,
    name = sha +:+ String "_"
             (lang +:+ String "_"
                (opt +:+ String "_" (eng +:+ String "." (ext +:+ rest))))
    /\ Py.sall Re.hex_class sha = true /\ String.length sha = 40
    /\ Py.sall Re.not_underscore lang = true /\ lang <> EmptyString
    /\ Py.sall Re.not_underscore opt = true /\ opt <> EmptyString
    /\ grammar_engine eng = true /\ grammar_extension ext = true
    /\ record = [sha; lang; opt; eng].
Proof.
  unfold match_voice_file, Re.match_.
  change _RE_VOICE_FILE with
    ([Re.Open; Re.Rep Re.hex_class 40 (Some 40); Re.Close; Re.Lit "_";
      Re.Open; Re.Rep Re.not_underscore 1 None; Re.Close; Re.Lit "_";
      Re.Open; Re.Rep Re.not_underscore 1 None; Re.Close; Re.Lit "_"]
       ++ current_tail).
  change _RE_LEGACY_VOICE_FILE with
    ([Re.Open; Re.Rep Re.hex_class 40 (Some 40); Re.Close; Re.Lit "_";
      Re.Open; Re.Rep Re.not_underscore 1 None; Re.Close; Re.Lit "_";
      Re.Open; Re.Rep Re.not_underscore 1 None; Re.Close; Re.Lit "_"]
       ++ legacy_tail).
  intros Hm.
  destruct (Re.run (_ ++ current_tail) name "" []) as [g|] eqn:Hcur.
  - injection Hm as ->.
    apply three_groups_sound in Hcur
      as (sha & lang & opt & tt & Hn & H1 & H2 & H3 & H4 & H5 & H6 & Ht).
    apply current_tail_sound in Ht as (eng & ext & rest & -> & He & Hx & Hg).
    exists sha, lang, opt, eng, ext, rest. split_and!; try done.
    unfold grammar_engine. rewrite He. apply orb_true_r.
  - apply three_groups_sound in Hm
      as (sha & lang & opt & tt & Hn & H1 & H2 & H3 & H4 & H5 & H6 & Ht).
    apply legacy_tail_sound in Ht as (eng & ext & rest & -> & He & Hx & Hg).
    exists sha, lang, opt, eng, ext, rest. split_and!; try done.
    unfold grammar_engine. by rewrite He.
Qed.



(** ** The digests *)

Lemma hex_digit_class x : Re.hex_class (Sha1.hex_digit x) = true.
Proof.
  unfold Sha1.hex_digit.
  assert (Hd : (x mod 16 < 16)%N) by (apply N.mod_upper_bound; lia).
  revert Hd. generalize (x mod 16)%N. intros d Hd.
  destruct d as [|p]; [reflexivity|].
  do 5 (try destruct p as [p|p|]; try reflexivity; try lia).
Qed.

Lemma hex_facts n x :
  Py.sall Re.hex_class (Sha1.hex n x) = true
  /\ String.length (Sha1.hex n x) = n.
Proof.
  revert x. induction n as [|n IH]; intros x; simpl; [done|].
  destruct (IH (x / 16)%N) as [Hall Hlen].
  rewrite sall_app, append_length, Hall, Hlen. simpl.
  rewrite hex_digit_class. split; [done|lia].
Qed.

Lemma sha1_hexdigest_facts msg :
  Py.sall Re.hex_class (Sha1.hexdigest msg) = true
  /\ String.length (Sha1.hexdigest msg) = 40.
Proof.
  unfold Sha1.hexdigest.
  rewrite !sall_app, !append_length.
  repeat match goal with
         | |- context [Sha1.hex 8 ?x] =>
             let Ha := fresh in let Hl := fresh in
             destruct (hex_facts 8 x) as [Ha Hl]; rewrite Ha, Hl;
             clear Ha Hl
         end.
  done.
Qed.

Lemma hex_bytes_class bs : Py.sall Re.hex_class (Blake2s.hex_bytes bs) = true.
Proof.
  induction bs as [|b bs IH]; [done|]. cbn [Blake2s.hex_bytes].
  rewrite sall_app, IH. by destruct (hex_facts 2 b) as [-> _].
Qed.

Lemma hex_bytes_nonempty bs : bs <> [] -> Blake2s.hex_bytes bs <> EmptyString.
Proof.
  destruct bs as [|b bs]; [done|]. intros _ Hnil.
  apply (f_equal String.length) in Hnil. cbn [Blake2s.hex_bytes] in Hnil.
  rewrite append_length in Hnil.
  destruct (hex_facts 2 b) as [_ Hlen]. rewrite Hlen in Hnil.
  simpl in Hnil. lia.
Qed.

Lemma compress_length h block t last :
  length (Blake2s.compress h block t last) = length h.
Proof. unfold Blake2s.compress. by rewrite length_imap. Qed.

Lemma absorb_length fuel h t bs :
  length (Blake2s.absorb fuel h t bs) = length h.
Proof.
  revert h t bs. induction fuel as [|fuel IH]; intros h t bs; simpl; [done|].
  destruct (length bs <=? 64).
  - apply compress_length.
  - by rewrite IH, compress_length.
Qed.

Lemma blake2s_digest_nonempty msg : Blake2s.digest 5 msg <> [].
Proof.
  unfold Blake2s.digest.
  set (h := Blake2s.absorb _ _ _ _).
  assert (Hlen : length h = 8).
  { unfold h. by rewrite absorb_length. }
  destruct h as [|x h]; [done|]. done.
Qed.

Lemma hash_options_facts options :
  Py.sall Re.hex_class (_hash_options options) = true
  /\ _hash_options options <> EmptyString.
Proof.
  unfold _hash_options, Blake2s.hexdigest. split.
  - apply hex_bytes_class.
  - apply hex_bytes_nonempty, blake2s_digest_nonempty.
Qed.

(** ** Round trip of keys through file names *)

Lemma lower_app (a b : string) : Py.lower (a +:+ b) = Py.lower a +:+ Py.lower b.
Proof. apply smap_app. Qed.

Lemma lower_cons_underscore s : Py.lower (String "_" s) = String "_" (Py.lower s).
Proof. reflexivity. Qed.

Lemma lower_cons_dot s : Py.lower (String "." s) = String "." (Py.lower s).
Proof. reflexivity. Qed.

Lemma smap_nonempty f s : s <> EmptyString -> Py.smap f s <> EmptyString.
Proof. by destruct s. Qed.

Lemma cache_key_shape message language options engine :
  language <> EmptyString ->
  exists sha lang opt,
    Py.sall Re.hex_class sha = true /\ String.length sha = 40
    /\ Py.sall Re.not_underscore lang = true /\ lang <> EmptyString
    /\ Py.sall Re.not_underscore opt = true /\ opt <> EmptyString
    /\ _generate_cache_key message language options engine
       = sha +:+ String "_" (lang +:+ String "_"
                               (opt +:+ String "_" (Py.lower engine))).
Proof.
  intros Hlanguage.
  destruct (sha1_hexdigest_facts (Py.encode message)) as [Hsha Hlen].
  set (options_key :=
         match options with
         | Some (kv :: d) => _hash_options (kv :: d)
         | _ => "-"
         end).
  assert (Hopt : Py.sall Re.not_underscore options_key = true
                 /\ options_key <> EmptyString).
  { unfold options_key. destruct options as [[|kv d]|]; try done.
    destruct (hash_options_facts (kv :: d)) as [Hhex Hne]. split; [|done].
    revert Hhex. apply sall_impl, hex_class_not_underscore. }
  destruct Hopt as [Hopt Hopt1].
  exists (Sha1.hexdigest (Py.encode message)),
    (Py.lower (Py.replace_char "_" "-" language)), (Py.lower options_key).
  repeat split; try done.
  - apply (sall_smap _ Re.not_underscore); [apply lower_char_not_underscore|].
    unfold Py.replace_char.
    apply (sall_smap _ (fun _ => true)); [intros c _; apply replace_not_underscore|].
    clear. induction language; simpl; auto.
  - by do 2 apply smap_nonempty.
  - by apply (sall_smap _ Re.not_underscore); [apply lower_char_not_underscore|].
  - by apply smap_nonempty.
  - unfold _generate_cache_key, KEY_PATTERN. fold options_key.
    rewrite !append_cons, !append_nil_l.
    repeat rewrite ?lower_app, ?lower_cons_underscore.
    f_equal. apply (smap_id_on Re.hex_class); [apply hex_class_lower|done].
Qed.

(** C9, as the code has it. For a non-empty language, an engine id whose
    lower-case form is made of letters and underscores, or is [tts.]
    followed by letters, digits and underscores, and an extension whose
    lower-case form is three or four letters or digits, the file name of a
    derived key parses back to that key, in [async_read_tts] and in the
    scan of the cache directory alike. *)
Theorem cache_key_roundtrip message language options engine extension :
  language <> EmptyString ->
  grammar_engine (Py.lower engine) = true ->
  grammar_extension (Py.lower extension) = true ->
  let cache_key := _generate_cache_key message language options engine in
  let filename := Py.lower (cache_key +:+ "." +:+ extension) in
  record_key <$> match_voice_file (Py.lower filename) = Some cache_key
  /\ _get_cache_files [filename] = {[ cache_key := filename ]}.
Proof.
  intros Hlanguage Hengine Hextension cache_key filename.
  destruct (cache_key_shape message language options engine Hlanguage)
    as (sha & lang & opt & Hsha & Hsha40 & Hlang & Hlang1 & Hopt & Hopt1 & Hkey).
  assert (Hlower_key : Py.lower cache_key = cache_key).
  { unfold cache_key, _generate_cache_key. apply lower_idem. }
  assert (Hname : filename
                  = sha +:+ String "_"
                      (lang +:+ String "_"
                         (opt +:+ String "_"
                            (Py.lower engine +:+ String "." (Py.lower extension))))).
  { unfold filename. rewrite lower_app, Hlower_key.
    rewrite append_cons, append_nil_l, lower_cons_dot.
    fold cache_key in Hkey. rewrite Hkey.
    by rewrite !append_assoc, ?append_cons, !append_assoc, ?append_cons,
      !append_assoc, ?append_cons. }
  assert (Hlower_name : Py.lower filename = filename).
  { unfold filename. apply lower_idem. }
  assert (Hmatch : match_voice_file filename
                   = Some [sha; lang; opt; Py.lower engine]).
  { rewrite Hname. by apply match_voice_file_shape. }
  assert (Hrecord : record_key [sha; lang; opt; Py.lower engine] = cache_key).
  { fold cache_key in Hkey. by rewrite Hkey. }
  split.
  - by rewrite Hlower_name, Hmatch; simpl; rewrite Hrecord.
  - unfold _get_cache_files. cbn [fold_left].
    by rewrite Hmatch, Hrecord, Hlower_key, Hlower_name, insert_empty.
Qed.

Lemma cache_key_roundtrip_witness :
  let cache_key := _generate_cache_key "Hello world" "en_US" None "Demo" in
  let filename := Py.lower (cache_key +:+ "." +:+ "MP3") in
  record_key <$> match_voice_file (Py.lower filename) = Some cache_key
  /\ _get_cache_files [filename] = {[ cache_key := filename ]}.
Proof. by apply cache_key_roundtrip. Defined.

(** C9, as the specification has it, fails: the key of the engine [demo2]
    gives a file name that matches neither pattern, and the key of the
    engine [a.bcd] gives a file name that parses to another key. *)
Lemma cache_key_roundtrip_fails :
  (let cache_key := _generate_cache_key "Hello world" "en" None "demo2" in
   match_voice_file (Py.lower (Py.lower (cache_key +:+ "." +:+ "mp3"))) = None)
  /\ (let cache_key := _generate_cache_key "Hello world" "en" None "a.bcd" in
      record_key <$>
        match_voice_file (Py.lower (Py.lower (cache_key +:+ "." +:+ "mp3")))
      = Some (_generate_cache_key "Hello world" "en" None "a")
      /\ _generate_cache_key "Hello world" "en" None "a" <> cache_key).
Proof. vm_compute. repeat split. discriminate. Qed.

(** ** Eviction timers *)

(** C4, as the code has it. A timer that fires removes whatever entry is
    stored under its key, and touches nothing else; so when a key is stored
    twice, the timer of the first store deletes the entry of the second,
    whose own timer is still to come. *)
Theorem timer_removes_by_key `{Mutagen} cfg w n cache_key :
  timers w !! n = Some cache_key ->
  (exists w',
      step cfg (Timer n) w = Some w'
      /\ mem_cache w' !! cache_key = None
      /\ (forall k, k <> cache_key -> mem_cache w' !! k = mem_cache w !! k)
      /\ timers w' = delete n (timers w)
      /\ file_cache w' = file_cache w /\ files w' = files w
      /\ coros w' = coros w)
  /\ (forall w0 filename1 data1 filename2 data2,
         w = _async_store_to_memcache cache_key filename2 data2
               (_async_store_to_memcache cache_key filename1 data1 w0) ->
         n = length (timers w0) ->
         exists w',
           step cfg (Timer n) w = Some w'
           /\ mem_cache w !! cache_key
              = Some {| filename := filename2; voice := data2;
                        pending := None |}
           /\ mem_cache w' !! cache_key = None
           /\ timers w' = timers w0 ++ [cache_key]).
Proof.
  intros Htimer. split.
  - eexists. simpl. rewrite Htimer. split; [reflexivity|]. simpl.
    split; [apply lookup_delete_eq|].
    split; [intros k Hk; by apply lookup_delete_ne|done].
  - intros w0 f1 d1 f2 d2 -> ->. eexists. simpl in *. rewrite Htimer.
    split; [reflexivity|]. simpl.
    split; [apply lookup_insert_eq|].
    split; [apply lookup_delete_eq|].
    clear. induction (timers w0) as [|t ts IH]; simpl; [done|]. by rewrite IH.
Qed.

Lemma timer_removes_by_key_witness :
  exists w',
    @step header_mutagen demo_config (Timer 0)
      (_async_store_to_memcache "k" "k.mp3" [Byte.x02]
         (_async_store_to_memcache "k" "k.mp3" [Byte.x01] (init_world ∅ ∅ ∅)))
    = Some w'
    /\ mem_cache w' !! "k" = None /\ timers w' = ["k"].
Proof.
  destruct (@timer_removes_by_key header_mutagen demo_config
              (_async_store_to_memcache "k" "k.mp3" [Byte.x02]
                 (_async_store_to_memcache "k" "k.mp3" [Byte.x01]
                    (init_world ∅ ∅ ∅))) 0 "k") as [_ Hstale];
    [reflexivity|].
  destruct (Hstale (init_world ∅ ∅ ∅) "k.mp3" [Byte.x01] "k.mp3" [Byte.x02])
    as (w' & Hstep & _ & Hgone & Htimers); [reflexivity..|].
  by exists w'.
Defined.

(** C4, as the specification has it, fails. Two callers ask for the same
    audio at the same time and no extension is declared, so both syntheses
    run and both results are stored; when the timer of the first store
    fires, the entry of the second store is removed although its own timer
    is still pending. *)
Lemma stale_timer_evicts_newer_entry :
  exists w w',
    @run header_mutagen demo_config two_requests (init_world ∅ ∅ ∅) = Some w
    /\ (voice <$> mem_cache w !! hello_key)
       = Some [Byte.x49; Byte.x44; Byte.x33; Byte.x02]
    /\ timers w = [hello_key; hello_key]
    /\ @step header_mutagen demo_config (Timer 0) w = Some w'
    /\ mem_cache w' !! hello_key = None
    /\ timers w' = [hello_key].
Proof.
  eexists _, _. split; [vm_compute; reflexivity|].
  repeat split; vm_compute; reflexivity.
Qed.
(** ** Clearing the cache *)

Lemma remove_file_frame w f :
  file_cache (remove_file w f) = file_cache w
  /\ mem_cache (remove_file w f) = mem_cache w
  /\ protected (remove_file w f) = protected w
  /\ coros (remove_file w f) = coros w
  /\ timers (remove_file w f) = timers w
  /\ callbacks (remove_file w f) = callbacks w
  /\ backend_calls (remove_file w f) = backend_calls w.
Proof. unfold remove_file. by destruct (_ || _). Qed.

Lemma remove_file_files w f g :
  files (remove_file w f) !! g
  = if bool_decide (g = f) && negb (bool_decide (f ∈ protected w))
    then None else files w !! g.
Proof.
  unfold remove_file.
  destruct (decide (g = f)) as [->|Hg].
  - rewrite (bool_decide_eq_true_2 (f = f)) by done.
    case_bool_decide as Hp; simpl; [done|].
    case_bool_decide as Hf; simpl; [done|apply lookup_delete_eq].
  - rewrite (bool_decide_eq_false_2 (g = f)) by done. simpl.
    destruct (_ || _); simpl; [done|]. by apply lookup_delete_ne.
Qed.

Lemma remove_file_log w f :
  f ∈ protected w \/ files w !! f = None ->
  log (remove_file w f) = log w ++ [LogCantRemove f].
Proof.
  intros Hf. unfold remove_file.
  destruct Hf; repeat case_bool_decide; simpl; done.
Qed.

Lemma fold_remove_file l w :
  let w' := fold_left remove_file l w in
  file_cache w' = file_cache w /\ mem_cache w' = mem_cache w
  /\ protected w' = protected w /\ coros w' = coros w
  /\ timers w' = timers w /\ callbacks w' = callbacks w
  /\ backend_calls w' = backend_calls w
  /\ (forall g,
         files w' !! g
         = if bool_decide (g ∈ l) && negb (bool_decide (g ∈ protected w))
           then None else files w !! g)
  /\ (forall g, g ∈ l -> g ∈ protected w -> LogCantRemove g ∈ log w')
  /\ (forall e, e ∈ log w -> e ∈ log w').
Proof.
  revert w. induction l as [|f l IH]; intros w; cbn [fold_left].
  - cbv zeta. split_and!; try done.
    intros g Hg. by apply elem_of_nil in Hg.
  - destruct (remove_file_frame w f) as (Hfc & Hmc & Hp & Hc & Ht & Hcb & Hb).
    pose proof (IH (remove_file w f)) as IH'. cbv zeta in IH'.
    destruct IH'
      as (Hfc' & Hmc' & Hp' & Hc' & Ht' & Hcb' & Hb' & Hfiles & Hlog & Hmono).
    cbv zeta.
    rewrite Hfc', Hmc', Hp', Hc', Ht', Hcb', Hb'.
    split_and!; try done.
    + intros g. rewrite Hfiles, Hp, remove_file_files.
      destruct (decide (g = f)) as [->|Hgf].
      * rewrite (bool_decide_eq_true_2 (f ∈ f :: l)) by apply list_elem_of_here.
        rewrite (bool_decide_eq_true_2 (f = f)) by done.
        by destruct (bool_decide (f ∈ l)), (bool_decide (f ∈ protected w)).
      * rewrite (bool_decide_eq_false_2 (g = f)) by done. simpl.
        assert (Hiff : bool_decide (g ∈ f :: l) = bool_decide (g ∈ l)).
        { apply bool_decide_ext. rewrite elem_of_cons.
          split; [by intros [?|?]|auto]. }
        by rewrite Hiff.
    + intros g [->|Hg]%elem_of_cons Hgp.
      * apply Hmono. rewrite remove_file_log by auto.
        apply elem_of_app. right. apply list_elem_of_here.
      * apply Hlog; [done|]. by rewrite Hp.
    + intros e He. apply Hmono. unfold remove_file.
      destruct (_ || _); simpl; [|done]. apply elem_of_app. by left.
Qed.

Lemma elem_of_indexed_files (fc : gmap string string) f :
  f ∈ map snd (map_to_list fc) <-> exists key, fc !! key = Some f.
Proof.
  rewrite list_elem_of_In, in_map_iff. split.
  - intros [[k f'] [Hf Hin]]. simpl in Hf. subst f'. exists k.
    apply elem_of_map_to_list. by apply list_elem_of_In.
  - intros [k Hk]. exists (k, f). split; [done|].
    apply list_elem_of_In. by apply elem_of_map_to_list.
Qed.

Lemma set_coro_lookup i c w :
  i < length (coros w) -> coros (set_coro i c w) !! i = Some c.
Proof. intros Hi. unfold set_coro; simpl. by apply list_lookup_insert_eq. Qed.

(** C7, as the code has it. [async_clear_cache] runs in three steps, none of
    which fails: it empties the memory cache; the executor then removes
    every file of the index, logging each removal that fails; it then
    empties the index.  Afterwards a read of any well-formed file name
    fails with "not in cache", every indexed file whose removal was not
    refused is gone from the disk, an indexed file whose removal was
    refused is still there, and files outside the index are untouched. *)
Theorem clear_cache_spec `{Mutagen} cfg w i :
  coros w !! i = Some (Call Call_clear_cache) ->
  exists w1 w2 w3,
    step cfg (Run i) w = Some w1
    /\ step cfg (Job i) w1 = Some w2
    /\ step cfg (Run i) w2 = Some w3
    /\ (mem_cache w1 = ∅ /\ file_cache w1 = file_cache w
        /\ files w1 = files w)
    /\ (mem_cache w2 = ∅ /\ file_cache w2 = file_cache w)
    /\ (mem_cache w3 = ∅ /\ file_cache w3 = ∅ /\ files w3 = files w2)
    /\ coros w3 !! i = Some (Done (Returned RNone))
    /\ (forall key f,
           file_cache w !! key = Some f -> f ∉ protected w ->
           files w3 !! f = None)
    /\ (forall key f,
           file_cache w !! key = Some f -> f ∈ protected w ->
           files w3 !! f = files w !! f /\ LogCantRemove f ∈ log w3)
    /\ (forall f,
           (forall key, file_cache w !! key <> Some f) ->
           files w3 !! f = files w !! f)
    /\ (forall filename record,
           match_voice_file (Py.lower filename) = Some record ->
           exists w4,
             run cfg [Request (Call_read_tts filename);
                      Run (length (coros w3))] w3 = Some w4
             /\ coros w4 !! length (coros w3)
                = Some (Done (Raised (NotInCache (record_key record))))).
Proof.
  intros Hi.
  assert (Hlt : i < length (coros w)) by (by eapply lookup_lt_Some).
  set (w1 := async_clear_cache i w).
  set (w2 := set_coro i (Clearing true) (remove_files w1)).
  set (w3 := async_clear_cache_resume i w2).
  pose proof (fold_remove_file (map snd (map_to_list (file_cache w1))) w1)
    as Hfold. cbv zeta in Hfold. fold (remove_files w1) in Hfold.
  destruct Hfold
    as (Hfc & Hmc & Hp & Hc & Ht & Hcb & Hb & Hfiles & Hlog & Hmono).
  assert (H1 : coros w1 !! i = Some (Clearing false)).
  { by apply set_coro_lookup. }
  assert (H2 : coros w2 !! i = Some (Clearing true)).
  { apply set_coro_lookup. rewrite Hc. unfold w1, async_clear_cache, set_coro.
    simpl. by rewrite length_insert. }
  exists w1, w2, w3. split_and!.
  - simpl. unfold run_coro. by rewrite Hi.
  - simpl. unfold run_job. by rewrite H1.
  - simpl. unfold run_coro. by rewrite H2.
  - done.
  - done.
  - done.
  - by simpl.
  - by simpl.
  - done.
  - done.
  - done.
  - apply set_coro_lookup. unfold w2, set_coro. simpl.
    rewrite length_insert, Hc. unfold w1, async_clear_cache, set_coro. simpl.
    by rewrite length_insert.
  - intros key f Hkey Hnp. simpl. rewrite Hfiles.
    rewrite bool_decide_eq_true_2
      by (apply elem_of_indexed_files; by exists key).
    by rewrite (bool_decide_eq_false_2 (f ∈ protected w1)).
  - intros key f Hkey Hpf. simpl. split.
    + rewrite Hfiles. rewrite (bool_decide_eq_true_2 (f ∈ protected w1)) by done.
      by rewrite andb_false_r.
    + apply Hlog; [|done]. apply elem_of_indexed_files. by exists key.
  - intros f Hf. simpl. rewrite Hfiles.
    rewrite bool_decide_eq_false_2; [done|].
    intros [key Hkey]%elem_of_indexed_files. by apply (Hf key).
  - intros filename record Hmatch. eexists. split.
    + cbn [run step create_task snd]. unfold run_coro.
      cbn [coros with_coros]. rewrite lookup_app_r, Nat.sub_diag by done.
      cbn [lookup list_lookup]. reflexivity.
    + unfold async_read_tts. rewrite Hmatch. cbn [mem_cache with_coros w3
        async_clear_cache_resume finish set_coro file_cache with_file_cache].
      rewrite !lookup_empty.
      cbn [mem_cache with_coros w3 with_mem_cache w2 w1 async_clear_cache
        async_clear_cache_resume finish set_coro file_cache with_file_cache].
      rewrite Hmc. cbn [w1 async_clear_cache set_coro with_coros mem_cache
        with_mem_cache]. rewrite lookup_empty.
      apply set_coro_lookup. cbn [coros with_coros].
      rewrite length_app. simpl. lia.
Qed.

Lemma clear_cache_spec_witness :
  exists w3,
    @run header_mutagen demo_config [Run 0; Job 0; Run 0] locked_world
    = Some w3
    /\ mem_cache w3 = ∅ /\ file_cache w3 = ∅
    /\ coros w3 !! 0 = Some (Done (Returned RNone)).
Proof.
  destruct (@clear_cache_spec header_mutagen demo_config locked_world 0)
    as (w1 & w2 & w3 & Hs1 & Hs2 & Hs3 & _ & _ & (Hmem & Hindex & _) & Hdone
        & _); [reflexivity|].
  exists w3. cbn [run]. rewrite Hs1, Hs2, Hs3. done.
Defined.

(** C7, as the specification has it, fails: a file whose removal the
    system refuses is logged and left on the disk, while its key leaves
    the index. *)
Lemma clear_cache_leaves_file :
  exists w3,
    @run header_mutagen demo_config [Run 0; Job 0; Run 0] locked_world
    = Some w3
    /\ file_cache locked_world !! hello_key = Some (hello_key +:+ ".mp3")
    /\ file_cache w3 !! hello_key = None
    /\ files w3 !! (hello_key +:+ ".mp3") = Some [Byte.x49; Byte.x44; Byte.x33]
    /\ log w3 = [LogCantRemove (hello_key +:+ ".mp3")].
Proof. eexists. split; [vm_compute; reflexivity|]. by vm_compute. Qed.

(** ** Worlds *)

Ltac world :=
  cbv beta iota zeta delta
    [with_file_cache with_mem_cache with_files with_coros with_timers
     with_callbacks with_backend_calls with_log set_coro finish create_task
     _async_store_to_memcache async_remove_from_mem] in *;
  cbn [file_cache mem_cache files protected coros timers callbacks
       backend_calls log fst snd] in *.

Lemma prepare_cache cfg r c p :
  prepare cfg (with_req_cache (Some c) r) = Returned p -> syn_cache p = c.
Proof.
  unfold prepare. simpl.
  destruct (engines cfg !! req_engine r); [|done].
  destruct (process_options _ _ _) as [[language options]|]; [|done].
  by intros [= <-].
Qed.

(** C6. A key that is no longer in memory but is in the disk index, its
    file being on the disk.  A request with [cache=True] reads the file,
    stores its bytes in memory and returns them, without calling the
    engine and without creating a task; the same request with
    [cache=False] creates a synthesis task, which calls the engine. *)
Theorem disk_promotion `{Mutagen} cfg w i r (c : bool) p fname data :
  coros w !! i = Some (Call (Call_get_tts_audio (with_req_cache (Some c) r))) ->
  prepare cfg (with_req_cache (Some c) r) = Returned p ->
  is_Some (name (syn_engine p)) ->
  mem_cache w !! syn_key p = None ->
  file_cache w !! syn_key p = Some fname -> fname <> EmptyString ->
  files w !! fname = Some data ->
  if c then
    exists w3,
      run cfg [Run i; Job i; Run i] w = Some w3
      /\ coros w3 !! i
         = Some (Done (Returned (RAudio (Py.splitext_ext fname) data)))
      /\ mem_cache w3 !! syn_key p
         = Some {| filename := fname; voice := data; pending := None |}
      /\ backend_calls w3 = backend_calls w
      /\ length (coros w3) = length (coros w)
  else
    exists w2,
      run cfg [Run i; Run (length (coros w))] w = Some w2
      /\ backend_calls w2 = backend_calls w ++ [p]
      /\ coros w2 !! length (coros w) = Some (Synthesizing p None).
Proof.
  intros Hi Hp [engine_name Hname] Hmem Hindex Hfn Hfile.
  pose proof (prepare_cache _ _ _ _ Hp) as Hc.
  assert (Hlt : i < length (coros w)) by (by eapply lookup_lt_Some).
  assert (Htruthy : Py.truthy fname = true) by (by destruct fname).
  destruct c.
  - eexists. split.
    + cbn [run step]. unfold run_coro at 1. rewrite Hi.
      unfold async_get_tts_audio. rewrite Hp, Hmem, Hc, Hindex.
      rewrite bool_decide_eq_true_2 by eauto. cbn [andb].
      unfold _async_file_to_mem. rewrite Hindex, Htruthy.
      unfold run_job. world. rewrite list_lookup_insert_eq by done.
      world. rewrite list_insert_insert_eq.
      unfold run_coro. world. rewrite list_lookup_insert_eq by done.
      rewrite Hfile. unfold _async_file_to_mem_resume. reflexivity.
    + unfold audio_tail, read_cached. world.
      rewrite !lookup_insert_eq. world. cbn [pending voice filename head_ret].
      world. rewrite lookup_insert_eq, !length_insert.
      by rewrite list_lookup_insert_eq by (by rewrite length_insert).
  - assert (Hnew : forall l (x : coro), (l ++ [x]) !! length l = Some x).
    { intros l x. by rewrite lookup_app_r, Nat.sub_diag. }
    cbn [run step]. unfold run_coro at 1. rewrite Hi.
    unfold async_get_tts_audio. rewrite Hp, Hmem, Hc. cbn [andb].
    unfold _async_get_tts_audio.
    destruct (expected_extension (syn_options p)) as [extension|].
    + world. unfold audio_tail, read_cached. world.
      rewrite !lookup_insert_eq. cbn [pending voice filename].
      unfold await_pending. world. rewrite Hnew.
      unfold run_coro. world.
      rewrite list_lookup_insert_ne, Hnew by lia.
      unfold get_tts_data. rewrite Hname.
      eexists. split; [reflexivity|]. world.
      split; [done|].
      rewrite list_lookup_insert_eq; [done|].
      rewrite length_insert, length_app. simpl. lia.
    + world. unfold run_coro. world.
      rewrite list_lookup_insert_ne, Hnew by lia.
      unfold get_tts_data. rewrite Hname.
      eexists. split; [reflexivity|]. world.
      split; [done|].
      rewrite list_lookup_insert_eq; [done|].
      rewrite length_insert, length_app. simpl. lia.
Qed.

Lemma prepare_hello c :
  @prepare demo_config (with_req_cache (Some c) hello_request)
  = Returned (hello_synthesis c).
Proof. destruct c; vm_compute; reflexivity. Qed.

Lemma disk_promotion_witness :
  (exists w3,
      @run header_mutagen demo_config [Run 0; Job 0; Run 0] (disk_world true)
      = Some w3
      /\ coros w3 !! 0
         = Some (Done (Returned (RAudio (Py.splitext_ext hello_file)
                                   [Byte.x49; Byte.x44; Byte.x33])))
      /\ mem_cache w3 !! hello_key
         = Some {| filename := hello_file;
                   voice := [Byte.x49; Byte.x44; Byte.x33];
                   pending := None |}
      /\ backend_calls w3 = [] /\ length (coros w3) = 1)
  /\ (exists w2,
         @run header_mutagen demo_config [Run 0; Run 1] (disk_world false)
         = Some w2
         /\ backend_calls w2 = [hello_synthesis false]
         /\ coros w2 !! 1 = Some (Synthesizing (hello_synthesis false) None)).
Proof.
  split.
  - apply (@disk_promotion header_mutagen demo_config (disk_world true) 0
             hello_request true (hello_synthesis true) hello_file
             [Byte.x49; Byte.x44; Byte.x33]);
      try reflexivity; [by eexists | discriminate].
  - apply (@disk_promotion header_mutagen demo_config (disk_world false) 0
             hello_request false (hello_synthesis false) hello_file
             [Byte.x49; Byte.x44; Byte.x33]);
      try reflexivity; [by eexists | discriminate].
Defined.

(** ** Tasks stay what they are *)

Lemma is_synth_app cs c t : is_synth cs t -> is_synth (cs ++ [c]) t.
Proof.
  intros (c0 & Hc0 & Hs). exists c0. split; [|done].
  by apply lookup_app_l_Some.
Qed.

Lemma is_synth_new cs c : synth_state c = true -> is_synth (cs ++ [c]) (length cs).
Proof.
  intros Hs. exists c. split; [|done].
  by rewrite lookup_app_r, Nat.sub_diag.
Qed.

Lemma is_synth_set cs i c c' t :
  cs !! i = Some c -> (synth_state c = true -> synth_state c' = true) ->
  is_synth cs t -> is_synth (<[i:=c']> cs) t.
Proof.
  intros Hi Hc (c0 & Hc0 & Hs). destruct (decide (t = i)) as [->|Hne].
  - exists c'. split.
    + apply list_lookup_insert_eq. by eapply lookup_lt_Some.
    + apply Hc. congruence.
  - exists c0. split; [|done]. by rewrite list_lookup_insert_ne.
Qed.

Section RefsOk.
Variables (mc : gmap string TTSCache) (cs : list coro)
  (cbs : list (nat * string)).
Hypothesis Hok : refs_ok_of mc cs cbs.

Lemma refs_mem_insert key e :
  (forall t, pending e = Some t -> is_synth cs t) ->
  refs_ok_of (<[key:=e]> mc) cs cbs.
Proof.
  destruct Hok as (Hm & Ha & Hc). intros He. split_and!; [|done..].
  intros k c t Hk Hp. destruct (decide (key = k)) as [->|Hne].
  - rewrite lookup_insert_eq in Hk. injection Hk as <-. by apply He.
  - rewrite lookup_insert_ne in Hk by done. by eapply Hm.
Qed.

Lemma refs_mem_delete key : refs_ok_of (delete key mc) cs cbs.
Proof.
  destruct Hok as (Hm & Ha & Hc). split_and!; [|done..].
  intros k c t Hk Hp. apply lookup_delete_Some in Hk as [_ Hk]. by eapply Hm.
Qed.

Lemma refs_mem_empty : refs_ok_of ∅ cs cbs.
Proof. destruct Hok as (Hm & Ha & Hc). split_and!; [|done..]. by intros k c t. Qed.

Lemma refs_cb_app t key :
  is_synth cs t -> refs_ok_of mc cs (cbs ++ [(t, key)]).
Proof.
  destruct Hok as (Hm & Ha & Hc). intros Ht. split_and!; [done..|].
  intros n t' k Hn. apply lookup_app_Some in Hn as [Hn|[_ Hn]].
  - by eapply Hc.
  - apply list_lookup_singleton_Some in Hn as [_ [= <- <-]]. done.
Qed.

Lemma refs_cb_delete n : refs_ok_of mc cs (delete n cbs).
Proof.
  destruct Hok as (Hm & Ha & Hc). split_and!; [done..|].
  intros m t k Hm'. destruct (decide (m < n)).
  - rewrite list_lookup_delete_lt in Hm' by done. by eapply Hc.
  - rewrite list_lookup_delete_ge in Hm' by lia. by eapply Hc.
Qed.

Lemma refs_coro_app c : awaits c = None -> refs_ok_of mc (cs ++ [c]) cbs.
Proof.
  destruct Hok as (Hm & Ha & Hc). intros Hc0. split_and!.
  - intros k e t Hk Hp. apply is_synth_app. by eapply Hm.
  - intros i c1 t Hi Hw. apply is_synth_app.
    apply lookup_app_Some in Hi as [Hi|[_ Hi]]; [by eapply Ha|].
    apply list_lookup_singleton_Some in Hi as [_ <-]. congruence.
  - intros n t k Hn. apply is_synth_app. by eapply Hc.
Qed.

Lemma refs_coro_set i c c' :
  cs !! i = Some c -> (synth_state c = true -> synth_state c' = true) ->
  (forall t, awaits c' = Some t -> is_synth cs t) ->
  refs_ok_of mc (<[i:=c']> cs) cbs.
Proof.
  destruct Hok as (Hm & Ha & Hc). intros Hi Hs Hw. split_and!.
  - intros k e t Hk Hp. eapply is_synth_set; [done..|]. by eapply Hm.
  - intros j c1 t Hj Hw1. eapply is_synth_set; [done..|].
    destruct (decide (j = i)) as [->|Hne].
    + rewrite list_lookup_insert_eq in Hj by (by eapply lookup_lt_Some).
      injection Hj as <-. by apply Hw.
    + rewrite list_lookup_insert_ne in Hj by done. by eapply Ha.
  - intros n t k Hn. eapply is_synth_set; [done..|]. by eapply Hc.
Qed.
End RefsOk.

Lemma write_tags_raised `{Mutagen} filename data engine_name message language
    options logged e :
  write_tags filename data engine_name message language options
  = (logged, Raised e) -> synth_error e = true.
Proof.
  rewrite write_tags_unfold.
  destruct (tag_buffer _ _ _ _ _) as [buf [[m| |m]|]]; by intros [= <- <-].
Qed.

Ltac synth_solver :=
  first
    [ eassumption
    | apply is_synth_new; reflexivity
    | apply is_synth_app; synth_solver
    | match goal with
      | Hok : refs_ok_of ?mc ?cs _, Hm : ?mc !! ?k = Some ?c,
        Hp : pending ?c = Some ?t |- is_synth ?cs ?t =>
          exact (proj1 Hok k c t Hm Hp)
      | Hok : refs_ok_of _ ?cs _, Hi : ?cs !! ?i = Some ?c
        |- is_synth ?cs ?t =>
          exact (proj1 (proj2 Hok) i c t Hi eq_refl)
      | Hok : refs_ok_of _ ?cs ?cbs, Hn : ?cbs !! ?n = Some (?t, ?k)
        |- is_synth ?cs ?t =>
          exact (proj2 (proj2 Hok) n t k Hn)
      end ].

Ltac refs :=
  lazymatch goal with
  | |- refs_ok_of _ (<[_:=_]> _) _ =>
      eapply refs_coro_set;
      [ refs
      | first [eassumption | apply lookup_app_l_Some; eassumption]
      | simpl; first [done | intros _; eauto using write_tags_raised]
      | simpl; intros ?; first [discriminate | intros [= <-]; synth_solver] ]
  | |- refs_ok_of (<[_:=_]> _) _ _ =>
      apply refs_mem_insert;
      [ refs
      | simpl; intros ?; first [discriminate | intros [= <-]; synth_solver] ]
  | |- refs_ok_of (delete _ _) _ _ => apply refs_mem_delete; refs
  | |- refs_ok_of ∅ _ _ => eapply refs_mem_empty; eassumption
  | |- refs_ok_of _ _ (_ ++ [_]) => apply refs_cb_app; [refs | synth_solver]
  | |- refs_ok_of _ _ (delete _ _) => apply refs_cb_delete; refs
  | |- refs_ok_of _ (_ ++ [_]) _ => apply refs_coro_app; [refs | reflexivity]
  | |- _ => assumption
  end.

Ltac unfold_steps :=
  unfold async_get_tts_audio, async_get_url_path, async_read_tts,
    async_clear_cache, async_clear_cache_resume, _async_file_to_mem_resume,
    get_tts_data, get_tts_data_resume, _async_save_tts_audio_resume,
    audio_task_resume, _async_file_to_mem, _async_get_tts_audio,
    audio_tail, read_cached, await_pending, after_pending, handle_error,
    save_speech in *.

Lemma remove_files_refs_ok w : refs_ok w -> refs_ok (remove_files w).
Proof.
  unfold refs_ok.
  pose proof (fold_remove_file (map snd (map_to_list (file_cache w))) w) as Hf.
  cbv zeta in Hf. fold (remove_files w) in Hf.
  destruct Hf as (_ & -> & _ & -> & _ & -> & _). done.
Qed.

Lemma lookup_app_new {A} (l : list A) x : (l ++ [x]) !! length l = Some x.
Proof. by rewrite lookup_app_r, Nat.sub_diag. Qed.

(** Case analysis on a scrutinee that is not itself a case analysis. *)
Ltac inner_case :=
  match goal with
  | |- context [match ?x with _ => _ end] =>
      lazymatch x with
      | context [match _ with _ => _ end] => fail
      | _ => destruct x eqn:?
      end
  end.

Ltac go :=
  repeat first
    [ progress world
    | rewrite lookup_insert_eq
    | rewrite lookup_app_new
    | rewrite lookup_empty
    | progress cbn [pending voice filename awaits head_ret andb]
    | inner_case ].

Lemma step_refs_ok `{Mutagen} cfg ev w w' :
  refs_ok w -> step cfg ev w = Some w' -> refs_ok w'.
Proof.
  unfold refs_ok. intros Hok Hstep.
  destruct ev as [e|i|i|i r|n|n]; cbn [step] in Hstep.
  - injection Hstep as <-. world. refs.
  - unfold run_coro in Hstep.
    repeat case_match; try done.
    all: injection Hstep as <-.
    all: unfold_steps.
    all: go.
    all: try refs.
  - unfold run_job, save_speech in Hstep.
    destruct (coros w !! i) as [[| | | |k key f [r|]| | | |key f data [r|]|[]|]|]
      eqn:Hi; try done.
    + injection Hstep as <-. go. refs.
    + destruct (bool_decide _); injection Hstep as <-; go; refs.
    + injection Hstep as <-.
      apply remove_files_refs_ok in Hok. unfold refs_ok in Hok.
      pose proof (fold_remove_file (map snd (map_to_list (file_cache w))) w)
        as Hf.
      cbv zeta in Hf. fold (remove_files w) in Hf.
      destruct Hf as (_ & _ & _ & Hcoros & _).
      rewrite <- Hcoros in Hi. go. refs.
  - repeat case_match; try done.
    all: injection Hstep as <-.
    all: go.
    all: try refs.
  - repeat case_match; try done.
    all: injection Hstep as <-.
    all: unfold_steps.
    all: go.
    all: try refs.
  - repeat case_match; try done.
    all: injection Hstep as <-.
    all: go.
    all: try refs.
Qed.

Lemma run_refs_ok `{Mutagen} cfg evs w w' :
  refs_ok w -> run cfg evs w = Some w' -> refs_ok w'.
Proof.
  revert w. induction evs as [|ev evs IH]; intros w Hok; simpl.
  - by intros [= <-].
  - destruct (step cfg ev w) as [w1|] eqn:Hstep; [|done].
    apply IH. by eapply step_refs_ok.
Qed.

Lemma reachable_refs_ok `{Mutagen} cfg w : reachable cfg w -> refs_ok w.
Proof.
  intros (evs & fc & fs & pr & Hrun). eapply run_refs_ok; [|done].
  unfold refs_ok, init_world; simpl. split_and!; by intros.
Qed.

Lemma synth_error_not_format e :
  synth_error e = true -> e <> WrongFileFormat.
Proof. by destruct e. Qed.







(** ** Reading by file name *)




(** Matching is anchored at the start of the name only: what follows a
    match is not looked at. *)
Example match_is_prefix :
  match_voice_file
    "7b502c3a1f48c8609ae212cdfb639dee39673f5e_en_-_demo.mp3/../secret"
  = Some ["7b502c3a1f48c8609ae212cdfb639dee39673f5e"; "en"; "-"; "demo"].
Proof. vm_compute. reflexivity. Qed.

(** ** Failure of the synthesis *)

(** A request whose key is not in memory and that cannot be served from the
    disk creates a synthesis task, and the first step of the task calls the
    engine. *)
Lemma cache_miss_calls_engine `{Mutagen} cfg w i r p :
  coros w !! i = Some (Call (Call_get_tts_audio r)) ->
  prepare cfg r = Returned p ->
  is_Some (name (syn_engine p)) ->
  mem_cache w !! syn_key p = None ->
  syn_cache p = false \/ file_cache w !! syn_key p = None ->
  exists w2,
    run cfg [Run i; Run (length (coros w))] w = Some w2
    /\ backend_calls w2 = backend_calls w ++ [p]
    /\ coros w2 !! length (coros w) = Some (Synthesizing p None).
Proof.
  intros Hi Hp [engine_name Hname] Hmem Hdisk.
  assert (Hlt : i < length (coros w)) by (by eapply lookup_lt_Some).
  assert (Hdisk' : syn_cache p
                   && bool_decide (is_Some (file_cache w !! syn_key p))
                   = false).
  { destruct Hdisk as [Hoff|Hnone]; [by rewrite Hoff|].
    rewrite Hnone.
    rewrite (bool_decide_eq_false_2 (is_Some None)) by (by intros [? ?]).
    apply andb_false_r. }
  cbn [run step]. unfold run_coro at 1. rewrite Hi.
  unfold async_get_tts_audio. rewrite Hp, Hmem, Hdisk'.
  unfold _async_get_tts_audio.
  destruct (expected_extension (syn_options p)) as [extension|].
  - world. unfold audio_tail, read_cached. world.
    rewrite !lookup_insert_eq. cbn [pending voice filename].
    unfold await_pending. world. rewrite lookup_app_new.
    unfold run_coro. world.
    rewrite list_lookup_insert_ne, lookup_app_new by lia.
    unfold get_tts_data. rewrite Hname.
    eexists. split; [reflexivity|]. world.
    split; [done|].
    rewrite list_lookup_insert_eq; [done|].
    rewrite length_insert, length_app. simpl. lia.
  - world. unfold run_coro. world.
    rewrite list_lookup_insert_ne, lookup_app_new by lia.
    unfold get_tts_data. rewrite Hname.
    eexists. split; [reflexivity|]. world.
    split; [done|].
    rewrite list_lookup_insert_eq; [done|].
    rewrite length_insert, length_app. simpl. lia.
Qed.

Lemma handle_error_failed e key w :
  e <> Foreign FCancelledError ->
  handle_error (Raised e) key w
  = with_mem_cache (delete key (mem_cache w)) w.
Proof. intros He. by destruct e as [| | | | | | | | | | |[]]. Qed.

Lemma handle_error_cases e key w :
  (e = Foreign FCancelledError /\ handle_error (Raised e) key w = w)
  \/ (e <> Foreign FCancelledError
      /\ handle_error (Raised e) key w
         = with_mem_cache (delete key (mem_cache w)) w).
Proof. destruct e as [| | | | | | | | | | |[]]; auto. Qed.

Lemma synthesis_failure_not_cancelled p r err :
  synthesis_failure p r = Some err -> err <> Foreign FCancelledError.
Proof.
  unfold synthesis_failure.
  destruct r as [[]|[extension|] [data|]]; try (by intros [= <-]).
  cbv zeta. destruct (match_voice_file _); [done|]. by intros [= <-].
Qed.

(** C3, as the code has it. The engine has answered a synthesis task with
    a failure.  The task ends with the corresponding exception; it stores
    nothing in memory, writes nothing to the index or the disk and creates
    no task.  Every coroutine that awaits the task, be it through the
    pending handle of the placeholder or directly, ends with the same
    exception when it is resumed.  If the task was given a placeholder,
    its done-callback removes the entry of the key; after that, a new
    request for the key that cannot be served from the disk creates a
    task that calls the engine again. *)
Theorem synthesis_failure_rolls_back `{Mutagen} cfg w t p r err :
  coros w !! t = Some (Synthesizing p (Some r)) ->
  synthesis_failure p r = Some err ->
  exists w1,
    step cfg (Run t) w = Some w1
    /\ coros w1 !! t = Some (Done (Raised err))
    /\ mem_cache w1 = mem_cache w /\ file_cache w1 = file_cache w
    /\ files w1 = files w /\ length (coros w1) = length (coros w)
    /\ callbacks w1 = callbacks w /\ backend_calls w1 = backend_calls w
    /\ (forall w' i c,
           coros w' !! t = Some (Done (Raised err)) ->
           coros w' !! i = Some c -> awaits c = Some t ->
           exists w'',
             step cfg (Run i) w' = Some w''
             /\ coros w'' !! i = Some (Done (Raised err)))
    /\ (forall n,
           callbacks w !! n = Some (t, syn_key p) ->
           exists w2,
             step cfg (Callback n) w1 = Some w2
             /\ mem_cache w2 !! syn_key p = None
             /\ file_cache w2 = file_cache w /\ files w2 = files w
             /\ coros w2 = coros w1
             /\ (forall r' p',
                    prepare cfg r' = Returned p' ->
                    syn_key p' = syn_key p ->
                    is_Some (name (syn_engine p')) ->
                    syn_cache p' = false
                    \/ file_cache w !! syn_key p = None ->
                    exists w4,
                      run cfg [Request (Call_get_tts_audio r');
                               Run (length (coros w2));
                               Run (S (length (coros w2)))] w2 = Some w4
                      /\ backend_calls w4 = backend_calls w ++ [p'])).
Proof.
  intros Ht Hfail.
  assert (Hlt : t < length (coros w)) by (by eapply lookup_lt_Some).
  pose proof (synthesis_failure_not_cancelled _ _ _ Hfail) as Herr.
  exists (finish t (Raised err) w).
  assert (Hresume : get_tts_data_resume t p r w = finish t (Raised err) w).
  { unfold synthesis_failure in Hfail. unfold get_tts_data_resume.
    destruct r as [[]|[extension|] [data|]]; try discriminate Hfail;
      try by injection Hfail as <-.
    cbv zeta in Hfail.
    destruct (match_voice_file _); [done|]. by injection Hfail as <-. }
  split_and!.
  - cbn [step]. unfold run_coro. by rewrite Ht, Hresume.
  - world. by apply list_lookup_insert_eq.
  - done.
  - done.
  - done.
  - world. by rewrite length_insert.
  - done.
  - done.
  - intros w' i c Htask Hi Hawait. cbn [step]. unfold run_coro.
    rewrite Hi. destruct c; try done; simpl in Hawait;
      injection Hawait as ->; rewrite Htask.
    + eexists. split; [reflexivity|]. unfold audio_task_resume. world.
      apply list_lookup_insert_eq. by eapply lookup_lt_Some.
    + eexists. split; [reflexivity|]. world.
      apply list_lookup_insert_eq. by eapply lookup_lt_Some.
  - intros n Hn. eexists. split_and!.
    + cbn [step]. world. rewrite Hn.
      rewrite list_lookup_insert_eq by done. reflexivity.
    + rewrite handle_error_failed by done. world. apply lookup_delete_eq.
    + by rewrite handle_error_failed.
    + by rewrite handle_error_failed.
    + by rewrite handle_error_failed.
    + intros r' p' Hprep Hkey [engine_name Hname] Hdisk.
      rewrite !handle_error_failed by done.
      set (w1 := with_callbacks (delete n (callbacks (finish t (Raised err) w)))
                   (finish t (Raised err) w)).
      set (w2 := with_mem_cache (delete (syn_key p) (mem_cache w1)) w1).
      destruct (cache_miss_calls_engine cfg
                  (snd (create_task (Call (Call_get_tts_audio r')) w2))
                  (length (coros w2)) r' p')
        as (w4 & Hrun & Hcalls & _).
      * world. apply lookup_app_new.
      * done.
      * by exists engine_name.
      * rewrite Hkey. unfold w2. world. apply lookup_delete_eq.
      * by rewrite Hkey.
      * exists w4. split; [|exact Hcalls].
        assert (Hlen : length (coros (snd (create_task
                                             (Call (Call_get_tts_audio r')) w2)))
                       = S (length (coros w2))).
        { cbn [create_task snd coros with_coros]. rewrite length_app.
          simpl. lia. }
        rewrite Hlen in Hrun. exact Hrun.
Qed.

Lemma synthesis_failure_rolls_back_witness :
  exists w w1 w2 w3,
    @run header_mutagen demo_config failing_audio (init_world ∅ ∅ ∅) = Some w
    /\ @step header_mutagen demo_config (Run 1) w = Some w1
    /\ coros w1 !! 1 = Some (Done (Raised (Foreign (FException "timeout"))))
    /\ file_cache w1 = ∅
    /\ @step header_mutagen demo_config (Callback 0) w1 = Some w2
    /\ mem_cache w2 !! syn_key mp3_synthesis = None
    /\ @step header_mutagen demo_config (Run 0) w2 = Some w3
    /\ coros w3 !! 0 = Some (Done (Raised (Foreign (FException "timeout")))).
Proof.
  destruct (@run header_mutagen demo_config failing_audio (init_world ∅ ∅ ∅))
    as [w|] eqn:Hrun; [|by vm_compute in Hrun].
  vm_compute in Hrun. injection Hrun as <-.
  match goal with |- context [Some ?x = Some _] => set (w := x) end.
  destruct (@synthesis_failure_rolls_back header_mutagen demo_config w 1
              mp3_synthesis timeout (Foreign (FException "timeout"))
              eq_refl eq_refl)
    as (w1 & Hstep1 & Hdone & _ & Hindex & _ & _ & _ & _ & Hwait & Hroll).
  destruct (Hroll 0 eq_refl) as (w2 & Hstep2 & Hgone & _ & _ & Hcoros & _).
  destruct (Hwait w2 0
              (AwaitPending (HAudio "mp3") (syn_key mp3_synthesis) 1))
    as (w3 & Hstep3 & Hraised).
  { by rewrite Hcoros. }
  { rewrite Hcoros. vm_compute in Hstep1. by injection Hstep1 as <-. }
  { reflexivity. }
  exists w, w1, w2, w3. split_and!; try done.
Defined.

(** C3, as the specification has it, fails: the caller of
    [async_get_url_path] that started a synthesis with a declared extension
    has its URL, although the synthesis failed and the placeholder is
    gone. *)
Lemma url_caller_not_failed :
  exists w,
    @run header_mutagen demo_config failing_url (init_world ∅ ∅ ∅) = Some w
    /\ coros w !! 1 = Some (Done (Raised (Foreign (FException "timeout"))))
    /\ coros w !! 0
       = Some (Done (Returned
                       (RUrl (TTS_PROXY (syn_key mp3_synthesis +:+ ".mp3")))))
    /\ mem_cache w !! syn_key mp3_synthesis = None.
Proof. eexists. split; [vm_compute; reflexivity|]. by vm_compute. Qed.

(** ** Notions for concurrent requests *)

(** ** Concurrent requests for one key *)

Ltac break :=
  repeat match goal with
    | H : _ /\ _ |- _ => destruct H
    | H : exists _, _ |- _ => destruct H
    end.

Section Flight.
Context `{Mutagen} (cfg : config) (p : synthesis).

Lemma ok_coro_nr ph (nr nr' : Prop) bc j c :
  (nr' -> nr) -> ok_coro cfg p ph nr bc j c -> ok_coro cfg p ph nr' bc j c.
Proof.
  intros Hnr. destruct c as [[]| | | | | | | | | |[[]|]]; simpl; tauto.
Qed.

Lemma ok_coro_absent ph nr nr' bc bc' j c :
  ok_coro cfg p Absent nr bc j c -> ok_coro cfg p ph nr' bc' j c.
Proof.
  destruct c as [[]| | | | | | | | | |[[]|]]; simpl; try done.
  all: intros; break; discriminate.
Qed.

Lemma ok_coro_pending t ph nr nr' bc bc' j c :
  j <> t -> ok_coro cfg p (Pending t) nr bc j c ->
  ok_coro cfg p ph nr' bc' j c.
Proof.
  intros Hne.
  destruct c as [[]| | | | | | | | | |[[]|]]; simpl; try done.
  all: intros; break; congruence.
Qed.
End Flight.
Section Flight2.
Context `{Mutagen} (cfg : config) (p : synthesis).

Lemma no_raised_app cs news : no_raised (cs ++ news) -> no_raised cs.
Proof. intros Hnr i e Hi. apply (Hnr i e). by apply lookup_app_l_Some. Qed.

Lemma no_raised_set cs i c c' :
  cs !! i = Some c -> (forall e, c <> Done (Raised e)) ->
  no_raised (<[i:=c']> cs) -> no_raised cs.
Proof.
  intros Hi Hc Hnr j e Hj. destruct (decide (j = i)) as [->|Hne].
  - rewrite Hi in Hj. injection Hj as ->. by eapply Hc.
  - apply (Hnr j e). by rewrite list_lookup_insert_ne.
Qed.

Lemma no_raised_done cs i e :
  i < length cs -> no_raised (<[i:=Done (Raised e)]> cs) -> False.
Proof. intros Hi Hnr. apply (Hnr i e). by apply list_lookup_insert_eq. Qed.

Lemma absent_no_callbacks mc fc cs cbs bc :
  refs_ok_of mc cs cbs -> flight_inv_of cfg p mc fc cs cbs bc ->
  mc !! syn_key p = None -> cbs = [].
Proof.
  intros (_ & _ & Hcb) (H1 & H2 & _) Hm.
  unfold phase_of in *. rewrite Hm in *.
  destruct cbs as [|[t key] cbs]; [done|exfalso].
  destruct (Hcb 0 t key eq_refl) as (c & Hc & Hs).
  destruct (H2 0 t key eq_refl) as (_ & Hr).
  pose proof (H1 t c Hc) as Hok.
  destruct c as [[]| | | | | | | | | |[[]|e]]; simpl in *; try done.
  all: break; try discriminate.
  by specialize (Hr e Hc).
Qed.

Lemma awaited_returned mc fc cs cbs bc i h key t a :
  refs_ok_of mc cs cbs -> flight_inv_of cfg p mc fc cs cbs bc ->
  cs !! i = Some (AwaitPending h key t) ->
  cs !! t = Some (Done (Returned a)) ->
  exists d, phase_of (syn_key p) mc = Resolved d.
Proof.
  intros (_ & Haw & _) (H1 & _) Hi Ht.
  destruct (Haw _ _ t Hi eq_refl) as (c & Hc & Hs).
  rewrite Ht in Hc. injection Hc as <-.
  pose proof (H1 _ _ Ht) as Hok.
  by destruct a.
Qed.

Lemma absent_file (b : bool) (o : option string) :
  b = false \/ o = None \/ (exists d, Absent = Resolved d) ->
  b && bool_decide (is_Some o) = false /\ (if b then o else None) = None.
Proof.
  intros [->|[->|[d [=]]]]; [done|]. split; [|by destruct b].
  rewrite bool_decide_eq_false_2; [by destruct b|]. by intros [x [=]].
Qed.

Ltac go' :=
  repeat first
    [ progress world
    | rewrite lookup_insert_eq
    | rewrite lookup_app_new
    | match goal with
      | H : ?x = _ |- context [match ?x with _ => _ end] => rewrite H
      end
    | progress cbn [pending voice filename awaits head_ret andb]
    | inner_case ].

(** The invariant of the new world, with the phase of the key computed. *)
Ltac open_inv :=
  unfold flight_inv_of; cbv zeta; world; unfold phase_of;
  rewrite ?lookup_insert_eq, ?lookup_delete_eq;
  try match goal with Hcb : callbacks _ = [] |- _ => rewrite Hcb end;
  repeat match goal with
    | H : ?x = _ |- context [match ?x with _ => _ end] => rewrite H
    end;
  cbn [pending voice].

(** Where a coroutine of the new pool comes from. *)
Ltac pool H :=
  repeat first
    [ apply list_lookup_insert_Some in H as [(<- & <- & _)|[? H]]
    | apply lookup_snoc_Some in H as [[_ H]|[-> <-]] ].

Ltac nr_solver :=
  let Hnr := fresh "Hnr" in
  intros Hnr;
  repeat first
    [ exact Hnr
    | apply no_raised_app in Hnr
    | eapply no_raised_set in Hnr;
      [|first [eassumption|apply lookup_app_l_Some; eassumption]|done] ].

Ltac old_coro :=
  match goal with
  | H1 : forall j c, _ !! j = Some c -> ok_coro _ _ _ _ _ j c |- _ =>
      first
        [ eapply ok_coro_nr; [|by apply H1]; nr_solver
        | eapply ok_coro_absent; by apply H1
        | eapply ok_coro_pending; [|by apply H1]; congruence ]
  end.

Ltac not_synth :=
  match goal with
  | Hok : refs_ok_of _ ?cs ?cbs, Hn : ?cbs !! _ = Some (?t, _),
    Hi : ?cs !! ?t = Some _ |- _ =>
      let c := fresh in let Hc := fresh in let Hs := fresh in
      destruct (proj2 (proj2 Hok) _ _ _ Hn) as (c & Hc & Hs);
      rewrite Hi in Hc; injection Hc as <-; simpl in Hs; discriminate
  end.

Ltac flight_count :=
  let Hnr := fresh "Hnr" in
  intros Hnr;
  first
    [ done
    | exfalso; eapply no_raised_done; [|exact Hnr];
      rewrite ?length_app; simpl; lia
    | match goal with
      | Hx : no_raised ?cs -> _ |- _ =>
          let Hold := fresh in
          assert (Hold : no_raised cs) by (revert Hnr; nr_solver);
          specialize (Hx Hold);
          first [exact Hx | rewrite Hx; reflexivity]
      end ].

Ltac flight_coros :=
  let j := fresh "j" in let c := fresh "c" in let Hj := fresh "Hj" in
  intros j c Hj; pool Hj;
  first
    [ old_coro
    | try match goal with h : head |- _ => destruct h end;
      simpl; split_and?; eauto; first [done | flight_count] ].

Ltac flight_callbacks :=
  let n := fresh "n" in let t := fresh "t" in let key := fresh "key" in
  let Hn := fresh "Hn" in let Hr := fresh "Hr" in let e := fresh "e" in
  let He := fresh "He" in let Heq := fresh "Heq" in
  intros n t key Hn;
  first
    [ solve [rewrite lookup_nil in Hn; done]
    | rewrite app_nil_l in Hn;
      apply list_lookup_singleton_Some in Hn as [-> [= <- <-]];
      split; [done|]; intros; reflexivity
    | match goal with
      | H2 : forall n t key, _ !! n = Some (t, key) -> _ /\ _ |- _ =>
          destruct (H2 n t key Hn) as [-> Hr]
      end;
      split; [done|]; intros e He;
      repeat first
        [ apply list_lookup_insert_Some in He as [(<- & Heq & _)|[? He]]
        | apply lookup_snoc_Some in He as [[_ He]|[-> Heq]] ];
      first
        [ done
        | by eapply Hr
        | not_synth
        | exfalso; specialize (Hr _ He); congruence ] ].

Ltac flight :=
  split_and!;
  [ try flight_coros
  | try flight_callbacks
  | try first [assumption | simpl; lia]
  | try first
      [ assumption
      | by eauto
      | match goal with
        | H4 : _ \/ _ \/ _ |- _ =>
            destruct H4 as [?|[?|[? ?]]]; eauto; discriminate
        end ]
  | try flight_count ].

Lemma pending_task mc fc cs cbs bc f v t :
  refs_ok_of mc cs cbs -> flight_inv_of cfg p mc fc cs cbs bc ->
  mc !! syn_key p = Some {| filename := f; voice := v; pending := Some t |} ->
  exists c, cs !! t = Some c
    /\ (c = Task_get_tts_data p
        \/ (exists r, c = Synthesizing p r)
        \/ exists e, c = Done (Raised e)).
Proof.
  intros (Hmem & _) (H1 & _) Hm.
  destruct (Hmem _ _ t Hm eq_refl) as (c & Hc & Hs).
  pose proof (H1 t c Hc) as Hok. exists c. split; [done|].
  unfold phase_of in Hok. rewrite Hm in Hok.
  destruct c as [[]| | | | | | | | | |[[]|e]]; simpl in *; try done.
  all: break; subst; try discriminate; eauto.
Qed.

Ltac step_cases H :=
  repeat match type of H with
    | context [match ?x with _ => _ end] =>
        lazymatch x with
        | context [match _ with _ => _ end] => fail
        | _ => destruct x eqn:?; cbv beta iota in H
        end
    end;
  simplify_eq.

Ltac run_case :=
  try (match goal with
       | Haw : forall i h key t a, _ -> _ -> exists d, _ = Resolved d |- _ =>
           edestruct Haw as [? ?]; [eassumption..|]; discriminate
       end);
  unfold async_get_tts_audio, async_get_url_path;
  repeat match goal with
    | Hc : prepare _ _ = Returned _ |- _ => rewrite Hc
    end;
  unfold_steps; go'; open_inv; flight.

Lemma step_flight ev w w' ext :
  expected_extension (syn_options p) = Some ext ->
  refs_ok w -> flight_inv cfg p w -> asks cfg p ev ->
  step cfg ev w = Some w' -> flight_inv cfg p w'.
Proof.
  unfold refs_ok, flight_inv. intros Hext Hok Hinv Hev Hstep.
  pose proof (absent_no_callbacks _ _ _ _ _ Hok Hinv) as Hnocb.
  pose proof (fun i h key t a =>
                awaited_returned _ _ _ _ _ i h key t a Hok Hinv) as Haw.
  pose proof (fun f v t => pending_task _ _ _ _ _ f v t Hok Hinv) as Htask.
  destruct Hinv as (H1 & H2 & H3 & H4 & H5).
  destruct ev as [e|i|i|i r|n|n]; cbn [step asks] in *.
  - injection Hstep as <-. world. unfold flight_inv_of. cbv zeta.
    split_and!; try done.
    + intros j c [[Hlt Hj]|[-> <-]]%lookup_snoc_Some.
      * eapply ok_coro_nr; [apply no_raised_app|by apply H1].
      * by destruct e.
    + intros n t key Hn. destruct (H2 n t key Hn) as [-> Hr].
      split; [done|]. intros e' [[Hlt Hj]|[-> [=]]]%lookup_snoc_Some.
      by eapply Hr.
    + intros Hnr%no_raised_app. by apply H5.
  - unfold run_coro in Hstep.
    destruct (coros w !! i) as [c|] eqn:Hi; [|done].
    pose proof (H1 i c Hi) as Hc.
    assert (Hlt : i < length (coros w)) by (by eapply lookup_lt_Some).
    destruct (mem_cache w !! syn_key p) as [[f v [t|]]|] eqn:Hm;
      unfold phase_of in *; rewrite Hm in *; cbn [pending voice] in *.
    + (* a placeholder *)
      destruct (Htask _ _ _ eq_refl) as (ct & Ht & Hct).
      destruct c as [[r|r| |]| | | | | | | | | |]; simpl in Hc; try done.
      all: break; simplify_eq.
      all: destruct Hct as [Hct|[[r' Hct]|[e' Hct]]]; simplify_eq.
      all: step_cases Hstep.
      all: run_case.
    + (* the audio *)
      destruct c as [[r|r| |]| | | | | | | | | |]; simpl in Hc; try done.
      all: break; simplify_eq.
      all: step_cases Hstep.
      all: run_case.
    + (* nothing *)
      pose proof (Hnocb eq_refl) as Hcb.
      destruct c as [[r|r| |]| | | | | | | | | |]; simpl in Hc; try done.
      all: break; simplify_eq.
      all: step_cases Hstep.
      all: destruct (absent_file _ _ H4) as [Hfile Hfile'].
      all: run_case.
  - unfold run_job in Hstep.
    destruct (coros w !! i) as [c|] eqn:Hi; [|done].
    pose proof (H1 i c Hi) as Hc.
    assert (Hlt : i < length (coros w)) by (by eapply lookup_lt_Some).
    destruct (mem_cache w !! syn_key p) as [[f v [t|]]|] eqn:Hm;
      unfold phase_of in *; rewrite Hm in *; cbn [pending voice] in *.
    all: destruct c as [[r|r| |]| | | | | | | | | |]; simpl in Hc; try done.
    all: break; simplify_eq.
    all: unfold save_speech in Hstep; step_cases Hstep.
    all: run_case.
  - destruct (coros w !! i) as [c|] eqn:Hi; [|done].
    pose proof (H1 i c Hi) as Hc.
    assert (Hlt : i < length (coros w)) by (by eapply lookup_lt_Some).
    destruct (mem_cache w !! syn_key p) as [[f v [t|]]|] eqn:Hm;
      unfold phase_of in *; rewrite Hm in *; cbn [pending voice] in *.
    all: destruct c as [[r0|r0| |]| | | | | | | | | |]; simpl in Hc; try done.
    all: break; simplify_eq.
    all: step_cases Hstep.
    all: run_case.
  - destruct (callbacks w !! n) as [[t key]|] eqn:Hn; [|done].
    destruct (coros w !! t) as [[| | | | | | | | | |r]|] eqn:Ht; try done.
    injection Hstep as <-.
    destruct (H2 n t key Hn) as [-> Hr].
    assert (Hdel : delete n (callbacks w) = []).
    { destruct (callbacks w) as [|a [|b l]]; destruct n; simpl in *;
        try done; lia. }
    destruct r as [v|e].
    { unfold handle_error, flight_inv_of; world; rewrite Hdel; cbv zeta.
      split_and!; try done. simpl. lia. }
    destruct (handle_error_cases e (syn_key p)
                (with_callbacks (delete n (callbacks w)) w))
      as [[-> ->]|[Hne ->]];
      unfold flight_inv_of; world; rewrite Hdel; cbv zeta.
    + split_and!; try done. simpl. lia.
    + specialize (Hr e Ht). unfold phase_of at 1 2 3 4.
      rewrite lookup_delete_eq. rewrite Hr in *.
      split_and!; try done.
      * intros j c Hj. destruct (decide (j = t)) as [->|Hne'].
        -- rewrite Ht in Hj. by injection Hj as <-.
        -- eapply ok_coro_pending; [|by apply H1]. done.
      * simpl. lia.
      * destruct H4 as [?|[?|[? [=]]]]; eauto.
      * intros Hnr. by destruct (Hnr t e).
  - done.
Qed.
End Flight2.
Section Flight3.
Context `{Mutagen} (cfg : config) (p : synthesis).

Lemma run_flight evs w w' ext :
  expected_extension (syn_options p) = Some ext ->
  refs_ok w -> flight_inv cfg p w -> Forall (asks cfg p) evs ->
  run cfg evs w = Some w' -> refs_ok w' /\ flight_inv cfg p w'.
Proof.
  intros Hext. revert w.
  induction evs as [|ev evs IH]; intros w Hok Hinv Hevs; simpl.
  - by intros [= <-].
  - destruct (step cfg ev w) as [w1|] eqn:Hstep; [|done].
    apply Forall_cons in Hevs as [Hev Hevs].
    apply IH; [by eapply step_refs_ok| |done].
    by eapply step_flight.
Qed.

Lemma init_flight fc fs pr :
  syn_cache p = false \/ fc !! syn_key p = None ->
  flight_inv cfg p (init_world fc fs pr).
Proof.
  intros Hfc. unfold flight_inv, flight_inv_of, init_world, phase_of; simpl.
  rewrite lookup_empty. split_and!; try done.
  - lia.
  - tauto.
Qed.
End Flight3.

(** Single flight.  A manager that has just been initialised serves any
    number of callers, all asking through [async_get_tts_audio] or
    [async_get_url_path] for the same synthesis [p], whose processed
    options declare an [audio_output]; the key is not served from the disk
    index and no eviction timer fires.  Whatever the order of the events:
    at most one synthesis task is in flight at any moment; all callers of
    [async_get_tts_audio] that have returned have received the same bytes;
    and as long as no coroutine has failed, the engine has been called at
    most once, and exactly once, for [p], when a caller has returned. *)
Theorem single_flight `{Mutagen} cfg p ext evs fc fs pr w :
  expected_extension (syn_options p) = Some ext ->
  syn_cache p = false \/ fc !! syn_key p = None ->
  Forall (asks cfg p) evs ->
  run cfg evs (init_world fc fs pr) = Some w ->
  (forall i j ci cj,
      coros w !! i = Some ci -> coros w !! j = Some cj ->
      in_flight ci = true -> in_flight cj = true -> i = j)
  /\ (forall i j e1 d1 e2 d2,
        coros w !! i = Some (Done (Returned (RAudio e1 d1))) ->
        coros w !! j = Some (Done (Returned (RAudio e2 d2))) -> d1 = d2)
  /\ (no_raised (coros w) ->
      length (backend_calls w) <= 1
      /\ forall i e d,
           coros w !! i = Some (Done (Returned (RAudio e d))) ->
           backend_calls w = [p]).
Proof.
  intros Hext Hfc Hevs Hrun.
  assert (Hok0 : refs_ok (init_world fc fs pr)).
  { unfold refs_ok, init_world; simpl. split_and!; by intros. }
  destruct (run_flight cfg p evs _ w ext Hext Hok0
              (init_flight cfg p fc fs pr Hfc) Hevs Hrun) as [Hok Hinv].
  pose proof (fun f v t => pending_task cfg p _ _ _ _ _ f v t Hok Hinv)
    as Htask.
  destruct Hinv as (H1 & _ & _ & _ & H5). split_and!.
  - intros i j ci cj Hi Hj Hci Hcj.
    pose proof (H1 i ci Hi) as Hoki. pose proof (H1 j cj Hj) as Hokj.
    destruct ci; try done; destruct cj; try done; simpl in *; break;
      congruence.
  - intros i j e1 d1 e2 d2 Hi Hj.
    pose proof (H1 _ _ Hi) as Hoki. pose proof (H1 _ _ Hj) as Hokj.
    simpl in *. congruence.
  - intros Hnr. specialize (H5 Hnr). unfold phase_of in *.
    destruct (mem_cache w !! syn_key p) as [[f v [t|]]|] eqn:Hm;
      cbn [pending voice] in *.
    + destruct (Htask _ _ _ eq_refl) as (c & Ht & Hc).
      pose proof (H1 _ _ Ht) as Hokt. split.
      * destruct Hc as [->|[[r ->]|[e ->]]]; simpl in Hokt.
        -- destruct Hokt as (_ & _ & Hbc). rewrite (Hbc Hnr). simpl. lia.
        -- destruct Hokt as (_ & _ & Hbc). rewrite (Hbc Hnr). simpl. lia.
        -- by destruct (Hnr t e).
      * intros i e d Hi. by pose proof (H1 _ _ Hi).
    + rewrite H5. split; [simpl; lia|done].
    + rewrite H5. split; [simpl; lia|].
      intros i e d Hi. by pose proof (H1 _ _ Hi).
Qed.

Lemma single_flight_witness :
  exists w d,
    @run header_mutagen demo_config shared_requests (init_world ∅ ∅ ∅)
    = Some w
    /\ coros w !! 0 = Some (Done (Returned (RAudio "mp3" d)))
    /\ coros w !! 1 = Some (Done (Returned (RAudio "mp3" d)))
    /\ backend_calls w = [mp3_synthesis].
Proof.
  destruct (@run header_mutagen demo_config shared_requests (init_world ∅ ∅ ∅))
    as [w|] eqn:Hrun; [|by vm_compute in Hrun].
  assert (Hevs : Forall (@asks header_mutagen demo_config mp3_synthesis)
                   shared_requests).
  { repeat (apply Forall_cons; split;
              [first [exact I | vm_compute; reflexivity]|]).
    constructor. }
  pose proof (@single_flight header_mutagen demo_config mp3_synthesis
              (Py.VStr "mp3") shared_requests ∅ ∅ ∅ w eq_refl
              (or_intror (lookup_empty _)) Hevs Hrun) as HH.
  destruct HH
    as (_ & Hsame & Hcalls).
  assert (H0 : coros w !! 0
               = Some (Done (Returned
                              (RAudio "mp3"
                                 [Byte.x49; Byte.x44; Byte.x33; Byte.x01])))).
  { vm_compute in Hrun. by injection Hrun as <-. }
  assert (Hd : exists d, coros w !! 1 = Some (Done (Returned (RAudio "mp3" d)))).
  { vm_compute in Hrun. injection Hrun as <-. by eexists. }
  destruct Hd as [d H1].
  assert (Hnr : no_raised (coros w)).
  { vm_compute in Hrun. injection Hrun as <-.
    intros [|[|[|[|[|i]]]]] e; done. }
  exists w, [Byte.x49; Byte.x44; Byte.x33; Byte.x01].
  split; [reflexivity|].
  split; [exact H0|].
  split.
  - rewrite (Hsame 0 1 _ _ _ _ H0 H1). exact H1.
  - exact (proj2 (Hcalls Hnr) _ _ _ H0).
Defined.

(** Without a declared [audio_output] no placeholder is stored: two callers
    that ask for the same audio before either synthesis has ended each
    create a task of their own, and the engine is called twice. *)
Theorem no_extension_no_sharing `{Mutagen} cfg w i j r1 r2 p :
  i <> j ->
  coros w !! i = Some (Call (Call_get_tts_audio r1)) ->
  coros w !! j = Some (Call (Call_get_tts_audio r2)) ->
  prepare cfg r1 = Returned p -> prepare cfg r2 = Returned p ->
  expected_extension (syn_options p) = None ->
  is_Some (name (syn_engine p)) ->
  mem_cache w !! syn_key p = None ->
  syn_cache p = false \/ file_cache w !! syn_key p = None ->
  exists w',
    run cfg [Run i; Run j; Run (length (coros w)); Run (S (length (coros w)))]
      w = Some w'
    /\ backend_calls w' = backend_calls w ++ [p; p]
    /\ coros w' !! i
       = Some (AwaitAudioTask false (syn_key p) (length (coros w)))
    /\ coros w' !! j
       = Some (AwaitAudioTask false (syn_key p) (S (length (coros w))))
    /\ mem_cache w' = mem_cache w.
Proof.
  intros Hne Hi Hj Hp1 Hp2 Hext [nm Hname] Hm Hfc.
  assert (Hfile : syn_cache p
                  && bool_decide (is_Some (file_cache w !! syn_key p)) = false).
  { destruct Hfc as [->| ->]; [done|].
    rewrite bool_decide_eq_false_2; [by destruct (syn_cache p)|].
    by intros [x [=]]. }
  assert (Hlti : i < length (coros w)) by (by eapply lookup_lt_Some).
  assert (Hltj : j < length (coros w)) by (by eapply lookup_lt_Some).
  assert (Hlen : forall c (cs : list coro), length (cs ++ [c]) = S (length cs)).
  { intros. rewrite length_app. simpl. lia. }
  eexists. split.
  - cbn [run step]. unfold run_coro at 1. rewrite Hi.
    unfold async_get_tts_audio. rewrite Hp1, Hm, Hfile.
    unfold _async_get_tts_audio. rewrite Hext. world.
    unfold run_coro at 1. world.
    rewrite list_lookup_insert_ne by done.
    rewrite lookup_app_l by done. rewrite Hj.
    unfold async_get_tts_audio. rewrite Hp2. world. rewrite Hm, Hfile.
    unfold _async_get_tts_audio. rewrite Hext. world.
    rewrite length_insert, Hlen.
    unfold run_coro at 1. world.
    rewrite list_lookup_insert_ne by lia.
    rewrite lookup_app_l by (rewrite length_insert, Hlen; lia).
    rewrite list_lookup_insert_ne by lia.
    rewrite lookup_app_new.
    unfold get_tts_data. rewrite Hname. world.
    unfold run_coro at 1. world.
    rewrite list_lookup_insert_ne by lia.
    rewrite list_lookup_insert_ne by lia.
    replace (S (length (coros w)))
      with (length (<[i:=AwaitAudioTask false (syn_key p) (length (coros w))]>
                      (coros w ++ [Task_get_tts_data p])))
      by (rewrite length_insert, Hlen; lia).
    rewrite lookup_app_new.
    unfold get_tts_data. rewrite Hname. world.
    rewrite length_insert, Hlen. reflexivity.
  - world. split_and!.
    + by rewrite <- app_assoc.
    + rewrite list_lookup_insert_ne by lia.
      rewrite list_lookup_insert_ne by lia.
      rewrite list_lookup_insert_ne by lia.
      rewrite lookup_app_l by (rewrite length_insert, Hlen; lia).
      rewrite list_lookup_insert_eq by (rewrite Hlen; lia). done.
    + rewrite list_lookup_insert_ne by lia.
      rewrite list_lookup_insert_ne by lia.
      rewrite list_lookup_insert_eq; [done|].
      rewrite Hlen, length_insert, Hlen. lia.
    + done.
Qed.

Lemma no_extension_no_sharing_witness :
  exists w',
    @run header_mutagen demo_config [Run 0; Run 1; Run 2; Run 3] two_callers
    = Some w'
    /\ backend_calls w' = [hello_synthesis true; hello_synthesis true].
Proof.
  destruct (@no_extension_no_sharing header_mutagen demo_config two_callers
              0 1 hello_request hello_request (hello_synthesis true))
    as (w' & Hrun & Hbc & _).
  - lia.
  - reflexivity.
  - reflexivity.
  - vm_compute. reflexivity.
  - vm_compute. reflexivity.
  - reflexivity.
  - by eexists.
  - reflexivity.
  - right. reflexivity.
  - exists w'. split; [exact Hrun|exact Hbc].
Defined.

(** ** The order of the options *)

(** The hash of the options, and with it the cache key, does not depend on
    the order in which the options were put into the dict. *)
Theorem cache_key_option_order message language engine d1 d2 :
  NoDup (Py.keys d1) -> d1 ≡ₚ d2 ->
  _hash_options d1 = _hash_options d2
  /\ _generate_cache_key message language (Some d1) engine
     = _generate_cache_key message language (Some d2) engine.
Proof.
  intros Hnd Hp.
  assert (Hh : _hash_options d1 = _hash_options d2).
  { unfold _hash_options. by rewrite (sorted_items_perm d1 d2). }
  split; [done|]. unfold _generate_cache_key.
  destruct d1 as [|kv1 d1], d2 as [|kv2 d2]; try done.
  - by apply Permutation_nil_cons in Hp.
  - symmetry in Hp. by apply Permutation_nil_cons in Hp.
  - by rewrite Hh.
Qed.

Lemma cache_key_option_order_witness :
  _generate_cache_key "Hello world" "en"
    (Some [("voice", Py.VStr "anna"); ("audio_output", Py.VStr "mp3")]) "demo"
  = _generate_cache_key "Hello world" "en"
      (Some [("audio_output", Py.VStr "mp3"); ("voice", Py.VStr "anna")])
      "demo".
Proof.
  apply (cache_key_option_order "Hello world" "en" "demo"
           [("voice", Py.VStr "anna"); ("audio_output", Py.VStr "mp3")]
           [("audio_output", Py.VStr "mp3"); ("voice", Py.VStr "anna")]).
  - unfold Py.keys. simpl. apply NoDup_cons. split.
    + intros Hin. apply list_elem_of_singleton in Hin. discriminate.
    + apply NoDup_singleton.
  - apply perm_swap.
Defined.

(** ** Keys that coincide *)

Lemma lower_replace_char c :
  Py.lower_char (if Ascii.eqb (Py.lower_char c) "_" then "-"%char
                 else Py.lower_char c)
  = Py.lower_char (if Ascii.eqb c "_" then "-"%char else c).
Proof. each_char c. Qed.

Lemma replace_replace_char c :
  (if Ascii.eqb (if Ascii.eqb c "_" then "-"%char else c) "_"
   then "-"%char else if Ascii.eqb c "_" then "-"%char else c)
  = (if Ascii.eqb c "_" then "-"%char else c).
Proof. each_char c. Qed.

Lemma lower_replace s :
  Py.lower (Py.replace_char "_" "-" (Py.lower s))
  = Py.lower (Py.replace_char "_" "-" s).
Proof.
  unfold Py.lower, Py.replace_char.
  induction s as [|c s IH]; simpl; [done|].
  by rewrite lower_replace_char, IH.
Qed.

Lemma replace_idem s :
  Py.replace_char "_" "-" (Py.replace_char "_" "-" s)
  = Py.replace_char "_" "-" s.
Proof.
  unfold Py.replace_char. induction s as [|c s IH]; simpl; [done|].
  by rewrite replace_replace_char, IH.
Qed.

(** The cache key does not tell apart two languages, or two engine ids,
    that differ in the case of their letters only, nor a language written
    with underscores from the same language written with hyphens: such
    requests share one cache entry. *)
Theorem cache_key_aliases message language options engine :
  _generate_cache_key message (Py.lower language) options (Py.lower engine)
  = _generate_cache_key message language options engine
  /\ _generate_cache_key message (Py.replace_char "_" "-" language) options
       engine
     = _generate_cache_key message language options engine.
Proof.
  unfold _generate_cache_key, KEY_PATTERN. cbv zeta. split.
  - rewrite !lower_app, lower_replace. by rewrite lower_idem.
  - by rewrite replace_idem.
Qed.

(** ** Processing options twice *)

Section DictOrder.
Context {V : Type}.
Implicit Types (d o m : Py.dict V) (k : string) (v : V).

Lemma keys_set_in d k v : k ∈ Py.keys d -> Py.keys (Py.set d k v) = Py.keys d.
Proof.
  induction d as [|[k0 v0] d IH]; simpl; [by intros ?%elem_of_nil|].
  destruct (String.eqb k0 k) eqn:E; [done|]. simpl.
  apply String.eqb_neq in E. intros [?|Hin]%elem_of_cons; [congruence|].
  by rewrite IH.
Qed.

Lemma keys_set_new d k v :
  k ∉ Py.keys d -> Py.keys (Py.set d k v) = Py.keys d ++ [k].
Proof.
  induction d as [|[k0 v0] d IH]; simpl; [done|].
  intros [Hne Hnin]%not_elem_of_cons.
  destruct (String.eqb k0 k) eqn:E.
  - apply String.eqb_eq in E. congruence.
  - simpl. by rewrite IH.
Qed.

Lemma keys_fold_in m acc :
  (forall k, k ∈ Py.keys m -> k ∈ Py.keys acc) ->
  Py.keys (fold_left (fun a kv => Py.set a (fst kv) (snd kv)) m acc)
  = Py.keys acc.
Proof.
  revert acc. induction m as [|[k v] m IH]; intros acc Hin; [done|].
  cbn [fold_left fst snd]. rewrite IH.
  - apply keys_set_in, Hin. simpl. by left.
  - intros k' Hk'. rewrite keys_set_in by (apply Hin; simpl; by left).
    apply Hin. simpl. by right.
Qed.

Lemma keys_fold_new m acc :
  NoDup (Py.keys acc ++ Py.keys m) ->
  Py.keys (fold_left (fun a kv => Py.set a (fst kv) (snd kv)) m acc)
  = Py.keys acc ++ Py.keys m.
Proof.
  revert acc. induction m as [|[k v] m IH]; intros acc Hnd.
  - simpl. by rewrite app_nil_r.
  - cbn [fold_left fst snd]. simpl in Hnd.
    assert (Hk : k ∉ Py.keys acc).
    { apply NoDup_app in Hnd as (_ & Hd & _). intros Hin.
      apply (Hd k Hin). by left. }
    rewrite IH; rewrite keys_set_new by done.
    + simpl. by rewrite <- app_assoc.
    + by rewrite <- app_assoc.
Qed.

Lemma keys_fold_wf o acc :
  NoDup (Py.keys acc) ->
  NoDup (Py.keys (fold_left (fun a kv => Py.set a (fst kv) (snd kv)) o acc))
  /\ Py.keys acc `prefix_of`
       Py.keys (fold_left (fun a kv => Py.set a (fst kv) (snd kv)) o acc).
Proof.
  revert acc. induction o as [|[k v] o IH]; intros acc Hnd; [done|].
  cbn [fold_left fst snd].
  destruct (decide (k ∈ Py.keys acc)) as [Hin|Hnin].
  - destruct (IH (Py.set acc k v)) as [H1 H2];
      rewrite keys_set_in in * by done; done.
  - destruct (IH (Py.set acc k v)) as [H1 H2].
    + rewrite keys_set_new by done. apply NoDup_app. split_and!; [done| |].
      * intros x Hx Hx'%list_elem_of_singleton. congruence.
      * apply NoDup_singleton.
    + split; [done|]. rewrite keys_set_new in H2 by done.
      etrans; [|exact H2]. by apply prefix_app_r.
Qed.

Lemma dict_ext d m :
  Py.keys d = Py.keys m -> NoDup (Py.keys d) ->
  (forall k, Py.get d k = Py.get m k) -> d = m.
Proof.
  revert m. induction d as [|[k v] d IH]; intros [|[k' v'] m] Hk Hnd Hg;
    try done.
  simpl in Hk. injection Hk as <- Hk.
  simpl in Hnd. apply NoDup_cons in Hnd as [Hnin Hnd].
  pose proof (Hg k) as Hgk. simpl in Hgk. rewrite String.eqb_refl in Hgk.
  injection Hgk as <-. f_equal. apply IH; [done..|].
  intros k0. specialize (Hg k0). simpl in Hg.
  destruct (String.eqb k k0) eqn:E; [|done].
  apply String.eqb_eq in E as <-.
  transitivity (@None V); [|symmetry]; apply get_None_keys; [done|].
  by rewrite <- Hk.
Qed.

(** Updating a dict with an extension of itself gives the extension. *)
Lemma update_absorb d m :
  NoDup (Py.keys m) -> Py.keys d `prefix_of` Py.keys m -> Py.update d m = m.
Proof.
  intros Hnd [rest Hrest].
  assert (Hkeys : Py.keys (Py.update d m) = Py.keys m).
  { unfold Py.update.
    rewrite <- (take_drop (length d) m) at 1. rewrite fold_left_app.
    assert (Ht : Py.keys (take (length d) m) = Py.keys d).
    { unfold Py.keys in *. rewrite <- firstn_map, Hrest.
      rewrite take_app_length'; [done|]. by rewrite length_map. }
    assert (Hd : Py.keys (drop (length d) m) = rest).
    { unfold Py.keys in *. rewrite <- skipn_map, Hrest.
      rewrite drop_app_length'; [done|]. by rewrite length_map. }
    rewrite keys_fold_new.
    - rewrite keys_fold_in; [by rewrite Hd|]. intros k. by rewrite Ht.
    - rewrite keys_fold_in; [by rewrite Hd, <- Hrest|].
      intros k. by rewrite Ht. }
  apply dict_ext; [done|by rewrite Hkeys|].
  intros k. rewrite get_update by done.
  destruct (Py.get m k) eqn:Hm; [done|].
  apply get_None_keys. apply get_None_keys in Hm. rewrite Hrest in Hm.
  intros Hin. apply Hm. apply elem_of_app. by left.
Qed.
End DictOrder.

Lemma merged_options_idem engine options :
  dict_wf (default_options engine) ->
  merged_options engine (merged_options engine options)
  = merged_options engine options.
Proof.
  unfold merged_options, dict_wf.
  destruct (default_options engine) as [[|d ds]|] eqn:Hd.
  - by destruct options as [[|o os]|].
  - intros Hnd.
    assert (Hself : Py.update (d :: ds) (d :: ds) = d :: ds).
    { by apply update_absorb. }
    destruct options as [[|o os]|]; cbn [Py.nonempty]; rewrite ?Hself;
      try done.
    destruct (Py.update (d :: ds) (o :: os)) as [|m ms] eqn:Hm.
    { by destruct (update_nonempty (d :: ds) (o :: os)). }
    cbn [Py.nonempty]. rewrite <- Hm.
    destruct (keys_fold_wf (o :: os) (d :: ds) Hnd) as [H1 H2].
    fold (Py.update (d :: ds) (o :: os)) in H1, H2.
    rewrite (update_absorb (d :: ds)) by done.
    by rewrite Hm.
  - by destruct options as [[|o os]|].
Qed.

(** Option processing is idempotent: what [process_options] returns is
    accepted by [process_options] and returned unchanged. *)
Theorem process_options_idempotent engine language options lang opts :
  dict_wf (default_options engine) ->
  process_options engine language options = Returned (lang, opts) ->
  process_options engine (Some lang) opts = Returned (lang, opts).
Proof.
  intros Hwf Hfirst. rewrite process_options_unfold in Hfirst.
  destruct (resolved_language engine language) as [l|] eqn:Hl; [|done].
  destruct (supported_languages engine) as [supported|] eqn:Hs; [|done].
  destruct (bool_decide (l ∈ supported)) eqn:Hin; [|done].
  assert (Hres : resolved_language engine (Some l) = Some l).
  { unfold resolved_language in *. destruct (Py.truthy l) eqn:Ht; [done|].
    destruct language as [l0|]; [|done].
    destruct (Py.truthy l0) eqn:Ht0; [|done]. congruence. }
  pose proof (merged_options_idem engine options Hwf) as Hidem.
  destruct (merged_options engine options) as [m|] eqn:Hm.
  - cbv zeta in Hfirst.
    destruct (filter _ (Py.keys m)) eqn:Hf; [|done].
    injection Hfirst as <- <-.
    rewrite process_options_unfold, Hres, Hs, Hin, Hidem. cbv zeta.
    by rewrite Hf.
  - injection Hfirst as <- <-.
    by rewrite process_options_unfold, Hres, Hs, Hin, Hidem.
Qed.

Lemma process_options_idempotent_witness :
  process_options demo_engine (Some "en")
    (Some [("voice", Py.VStr "anna"); ("audio_output", Py.VStr "mp3")])
  = Returned ("en", Some [("voice", Py.VStr "anna");
                          ("audio_output", Py.VStr "mp3")]).
Proof.
  apply (process_options_idempotent demo_engine None
           (Some [("audio_output", Py.VStr "mp3")])).
  - unfold dict_wf, Py.keys. simpl. apply NoDup_singleton.
  - reflexivity.
Defined.

(** ** Eviction *)

Section Evict.
Context (mc : gmap string TTSCache) (ts : list string).
Hypothesis Hok : evict_ok_of mc ts.

Lemma evict_store key f d :
  evict_ok_of (<[key := {| filename := f; voice := d; pending := None |}]> mc)
    (ts ++ [key]).
Proof.
  intros k c Hk Hp. apply elem_of_app.
  destruct (decide (k = key)) as [->|Hne].
  - right. by apply list_elem_of_singleton.
  - left. rewrite lookup_insert_ne in Hk by done. by eapply Hok.
Qed.

Lemma evict_placeholder key e t :
  pending e = Some t -> evict_ok_of (<[key := e]> mc) ts.
Proof.
  intros He k c Hk Hp. destruct (decide (k = key)) as [->|Hne].
  - rewrite lookup_insert_eq in Hk. injection Hk as <-. congruence.
  - rewrite lookup_insert_ne in Hk by done. by eapply Hok.
Qed.

Lemma evict_delete key : evict_ok_of (delete key mc) ts.
Proof.
  intros k c Hk Hp. apply lookup_delete_Some in Hk as [_ Hk]. by eapply Hok.
Qed.

Lemma evict_empty : evict_ok_of ∅ ts.
Proof. intros k c Hk. by rewrite lookup_empty in Hk. Qed.

Lemma evict_timer n key :
  ts !! n = Some key -> evict_ok_of (delete key mc) (delete n ts).
Proof.
  intros Hn k c Hk Hp. apply lookup_delete_Some in Hk as [Hne Hk].
  pose proof (Hok k c Hk Hp) as Hin.
  apply list_elem_of_lookup in Hin as [m Hm].
  apply list_elem_of_lookup.
  destruct (decide (m < n)) as [Hlt|Hge].
  - exists m. by rewrite list_lookup_delete_lt.
  - assert (m <> n) by (intros ->; congruence).
    exists (m - 1). rewrite list_lookup_delete_ge by lia.
    by replace (S (m - 1)) with m by lia.
Qed.
End Evict.

Ltac evict :=
  lazymatch goal with
  | |- evict_ok_of (<[_:=_]> _) (_ ++ [_]) => apply evict_store; evict
  | |- evict_ok_of (<[_:=_]> _) _ =>
      eapply evict_placeholder; [evict|reflexivity]
  | |- evict_ok_of (delete _ _) (delete _ _) =>
      apply evict_timer; [evict|eassumption]
  | |- evict_ok_of (delete _ _) _ => apply evict_delete; evict
  | |- evict_ok_of ∅ _ => apply evict_empty
  | |- _ => assumption
  end.

Lemma step_evict_ok `{Mutagen} cfg ev w w' :
  evict_ok w -> step cfg ev w = Some w' -> evict_ok w'.
Proof.
  unfold evict_ok. intros Hok Hstep.
  destruct ev as [e|i|i|i r|n|n]; cbn [step] in Hstep.
  - injection Hstep as <-. world. evict.
  - unfold run_coro in Hstep.
    repeat case_match; try done.
    all: injection Hstep as <-.
    all: unfold_steps.
    all: go.
    all: try evict.
  - unfold run_job, save_speech in Hstep.
    destruct (coros w !! i) as [[| | | |k key f [r|]| | | |key f data [r|]|[]|]|]
      eqn:Hi; try done.
    + injection Hstep as <-. go. evict.
    + destruct (bool_decide _); injection Hstep as <-; go; evict.
    + injection Hstep as <-.
      pose proof (fold_remove_file (map snd (map_to_list (file_cache w))) w)
        as Hf.
      cbv zeta in Hf. fold (remove_files w) in Hf.
      destruct Hf as (_ & Hmc & _ & _ & Hts & _).
      go. by rewrite Hmc, Hts.
  - repeat case_match; try done.
    all: injection Hstep as <-.
    all: go.
    all: try evict.
  - repeat case_match; try done.
    all: injection Hstep as <-.
    all: unfold_steps.
    all: go.
    all: try evict.
  - repeat case_match; try done.
    all: injection Hstep as <-.
    all: go.
    all: try evict.
Qed.

Lemma run_evict_ok `{Mutagen} cfg evs w w' :
  evict_ok w -> run cfg evs w = Some w' -> evict_ok w'.
Proof.
  revert w. induction evs as [|ev evs IH]; intros w Hok; simpl.
  - by intros [= <-].
  - destruct (step cfg ev w) as [w1|] eqn:Hstep; [|done].
    apply IH. by eapply step_evict_ok.
Qed.

(** No audio stays in memory for ever: in every world that the manager can
    reach, whatever the events were, an entry of the memory cache that
    holds audio has an eviction timer pending for its key, and the firing
    of that timer removes the entry. *)
Theorem resolved_entry_has_timer `{Mutagen} cfg w key c :
  reachable cfg w ->
  mem_cache w !! key = Some c -> pending c = None ->
  exists n w',
    timers w !! n = Some key
    /\ step cfg (Timer n) w = Some w'
    /\ mem_cache w' !! key = None.
Proof.
  intros (evs & fc & fs & pr & Hrun) Hkey Hp.
  assert (Hok : evict_ok w).
  { eapply run_evict_ok; [|exact Hrun].
    unfold evict_ok, init_world; simpl. apply evict_empty. }
  pose proof (Hok _ _ Hkey Hp) as Hin.
  apply list_elem_of_lookup in Hin as [n Hn].
  exists n. eexists. cbn [step]. rewrite Hn. split_and!; [done..|].
  world. apply lookup_delete_eq.
Qed.

Lemma resolved_entry_has_timer_witness :
  exists w n w',
    @run header_mutagen demo_config shared_requests (init_world ∅ ∅ ∅)
    = Some w
    /\ timers w !! n = Some (syn_key mp3_synthesis)
    /\ @step header_mutagen demo_config (Timer n) w = Some w'
    /\ mem_cache w' !! syn_key mp3_synthesis = None.
Proof.
  destruct (@run header_mutagen demo_config shared_requests (init_world ∅ ∅ ∅))
    as [w|] eqn:Hrun; [|by vm_compute in Hrun].
  assert (Hmem : mem_cache w !! syn_key mp3_synthesis
                 = Some {| filename := Py.lower (syn_key mp3_synthesis +:+ ".mp3");
                           voice := [Byte.x49; Byte.x44; Byte.x33; Byte.x01];
                           pending := None |}).
  { vm_compute in Hrun. injection Hrun as <-. vm_compute. reflexivity. }
  destruct (@resolved_entry_has_timer header_mutagen demo_config w _ _
              (ex_intro _ shared_requests
                 (ex_intro _ ∅ (ex_intro _ ∅ (ex_intro _ ∅ Hrun))))
              Hmem eq_refl)
    as (n & w' & Hn & Hstep & Hgone).
  exists w, n, w'. split; [reflexivity|]. split; [exact Hn|].
  split; [exact Hstep|exact Hgone].
Defined.

(** ** Placeholders *)

Lemma lookup_delete_other {A} (l : list A) n m x :
  l !! m = Some x -> m <> n -> exists m', delete n l !! m' = Some x.
Proof.
  intros Hm Hne. destruct (decide (m < n)) as [Hlt|Hge].
  - exists m. by rewrite list_lookup_delete_lt.
  - exists (m - 1). rewrite list_lookup_delete_ge by lia.
    by replace (S (m - 1)) with m by lia.
Qed.

(** The entry that a lookup in the new memory cache finds. *)
Ltac mem_cases Hk :=
  repeat first
    [ rewrite lookup_empty in Hk; discriminate Hk
    | apply lookup_insert_Some in Hk as [[<- <-]|[? Hk]]
    | apply lookup_delete_Some in Hk as [? Hk] ].

Ltac keep_coro Hct :=
  repeat first
    [ exact Hct
    | rewrite list_lookup_insert_ne by congruence
    | apply lookup_app_l_Some ].

Ltac callback_kept Hcb :=
  let n := fresh "n" in let Hn := fresh "Hn" in
  try (simpl in Hcb);
  destruct Hcb as [Hcb|[n Hn]];
  [ first [ discriminate Hcb | left; exact Hcb ]
  | right; first [ by eauto | exists n; by apply lookup_app_l_Some ] ].

Ltac placeholder_old Hinv Hk Hp :=
  let ct := fresh "ct" in let Hct := fresh "Hct" in
  let Hown := fresh "Hown" in let Hcb := fresh "Hcb" in
  destruct (Hinv _ _ _ Hk Hp) as (ct & Hct & Hown & Hcb);
  lazymatch goal with
  | Hi : coros ?w !! ?i = Some _
    |- exists _, <[?i:=_]> _ !! ?t = Some _ /\ _ =>
      destruct (decide (t = i)) as [->|?];
      [ rewrite Hi in Hct; injection Hct as <-; simpl in Hown;
        first
          [ contradiction
          | congruence
          | eexists; split;
            [ apply list_lookup_insert_eq; rewrite ?length_app;
              eauto using lookup_lt_Some with lia
            | split; [simpl; done | callback_kept Hcb] ] ]
      | exists ct; split;
        [keep_coro Hct | split; [exact Hown | callback_kept Hcb]] ]
  | |- _ =>
      exists ct; split;
      [keep_coro Hct | split; [exact Hown | callback_kept Hcb]]
  end.

Ltac placeholder_new :=
  eexists; split;
  [ first
      [ apply lookup_app_new
      | match goal with
        | Hi : coros ?w !! ?i = Some _ |- <[?i:=_]> _ !! _ = Some _ =>
            rewrite list_lookup_insert_ne
              by (apply lookup_lt_Some in Hi; lia);
            apply lookup_app_new
        end ]
  | split; [simpl; done | right; eexists; apply lookup_app_new] ].

Ltac placeholders Hinv :=
  let key := fresh "key" in let c := fresh "c" in let t := fresh "t" in
  let Hk := fresh "Hk" in let Hp := fresh "Hp" in
  intros key c t Hk Hp; mem_cases Hk;
  first
    [ discriminate Hp
    | placeholder_old Hinv Hk Hp
    | cbn [pending] in Hp; injection Hp as <-; placeholder_new ].

Lemma step_placeholder_ok `{Mutagen} cfg ev w w' :
  placeholder_ok w -> step cfg ev w = Some w' -> placeholder_ok w'.
Proof.
  unfold placeholder_ok. intros Hinv Hstep.
  destruct ev as [e|i|i|i r|n|n]; cbn [step] in Hstep.
  - injection Hstep as <-. world. placeholders Hinv.
  - unfold run_coro in Hstep.
    destruct (coros w !! i) as [c0|] eqn:Hi; [|done].
    repeat case_match; try done.
    all: injection Hstep as <-.
    all: unfold_steps.
    all: go.
    all: try placeholders Hinv.
  - unfold run_job, save_speech in Hstep.
    destruct (coros w !! i) as [c0|] eqn:Hi; [|done].
    destruct c0 as [| | | |k key f [r|]| | | |key f data [r|]|[]|]; try done.
    + injection Hstep as <-. go. placeholders Hinv.
    + destruct (bool_decide _); injection Hstep as <-; go; placeholders Hinv.
    + injection Hstep as <-.
      pose proof (fold_remove_file (map snd (map_to_list (file_cache w))) w)
        as Hf.
      cbv zeta in Hf. fold (remove_files w) in Hf.
      destruct Hf as (_ & Hmc & _ & Hcs & _ & Hcbs & _).
      rewrite <- Hmc, <- Hcs, <- Hcbs in Hinv. rewrite <- Hcs in Hi.
      go. placeholders Hinv.
  - destruct (coros w !! i) as [c0|] eqn:Hi; [|done].
    repeat case_match; try done.
    injection Hstep as <-. go. placeholders Hinv.
  - destruct (callbacks w !! n) as [[t' key']|] eqn:Hn; [|done].
    destruct (coros w !! t') as [[| | | | | | | | | |r]|] eqn:Ht; try done.
    injection Hstep as <-.
    assert (Hkept : forall key c t,
               mem_cache w !! key = Some c -> pending c = Some t ->
               (t = t' -> key = key' -> cancelled (Done r) = true) ->
               exists ct,
                 coros w !! t = Some ct /\ owns key ct
                 /\ (cancelled ct = true
                     \/ exists m, delete n (callbacks w) !! m = Some (t, key))).
    { intros key c t Hk Hp Hsame.
      destruct (Hinv _ _ _ Hk Hp) as (ct & Hct & Hown & [Hc|[m Hm]]).
      - exists ct. auto.
      - exists ct. split; [done|]. split; [done|].
        destruct (decide (m = n)) as [->|Hne].
        + rewrite Hn in Hm. injection Hm as -> ->.
          rewrite Ht in Hct. injection Hct as <-. left. by apply Hsame.
        + right. by eapply lookup_delete_other. }
    destruct r as [v|e].
    { unfold handle_error. world. intros key c t Hk Hp.
      apply (Hkept _ _ _ Hk Hp). intros -> ->.
      destruct (Hinv _ _ _ Hk Hp) as (ct & Hct & Hown & _).
      rewrite Ht in Hct. by injection Hct as <-. }
    destruct (handle_error_cases e key'
                (with_callbacks (delete n (callbacks w)) w))
      as [[-> ->]|[Hne ->]]; world.
    + intros key c t Hk Hp. by apply (Hkept _ _ _ Hk Hp).
    + intros key c t Hk Hp. apply lookup_delete_Some in Hk as [Hkey Hk].
      apply (Hkept _ _ _ Hk Hp). by intros _ <-.
  - repeat case_match; try done.
    injection Hstep as <-. go. placeholders Hinv.
Qed.

Lemma run_placeholder_ok `{Mutagen} cfg evs w w' :
  placeholder_ok w -> run cfg evs w = Some w' -> placeholder_ok w'.
Proof.
  revert w. induction evs as [|ev evs IH]; intros w Hok; simpl.
  - by intros [= <-].
  - destruct (step cfg ev w) as [w1|] eqn:Hstep; [|done].
    apply IH. by eapply step_placeholder_ok.
Qed.

(** What becomes of a placeholder.  In every world that the manager can
    reach, whatever the events were, the task of a placeholder of the
    memory cache is a synthesis for the same key, and one of three holds.
    The task is still running, and its done-callback is registered.  Or the
    task has failed, its done-callback is registered, and the firing of the
    callback removes the placeholder.  Or the task was cancelled: the
    firing of its done-callback leaves the memory cache as it is, so that
    the placeholder stays, and a call of [async_get_tts_audio] for the key
    ends with [CancelledError] at its first step, without calling the
    engine and without touching the memory cache. *)
Theorem placeholder_fate `{Mutagen} cfg w key c t :
  reachable cfg w ->
  mem_cache w !! key = Some c -> pending c = Some t ->
  (exists p n,
      syn_key p = key /\ callbacks w !! n = Some (t, key)
      /\ (coros w !! t = Some (Task_get_tts_data p)
          \/ exists r, coros w !! t = Some (Synthesizing p r)))
  \/ (exists e n w',
         e <> Foreign FCancelledError
         /\ coros w !! t = Some (Done (Raised e))
         /\ callbacks w !! n = Some (t, key)
         /\ step cfg (Callback n) w = Some w'
         /\ mem_cache w' !! key = None)
  \/ (coros w !! t = Some (Done (Raised (Foreign FCancelledError)))
      /\ (forall n,
             callbacks w !! n = Some (t, key) ->
             exists w',
               step cfg (Callback n) w = Some w'
               /\ mem_cache w' = mem_cache w)
      /\ (forall i r p,
             coros w !! i = Some (Call (Call_get_tts_audio r)) ->
             prepare cfg r = Returned p -> syn_key p = key ->
             exists w',
               step cfg (Run i) w = Some w'
               /\ coros w' !! i
                  = Some (Done (Raised (Foreign FCancelledError)))
               /\ backend_calls w' = backend_calls w
               /\ mem_cache w' = mem_cache w
               /\ length (coros w') = length (coros w))).
Proof.
  intros (evs & fc & fs & pr & Hrun) Hkey Hp.
  assert (Hok : placeholder_ok w).
  { eapply run_placeholder_ok; [|exact Hrun].
    unfold placeholder_ok, init_world; simpl.
    intros k c0 t0 Hk. by rewrite lookup_empty in Hk. }
  destruct (Hok _ _ _ Hkey Hp) as (ct & Hct & Hown & Hcb).
  destruct ct as [| | | | | | | | | |[v|e]]; try done; simpl in Hown.
  - left. destruct Hcb as [[=]|[n Hn]]. eauto 10.
  - left. destruct Hcb as [[=]|[n Hn]]. eauto 10.
  - right.
    destruct (handle_error_cases e key w) as [[-> _]|[Hne _]].
    + right. split; [done|]. split.
      * intros n Hn. eexists. split.
        -- cbn [step]. rewrite Hn, Hct. reflexivity.
        -- reflexivity.
      * intros i r p Hi Hprep <-.
        assert (Hlt : i < length (coros w)) by (by eapply lookup_lt_Some).
        eexists. split.
        -- cbn [step]. unfold run_coro. rewrite Hi.
           unfold async_get_tts_audio. rewrite Hprep, Hkey.
           unfold audio_tail. rewrite Hkey.
           unfold read_cached. rewrite Hkey, Hp.
           unfold await_pending. rewrite Hct. reflexivity.
        -- world. split_and!; try done.
           ++ by apply list_lookup_insert_eq.
           ++ by rewrite length_insert.
    + left. destruct Hcb as [Hc|[n Hn]].
      { simpl in Hc. by destruct e as [| | | | | | | | | | |[]]. }
      exists e, n. eexists. split; [done|]. split; [done|]. split; [done|].
      split.
      * cbn [step]. rewrite Hn, Hct. reflexivity.
      * rewrite handle_error_failed by done. world. apply lookup_delete_eq.
Qed.

Lemma placeholder_fate_witness :
  exists w w',
    @run header_mutagen demo_config cancelled_audio (init_world ∅ ∅ ∅)
    = Some w
    /\ mem_cache w !! syn_key mp3_synthesis
       = Some {| filename := Py.lower (syn_key mp3_synthesis +:+ ".mp3");
                 voice := []; pending := Some 1 |}
    /\ callbacks w = []
    /\ @step header_mutagen demo_config (Run 2) w = Some w'
    /\ coros w' !! 2 = Some (Done (Raised (Foreign FCancelledError)))
    /\ backend_calls w' = [mp3_synthesis].
Proof.
  destruct (@run header_mutagen demo_config cancelled_audio
              (init_world ∅ ∅ ∅)) as [w|] eqn:Hrun; [|by vm_compute in Hrun].
  assert (Hmem : mem_cache w !! syn_key mp3_synthesis
                 = Some {| filename := Py.lower (syn_key mp3_synthesis +:+ ".mp3");
                           voice := [];
                           pending := Some 1 |}).
  { vm_compute in Hrun. injection Hrun as <-. vm_compute. reflexivity. }
  assert (Htask : coros w !! 1
                  = Some (Done (Raised (Foreign FCancelledError)))).
  { vm_compute in Hrun. by injection Hrun as <-. }
  assert (Hcaller : coros w !! 2
                    = Some (Call (Call_get_tts_audio mp3_request))).
  { vm_compute in Hrun. by injection Hrun as <-. }
  assert (Hcbs : callbacks w = []).
  { vm_compute in Hrun. by injection Hrun as <-. }
  assert (Hcalls : backend_calls w = [mp3_synthesis]).
  { vm_compute in Hrun. injection Hrun as <-. vm_compute. reflexivity. }
  assert (Hprep : @prepare demo_config mp3_request = Returned mp3_synthesis).
  { vm_compute. reflexivity. }
  destruct (@placeholder_fate header_mutagen demo_config w _ _ 1
              (ex_intro _ cancelled_audio
                 (ex_intro _ ∅ (ex_intro _ ∅ (ex_intro _ ∅ Hrun))))
              Hmem eq_refl)
    as [(p & n & _ & _ & [Hrunning|[r Hrunning]])
       |[(e & n & w' & Hne & Hfailed & _)|(_ & _ & Hpoison)]].
  - rewrite Htask in Hrunning. discriminate Hrunning.
  - rewrite Htask in Hrunning. discriminate Hrunning.
  - rewrite Htask in Hfailed. injection Hfailed as <-. by destruct Hne.
  - destruct (Hpoison 2 mp3_request mp3_synthesis Hcaller Hprep eq_refl)
      as (w' & Hstep & Hdone & Hsame & _).
    exists w, w'. split; [reflexivity|]. split; [exact Hmem|].
    split; [exact Hcbs|]. split; [exact Hstep|]. split; [exact Hdone|].
    rewrite Hsame. exact Hcalls.
Defined.

(** ** A file that cannot be read *)

(** The index heals itself.  A key is in the disk index but its file cannot
    be read: a request with the cache on fails with "Can't read", without
    calling the engine, and drops the key from the index; the next request
    for the same audio finds neither memory nor index and calls the
    engine. *)
Theorem unreadable_file_leaves_index `{Mutagen} cfg w i r p fname :
  coros w !! i = Some (Call (Call_get_tts_audio r)) ->
  prepare cfg r = Returned p -> syn_cache p = true ->
  mem_cache w !! syn_key p = None ->
  file_cache w !! syn_key p = Some fname -> fname <> EmptyString ->
  files w !! fname = None ->
  exists w3,
    run cfg [Run i; Job i; Run i] w = Some w3
    /\ coros w3 !! i = Some (Done (Raised (CantRead fname)))
    /\ file_cache w3 = delete (syn_key p) (file_cache w)
    /\ mem_cache w3 = mem_cache w
    /\ backend_calls w3 = backend_calls w
    /\ (is_Some (name (syn_engine p)) ->
        forall j r',
          coros w3 !! j = Some (Call (Call_get_tts_audio r')) ->
          prepare cfg r' = Returned p ->
          exists w5,
            run cfg [Run j; Run (length (coros w3))] w3 = Some w5
            /\ backend_calls w5 = backend_calls w ++ [p]).
Proof.
  intros Hi Hp Hc Hmem Hindex Hfn Hfile.
  assert (Hlt : i < length (coros w)) by (by eapply lookup_lt_Some).
  assert (Htruthy : Py.truthy fname = true) by (by destruct fname).
  assert (Hrun : exists w3,
             run cfg [Run i; Job i; Run i] w = Some w3
             /\ w3 = finish i (Raised (CantRead fname))
                       (with_file_cache (delete (syn_key p) (file_cache w))
                          (set_coro i
                             (Loading LoadForAudio (syn_key p) fname
                                (Some None))
                             (set_coro i
                                (Loading LoadForAudio (syn_key p) fname None)
                                w)))).
  { eexists. split; [|reflexivity].
    cbn [run step]. unfold run_coro at 1. rewrite Hi.
    unfold async_get_tts_audio. rewrite Hp, Hmem, Hc, Hindex.
    rewrite bool_decide_eq_true_2 by eauto. cbn [andb].
    unfold _async_file_to_mem. rewrite Hindex, Htruthy.
    unfold run_job. world. rewrite list_lookup_insert_eq by done.
    world. unfold run_coro. world.
    rewrite list_lookup_insert_eq by (by rewrite length_insert).
    rewrite Hfile. unfold _async_file_to_mem_resume. world.
    by rewrite Hindex. }
  destruct Hrun as (w3 & Hrun & Hw3). exists w3. split; [done|].
  subst w3. world. split_and!; try done.
  - rewrite list_lookup_insert_eq; [done|]. by rewrite !length_insert.
  - intros Hname j r' Hj Hp'.
    destruct (cache_miss_calls_engine cfg
                {| file_cache := delete (syn_key p) (file_cache w);
                   mem_cache := mem_cache w; files := files w;
                   protected := protected w;
                   coros := <[i:=Done (Raised (CantRead fname))]>
                              (<[i:=Loading LoadForAudio (syn_key p) fname
                                      (Some None)]>
                                 (<[i:=Loading LoadForAudio (syn_key p) fname
                                         None]> (coros w)));
                   timers := timers w; callbacks := callbacks w;
                   backend_calls := backend_calls w; log := log w |}
                j r' p Hj Hp' Hname Hmem)
      as (w5 & Hrun5 & Hcalls & _).
    { right. apply lookup_delete_eq. }
    exists w5. split; [exact Hrun5|exact Hcalls].
Qed.

Lemma unreadable_file_leaves_index_witness :
  exists w3,
    @run header_mutagen demo_config [Run 0; Job 0; Run 0] lost_file = Some w3
    /\ coros w3 !! 0
       = Some (Done (Raised (CantRead (hello_key +:+ ".mp3"))))
    /\ file_cache w3 = delete hello_key {[ hello_key := hello_key +:+ ".mp3" ]}.
Proof.
  destruct (@unreadable_file_leaves_index header_mutagen demo_config lost_file
              0 hello_request (hello_synthesis true) (hello_key +:+ ".mp3"))
    as (w3 & Hrun & Hi & Hfc & _).
  - reflexivity.
  - vm_compute. reflexivity.
  - reflexivity.
  - reflexivity.
  - vm_compute. reflexivity.
  - discriminate.
  - reflexivity.
  - exists w3. split; [exact Hrun|]. split; [exact Hi|exact Hfc].
Defined.

(** ** Resolving an engine *)

Lemma contains_head {V} (k : string) (v : V) d :
  Py.contains ((k, v) :: d) k = true.
Proof. unfold Py.contains. simpl. by rewrite String.eqb_refl. Qed.

(** [async_resolve_engine] never invents an engine: what it returns is
    registered, as entity or as provider; an explicit engine is returned
    as it is or not at all; without an explicit engine the answer is
    [None] only when nothing is registered, and ["cloud"] whenever there
    is a provider of that name; and resolving the answer again gives the
    same answer. *)
Theorem resolve_engine_registered hass engine :
  (forall e, async_resolve_engine hass engine = Some e ->
             registered hass e = true
             /\ async_resolve_engine hass (Some e) = Some e)
  /\ (forall e, engine = Some e ->
                async_resolve_engine hass engine
                = if registered hass e then Some e else None)
  /\ (engine = None ->
      (async_resolve_engine hass engine = None
       <-> entities hass = [] /\ providers hass = [])
      /\ (Py.contains (providers hass) "cloud" = true ->
          async_resolve_engine hass engine = Some "cloud")).
Proof.
  assert (Hexplicit : forall e,
             async_resolve_engine hass (Some e)
             = if registered hass e then Some e else None).
  { intros e. unfold async_resolve_engine, registered.
    by destruct (Py.contains (entities hass) e),
         (Py.contains (providers hass) e). }
  assert (Hdefault : forall e,
             async_default_engine hass = Some e -> registered hass e = true).
  { intros e. unfold async_default_engine, registered.
    destruct (Py.contains (providers hass) "cloud") eqn:Hcloud.
    - intros [= <-]. rewrite Hcloud. apply orb_true_r.
    - destruct (entities hass) as [|[id ent] ents].
      + destruct (providers hass) as [|[k prov] provs]; [done|].
        intros [= <-]. rewrite contains_head. apply orb_true_r.
      + intros [= <-]. by rewrite contains_head. }
  split_and!.
  - intros e He.
    assert (Hreg : registered hass e = true).
    { destruct engine as [e0|]; [|by apply Hdefault].
      rewrite Hexplicit in He. destruct (registered hass e0) eqn:Hr; [|done].
      by injection He as <-. }
    split; [done|]. by rewrite Hexplicit, Hreg.
  - intros e ->. apply Hexplicit.
  - intros ->. simpl. unfold async_default_engine. split.
    + destruct (Py.contains (providers hass) "cloud") eqn:Hcloud.
      * split; [done|]. intros [_ Hp]. rewrite Hp in Hcloud. done.
      * destruct (entities hass) as [|[id ent] ents];
          [|split; [done|by intros [? _]]].
        destruct (providers hass) as [|[k prov] provs];
          [done|split; [done|by intros [_ ?]]].
    + by intros ->.
Qed.

Lemma process_options_raises engine language options err :
  process_options engine language options = Raised err ->
  process_options_error err = true.
Proof.
  rewrite process_options_unfold.
  destruct (resolved_language engine language) as [l|];
    [|by intros [= <-]].
  destruct (supported_languages engine) as [supported|];
    [|by intros [= <-]].
  destruct (bool_decide (l ∈ supported)); [|by intros [= <-]].
  destruct (merged_options engine options) as [m|]; [|done].
  cbv zeta. destruct (filter _ (Py.keys m)); [done|by intros [= <-]].
Qed.

(** ** Asking whether options are supported *)

(** [async_support_options] answers for the entry points: it raises only
    for an engine that is not found; it returns [True] exactly when
    [async_get_tts_audio] and [async_get_url_path] get past the validation
    of the same engine, language and options, whatever the message and the
    cache switch are; and [False] exactly when they fail there with an
    error of [process_options]. *)
Theorem support_options_agrees `{Mutagen} cfg engine language options
    message cache :
  let r := {| req_engine := engine; req_message := message;
              req_cache := cache; req_language := language;
              req_options := options |} in
  (async_support_options cfg engine language options = Returned true
   <-> exists p, prepare cfg r = Returned p)
  /\ (async_support_options cfg engine language options = Returned false
      <-> exists err, prepare cfg r = Raised err
                      /\ process_options_error err = true)
  /\ (forall err,
         async_support_options cfg engine language options = Raised err
         <-> err = ProviderNotFound engine /\ engines cfg !! engine = None).
Proof.
  cbv zeta. unfold async_support_options, prepare. cbn [req_engine
    req_language req_options req_message req_cache].
  destruct (engines cfg !! engine) as [inst|].
  - destruct (process_options inst language options) as [[l o]|err] eqn:Hp.
    + split_and!.
      * split; [eauto|done].
      * split; [done|]. by intros (err & [=] & _).
      * intros err. split; [done|]. by intros [_ [=]].
    + pose proof (process_options_raises inst language options err Hp) as He.
      split_and!.
      * split; [done|]. by intros (p & [=]).
      * split; [eauto|done].
      * intros err'. split; [done|]. by intros [_ [=]].
  - split_and!.
    + split; [done|]. by intros (p & [=]).
    + split; [done|]. by intros (err & [= <-] & Herr).
    + intros err. split; [by intros [= <-]|by intros [-> _]].
Qed.

(** ** A synthesis that succeeds *)

(** The engine has answered with an extension other than mp3 and with
    audio, and the file name is valid.  The task stores the engine's bytes
    unchanged in memory under the key, with the lower-cased file name and
    no pending task, sets an eviction timer, creates the task that saves
    the file when the cache is on, and returns the file name; a caller
    that awaits the task then receives exactly these bytes. *)
Theorem synthesis_success_stores `{Mutagen} cfg w t p ext data :
  coros w !! t
  = Some (Synthesizing p (Some (BackendReturned (Some ext) (Some data)))) ->
  is_Some (match_voice_file (Py.lower (syn_key p +:+ "." +:+ ext))) ->
  ext <> "mp3" ->
  let fname := Py.lower (syn_key p +:+ "." +:+ ext) in
  exists w1,
    step cfg (Run t) w = Some w1
    /\ coros w1 !! t = Some (Done (Returned (RFilename fname)))
    /\ mem_cache w1
       = <[syn_key p := {| filename := fname; voice := data;
                           pending := None |}]> (mem_cache w)
    /\ timers w1 = timers w ++ [syn_key p]
    /\ backend_calls w1 = backend_calls w
    /\ file_cache w1 = file_cache w /\ files w1 = files w
    /\ (if syn_cache p
        then coros w1 !! length (coros w)
             = Some (Task_save_tts_audio (syn_key p) fname data)
        else length (coros w1) = length (coros w))
    /\ (forall i h,
          coros w !! i = Some (AwaitPending h (syn_key p) t) ->
          exists w2,
            step cfg (Run i) w1 = Some w2
            /\ coros w2 !! i = Some (Done (Returned (head_ret h data))))
    /\ (forall i,
          coros w !! i = Some (AwaitAudioTask false (syn_key p) t) ->
          exists w2,
            step cfg (Run i) w1 = Some w2
            /\ coros w2 !! i
               = Some (Done (Returned (RAudio (Py.splitext_ext fname) data)))).
Proof.
  intros Ht [record Hrec] Hext. cbv zeta.
  assert (Hlt : t < length (coros w)) by (by eapply lookup_lt_Some).
  assert (Hmp3 : String.eqb ext "mp3" = false) by (by apply String.eqb_neq).
  eexists. split.
  { cbn [step]. unfold run_coro. rewrite Ht. unfold get_tts_data_resume.
    rewrite Hrec, Hmp3. reflexivity. }
  destruct (syn_cache p) eqn:Hc; world.
  - split_and!; try done.
    + rewrite list_lookup_insert_eq; [done|]. rewrite length_app. lia.
    + rewrite list_lookup_insert_ne by lia. apply lookup_app_new.
    + intros i h Hi.
      assert (i <> t) by (intros ->; congruence).
      eexists. split.
      * cbn [step]. unfold run_coro. world.
        rewrite list_lookup_insert_ne by done.
        rewrite (lookup_app_l_Some _ _ _ _ Hi).
        rewrite list_lookup_insert_eq by (rewrite length_app; lia).
        unfold after_pending. world. rewrite lookup_insert_eq. reflexivity.
      * world. cbn [voice].
        apply list_lookup_insert_eq.
        rewrite length_insert, length_app.
        apply lookup_lt_Some in Hi. lia.
    + intros i Hi.
      assert (i <> t) by (intros ->; congruence).
      eexists. split.
      * cbn [step]. unfold run_coro. world.
        rewrite list_lookup_insert_ne by done.
        rewrite (lookup_app_l_Some _ _ _ _ Hi).
        rewrite list_lookup_insert_eq by (rewrite length_app; lia).
        unfold audio_task_resume, audio_tail, read_cached. world.
        rewrite !lookup_insert_eq. reflexivity.
      * world. cbn [voice filename pending].
        apply list_lookup_insert_eq.
        rewrite length_insert, length_app.
        apply lookup_lt_Some in Hi. lia.
  - split_and!; try done.
    + by rewrite list_lookup_insert_eq.
    + by rewrite length_insert.
    + intros i h Hi.
      assert (i <> t) by (intros ->; congruence).
      eexists. split.
      * cbn [step]. unfold run_coro. world.
        rewrite list_lookup_insert_ne by done. rewrite Hi.
        rewrite list_lookup_insert_eq by done.
        unfold after_pending. world. rewrite lookup_insert_eq. reflexivity.
      * world. cbn [voice].
        apply list_lookup_insert_eq.
        rewrite length_insert. apply lookup_lt_Some in Hi. lia.
    + intros i Hi.
      assert (i <> t) by (intros ->; congruence).
      eexists. split.
      * cbn [step]. unfold run_coro. world.
        rewrite list_lookup_insert_ne by done. rewrite Hi.
        rewrite list_lookup_insert_eq by done.
        unfold audio_task_resume, audio_tail, read_cached. world.
        rewrite !lookup_insert_eq. reflexivity.
      * world. cbn [voice filename pending].
        apply list_lookup_insert_eq.
        rewrite length_insert. apply lookup_lt_Some in Hi. lia.
Qed.

Lemma synthesis_success_stores_witness :
  exists w w1 w2,
    @run header_mutagen demo_config wav_answer (init_world ∅ ∅ ∅) = Some w
    /\ @step header_mutagen demo_config (Run 1) w = Some w1
    /\ timers w1 = timers w ++ [syn_key mp3_synthesis]
    /\ @step header_mutagen demo_config (Run 0) w1 = Some w2
    /\ coros w2 !! 0
       = Some (Done (Returned (RAudio "mp3" [Byte.x52; Byte.x49]))).
Proof.
  destruct (@run header_mutagen demo_config wav_answer (init_world ∅ ∅ ∅))
    as [w|] eqn:Hrun; [|by vm_compute in Hrun].
  assert (Ht : coros w !! 1
               = Some (Synthesizing mp3_synthesis
                         (Some (BackendReturned (Some "wav")
                                  (Some [Byte.x52; Byte.x49]))))).
  { vm_compute in Hrun. injection Hrun as <-. reflexivity. }
  assert (Hi : coros w !! 0
               = Some (AwaitPending (HAudio "mp3") (syn_key mp3_synthesis) 1)).
  { vm_compute in Hrun. injection Hrun as <-. vm_compute. reflexivity. }
  assert (Hname : is_Some (match_voice_file
                             (Py.lower (syn_key mp3_synthesis +:+ "." +:+ "wav")))).
  { eexists. vm_compute. reflexivity. }
  destruct (@synthesis_success_stores header_mutagen demo_config w 1
              mp3_synthesis "wav" [Byte.x52; Byte.x49] Ht Hname)
    as (w1 & Hstep & _ & _ & Htimers & _ & _ & _ & _ & Hwait & _).
  { discriminate. }
  destruct (Hwait 0 (HAudio "mp3") Hi) as (w2 & Hstep2 & Hdone).
  exists w, w1, w2. split; [reflexivity|]. split; [exact Hstep|].
  split; [exact Htimers|]. split; [exact Hstep2|exact Hdone].
Defined.

(** ** Saving and reading back *)

(** What has been saved is read back.  A task saves audio to a file that
    can be written; a caller then asks for that audio with the cache on,
    the key being no longer in memory.  The file holds the audio, the
    index names it, and the caller receives the saved bytes from the disk
    without a call of the engine. *)
Theorem saved_audio_read_back `{Mutagen} cfg w s i r p fname data :
  s <> i ->
  coros w !! s = Some (Task_save_tts_audio (syn_key p) fname data) ->
  coros w !! i = Some (Call (Call_get_tts_audio r)) ->
  prepare cfg r = Returned p -> syn_cache p = true ->
  mem_cache w !! syn_key p = None ->
  fname <> EmptyString -> fname ∉ protected w ->
  exists w',
    run cfg [Run s; Job s; Run s; Run i; Job i; Run i] w = Some w'
    /\ file_cache w' = <[syn_key p := fname]> (file_cache w)
    /\ files w' = <[fname := data]> (files w)
    /\ coros w' !! s = Some (Done (Returned RNone))
    /\ coros w' !! i
       = Some (Done (Returned (RAudio (Py.splitext_ext fname) data)))
    /\ mem_cache w' !! syn_key p
       = Some {| filename := fname; voice := data; pending := None |}
    /\ backend_calls w' = backend_calls w.
Proof.
  intros Hne Hs Hi Hp Hc Hmem Hfn Hprot.
  assert (Hlts : s < length (coros w)) by (by eapply lookup_lt_Some).
  assert (Hlti : i < length (coros w)) by (by eapply lookup_lt_Some).
  assert (Htruthy : Py.truthy fname = true) by (by destruct fname).
  eexists. split.
  - cbn [run step]. unfold run_coro at 1. rewrite Hs.
    unfold run_job at 1. world. rewrite list_lookup_insert_eq by done.
    unfold save_speech. world. rewrite bool_decide_eq_false_2 by done.
    world. unfold run_coro at 1. world.
    rewrite list_lookup_insert_eq by (by rewrite length_insert).
    unfold _async_save_tts_audio_resume. world.
    unfold run_coro at 1. world.
    rewrite !list_lookup_insert_ne by done. rewrite Hi.
    unfold async_get_tts_audio. rewrite Hp. world. rewrite Hmem, Hc.
    rewrite lookup_insert_eq.
    rewrite bool_decide_eq_true_2 by eauto. cbn [andb].
    unfold _async_file_to_mem. world. rewrite lookup_insert_eq, Htruthy.
    unfold run_job. world.
    rewrite list_lookup_insert_eq by (by rewrite !length_insert).
    world. unfold run_coro. world.
    rewrite list_lookup_insert_eq by (by rewrite !length_insert).
    rewrite lookup_insert_eq.
    unfold _async_file_to_mem_resume, audio_tail, read_cached. world.
    rewrite !lookup_insert_eq. cbn [pending voice filename head_ret].
    reflexivity.
  - world. split_and!; try done.
    + rewrite !list_lookup_insert_ne by done.
      apply list_lookup_insert_eq. by rewrite !length_insert.
    + apply list_lookup_insert_eq. by rewrite !length_insert.
    + apply lookup_insert_eq.
Qed.

Lemma saved_audio_read_back_witness :
  exists w',
    @run header_mutagen demo_config
      [Run 0; Job 0; Run 0; Run 1; Job 1; Run 1] saving_world = Some w'
    /\ coros w' !! 1
       = Some (Done (Returned (RAudio "mp3" [Byte.x49; Byte.x44; Byte.x33]))).
Proof.
  destruct (@saved_audio_read_back header_mutagen demo_config saving_world
              0 1 hello_request (hello_synthesis true) (hello_key +:+ ".mp3")
              [Byte.x49; Byte.x44; Byte.x33])
    as (w' & Hrun & _ & _ & _ & Hi & _).
  - lia.
  - vm_compute. reflexivity.
  - reflexivity.
  - vm_compute. reflexivity.
  - reflexivity.
  - reflexivity.
  - discriminate.
  - apply not_elem_of_empty.
  - exists w'. split; [exact Hrun|]. rewrite Hi. vm_compute. reflexivity.
Defined.



(** ** What a match says about the name *)

(** A file name that matches one of the two patterns starts with the key
    that the match gives, a dot and an extension of three or four lower-
    case letters or digits; what follows is ignored.  The key is made of a
    digest of forty hexadecimal digits, of a language and of an options
    part that are not empty and hold no underscore, and of an engine name
    that one of the patterns accepts. *)
Theorem voice_file_match_sound name record :
  match_voice_file name = Some record ->
  exists sha lang opt eng ext rest,
    record = [sha; lang; opt; eng]
    /\ record_key record = KEY_PATTERN sha lang opt eng
    /\ name = record_key record +:+ "." +:+ ext +:+ rest
    /\ String.length sha = 40 /\ Py.sall Re.hex_class sha = true
    /\ lang <> EmptyString /\ Py.sall Re.not_underscore lang = true
    /\ opt <> EmptyString /\ Py.sall Re.not_underscore opt = true
    /\ grammar_engine eng = true /\ grammar_extension ext = true.
Proof.
  intros (sha & lang & opt & eng & ext & rest & -> & H1 & H2 & H3 & H4 & H5
          & H6 & He & Hx & ->)%match_voice_file_parts.
  exists sha, lang, opt, eng, ext, rest.
  split_and!; try done.
  unfold record_key, Re.group, KEY_PATTERN. simpl nth.
  by rewrite ?append_assoc, ?append_cons, ?append_nil_l.
Qed.

Lemma voice_file_match_sound_witness :
  exists ext rest,
    hello_key +:+ ".mp3"
    = record_key
        ["7b502c3a1f48c8609ae212cdfb639dee39673f5e"; "en"; "07a1f88621"; "demo"]
      +:+ "." +:+ ext +:+ rest.
Proof.
  destruct (voice_file_match_sound (hello_key +:+ ".mp3")
              ["7b502c3a1f48c8609ae212cdfb639dee39673f5e"; "en"; "07a1f88621";
               "demo"])
    as (sha & lang & opt & eng & ext & rest & _ & _ & Hname & _).
  - vm_compute. reflexivity.
  - exists ext, rest. exact Hname.
Defined.

(** ** The scan of the cache directory *)

Lemma append_inj_length (a a' b b' : string) :
  a +:+ b = a' +:+ b' -> String.length a = String.length a' -> a = a'.
Proof.
  revert a'. induction a as [|c a IH]; intros [|c' a']; try done.
  rewrite !append_cons. simpl. intros [= -> Hab] [= Hlen].
  by rewrite (IH a' Hab Hlen).
Qed.

Lemma lower_length s : String.length (Py.lower s) = String.length s.
Proof. apply smap_length. Qed.

Lemma scan_keeps_keys l acc k :
  is_Some (acc !! k) -> is_Some (fold_left index_file l acc !! k).
Proof.
  revert acc. induction l as [|n l IH]; intros acc Hk; [done|].
  simpl. apply IH. unfold index_file.
  destruct (match_voice_file n); [|done].
  destruct (decide (Py.lower (record_key l0) = k)) as [<-|Hne].
  - rewrite lookup_insert_eq. eauto.
  - by rewrite lookup_insert_ne.
Qed.

Lemma scan_origin l acc k f :
  fold_left index_file l acc !! k = Some f ->
  acc !! k = Some f
  \/ exists n record,
       n ∈ l /\ match_voice_file n = Some record
       /\ k = Py.lower (record_key record) /\ f = Py.lower n.
Proof.
  revert acc. induction l as [|n l IH]; intros acc; [by left|].
  simpl. intros [Hacc|(n' & record & Hin & Hm & -> & ->)]%IH.
  - unfold index_file in Hacc.
    destruct (match_voice_file n) as [record|] eqn:Hm; [|by left].
    apply lookup_insert_Some in Hacc as [[<- <-]|[_ Hacc]]; [|by left].
    right. exists n, record. split_and!; try done. by left.
  - right. exists n', record. split_and!; try done. by right.
Qed.

Lemma scan_indexes l acc n record :
  n ∈ l -> match_voice_file n = Some record ->
  is_Some (fold_left index_file l acc !! Py.lower (record_key record)).
Proof.
  revert acc. induction l as [|n' l IH]; intros acc Hin Hm.
  - by apply elem_of_nil in Hin.
  - simpl. apply elem_of_cons in Hin as [<-|Hin]; [|by apply IH].
    apply scan_keeps_keys. unfold index_file. rewrite Hm.
    rewrite lookup_insert_eq. eauto.
Qed.

(** What the scan at start-up puts into the index.  Every entry comes from
    a name of the listing that matches a pattern: its file name is that
    name in lower case, and it starts with the key, a dot and an
    extension.  Every name of the listing that matches has its key in the
    index; names that match nothing are left out; and a lower-case name
    that matches is indexed under the very key that [async_read_tts]
    derives from it. *)
Theorem scan_index_spec folder_data :
  (forall k f,
      _get_cache_files folder_data !! k = Some f ->
      exists n ext rest,
        n ∈ folder_data /\ is_Some (match_voice_file n)
        /\ f = Py.lower n /\ f = k +:+ "." +:+ ext +:+ rest
        /\ grammar_extension ext = true)
  /\ (forall n record,
        n ∈ folder_data -> match_voice_file n = Some record ->
        is_Some (_get_cache_files folder_data !! Py.lower (record_key record)))
  /\ (forall n record,
        n ∈ folder_data -> Py.lower n = n ->
        match_voice_file n = Some record ->
        exists f,
          _get_cache_files folder_data !! record_key record = Some f
          /\ Py.truthy f = true)
  /\ ((forall n, n ∈ folder_data -> match_voice_file n = None) ->
      _get_cache_files folder_data = ∅).
Proof.
  change (_get_cache_files folder_data)
    with (fold_left index_file folder_data ∅).
  assert (Hentry : forall k f,
             fold_left index_file folder_data ∅ !! k = Some f ->
             exists n ext rest,
               n ∈ folder_data /\ is_Some (match_voice_file n)
               /\ f = Py.lower n /\ f = k +:+ "." +:+ ext +:+ rest
               /\ grammar_extension ext = true).
  { intros k f [Hempty|(n & record & Hin & Hm & -> & ->)]%scan_origin.
    { by rewrite lookup_empty in Hempty. }
    destruct (voice_file_match_sound _ _ Hm)
      as (sha & lang & opt & eng & ext & rest & _ & _ & Hname & _ & _ & _ & _
          & _ & _ & _ & Hext).
    exists n, ext, (Py.lower rest). split_and!; try done.
    rewrite Hname at 1. rewrite !lower_app.
    f_equal. f_equal. f_equal.
    unfold grammar_extension in Hext.
    apply andb_true_iff in Hext as [_ Hld].
    apply (smap_id_on Re.lower_digit); [|done].
    intros c Hc. by each_char c. }
  split_and!.
  - exact Hentry.
  - intros n record. apply scan_indexes.
  - intros n record Hin Hlow Hm.
    assert (Hkey : Py.lower (record_key record) = record_key record).
    { destruct (voice_file_match_sound _ _ Hm)
        as (sha & lang & opt & eng & ext & rest & _ & _ & Hname & _).
      rewrite Hname in Hlow. rewrite lower_app in Hlow.
      apply append_inj_length in Hlow; [done|]. apply lower_length. }
    destruct (scan_indexes folder_data ∅ n record Hin Hm) as [f Hf].
    rewrite Hkey in Hf. exists f. split; [done|].
    destruct (Hentry _ _ Hf) as (n' & ext & rest & _ & _ & _ & -> & _).
    destruct (record_key record); by rewrite ?append_nil_l, ?append_cons.
  - intros Hnone. apply map_eq. intros k. rewrite lookup_empty.
    destruct (fold_left index_file folder_data ∅ !! k) as [f|] eqn:Hk; [|done].
    destruct (Hentry _ _ Hk) as (n & _ & _ & Hin & [record Hm] & _).
    by rewrite (Hnone n Hin) in Hm.
Qed.

(** A file of the index is served.  After a start-up scan of a listing, a
    call of [async_read_tts] for a lower-case name of the listing that
    matches a pattern passes the check of the format and the check of the
    index, and goes on to read the file that the index names for its
    key. *)
Theorem indexed_file_is_served `{Mutagen} cfg w i n record folder_data :
  coros w !! i = Some (Call (Call_read_tts n)) ->
  file_cache w = _get_cache_files folder_data ->
  n ∈ folder_data -> Py.lower n = n ->
  match_voice_file n = Some record ->
  mem_cache w !! record_key record = None ->
  exists f w',
    file_cache w !! record_key record = Some f
    /\ step cfg (Run i) w = Some w'
    /\ coros w' !! i
       = Some (Loading (LoadForRead n) (record_key record) f None)
    /\ mem_cache w' = mem_cache w /\ file_cache w' = file_cache w.
Proof.
  intros Hi Hfc Hin Hlow Hm Hmem.
  destruct (scan_index_spec folder_data) as (_ & _ & Hserved & _).
  destruct (Hserved n record Hin Hlow Hm) as (f & Hf & Htruthy).
  rewrite <- Hfc in Hf.
  assert (Hlt : i < length (coros w)) by (by eapply lookup_lt_Some).
  exists f. eexists. split; [done|]. split.
  - cbn [step]. unfold run_coro. rewrite Hi. unfold async_read_tts.
    rewrite Hlow, Hm, Hmem, Hf. unfold _async_file_to_mem.
    rewrite Hf, Htruthy. reflexivity.
  - world. split_and!; try done. by apply list_lookup_insert_eq.
Qed.

Lemma indexed_file_is_served_witness :
  exists w',
    @step header_mutagen demo_config (Run 0) scanned_world = Some w'
    /\ coros w' !! 0
       = Some (Loading (LoadForRead (hello_key +:+ ".mp3")) hello_key
                 (hello_key +:+ ".mp3") None).
Proof.
  destruct (@indexed_file_is_served header_mutagen demo_config scanned_world 0
              (hello_key +:+ ".mp3")
              ["7b502c3a1f48c8609ae212cdfb639dee39673f5e"; "en"; "07a1f88621";
               "demo"]
              [hello_key +:+ ".mp3"; "readme.txt"])
    as (f & w' & Hf & Hstep & Hi & _).
  - reflexivity.
  - reflexivity.
  - apply list_elem_of_here.
  - vm_compute. reflexivity.
  - vm_compute. reflexivity.
  - reflexivity.
  - exists w'. split; [exact Hstep|]. rewrite Hi.
    assert (Hf' : f = hello_key +:+ ".mp3").
    { vm_compute in Hf. by injection Hf as <-. }
    rewrite Hf'. vm_compute. reflexivity.
Defined.

(** The scan matches the names as they are, [async_read_tts] after
    lower-casing them: a name with an upper-case extension after a
    ["tts."] engine can be indexed under a key that the read of the
    indexed name does not derive. *)
Example scan_read_mismatch :
  let n := "7b502c3a1f48c8609ae212cdfb639dee39673f5e_en_-_tts.demo.MP3" in
  map_to_list (_get_cache_files [n])
  = [("7b502c3a1f48c8609ae212cdfb639dee39673f5e_en_-_tts",
      "7b502c3a1f48c8609ae212cdfb639dee39673f5e_en_-_tts.demo.mp3")]
  /\ option_map record_key (match_voice_file (Py.lower n))
     = Some "7b502c3a1f48c8609ae212cdfb639dee39673f5e_en_-_tts.demo".
Proof. split; vm_compute; reflexivity. Qed.

(** ** Progress *)

(** No deadlock.  In every world that the manager can reach, a coroutine
    that has not ended can be resumed, by the loop, by the executor or by
    an answer of the engine, or it awaits a synthesis task that can be:
    no caller waits for another caller, and no task waits for a caller. *)
Theorem no_deadlock `{Mutagen} cfg w i c :
  reachable cfg w -> coros w !! i = Some c -> (forall r, c <> Done r) ->
  enabled cfg w i
  \/ exists t, awaits c = Some t /\ t <> i /\ enabled cfg w t.
Proof.
  intros Hreach Hi Hc. apply reachable_refs_ok in Hreach.
  destruct Hreach as (_ & Haw & _).
  assert (Hwait : forall t, awaits c = Some t ->
            (exists r, coros w !! t = Some (Done r))
            \/ (t <> i /\ enabled cfg w t)).
  { intros t Ht. destruct (Haw _ _ _ Hi Ht) as (ct & Hct & Hs).
    destruct ct as [| | | | | | |p [r|]| | |r]; try done.
    - right. split; [intros ->; rewrite Hi in Hct; by injection Hct as ->|].
      exists (Run t). eexists. split; [by left|].
      cbn [step]. unfold run_coro. rewrite Hct. reflexivity.
    - right. split; [intros ->; rewrite Hi in Hct; by injection Hct as ->|].
      exists (Run t). eexists. split; [by left|].
      cbn [step]. unfold run_coro. rewrite Hct. reflexivity.
    - right. split; [intros ->; rewrite Hi in Hct; by injection Hct as ->|].
      exists (Backend t (BackendReturned None None)). eexists.
      split; [right; right; by eexists|].
      cbn [step]. rewrite Hct. reflexivity.
    - left. by exists r. }
  destruct c as [[]| | | |k key f [r|]|url key t|h key t|p [r|]
                 |key f data [r|]|[]|r].
  all: try (left; exists (Run i); eexists; split; [by left|];
            cbn [step]; unfold run_coro; rewrite Hi; reflexivity).
  all: try (left; exists (Job i); eexists; split; [right; by left|];
            cbn [step]; unfold run_job; rewrite Hi; reflexivity).
  - destruct (Hwait t eq_refl) as [[r Hr]|[Hne Hen]].
    + left. exists (Run i). eexists. split; [by left|].
      cbn [step]. unfold run_coro. rewrite Hi, Hr. reflexivity.
    + right. by exists t.
  - destruct (Hwait t eq_refl) as [[r Hr]|[Hne Hen]].
    + left. exists (Run i).
      destruct r; eexists; (split; [by left|]);
        cbn [step]; unfold run_coro; rewrite Hi, Hr; reflexivity.
    + right. by exists t.
  - left. exists (Backend i (BackendReturned None None)). eexists.
    split; [right; right; by eexists|]. cbn [step]. rewrite Hi. reflexivity.
  - left. exists (Job i).
    destruct (save_speech f data w) as [o w0] eqn:Hsave.
    exists (set_coro i (Saving key f data o) w0). split; [right; by left|].
    cbn [step]. unfold run_job. by rewrite Hi, Hsave.
  - by destruct (Hc r).
Qed.

Lemma no_deadlock_witness :
  exists w,
    @run header_mutagen demo_config failing_audio (init_world ∅ ∅ ∅) = Some w
    /\ (@enabled header_mutagen demo_config w 0
        \/ exists t,
             awaits (AwaitPending (HAudio "mp3") (syn_key mp3_synthesis) 1)
             = Some t
             /\ t <> 0 /\ @enabled header_mutagen demo_config w t).
Proof.
  destruct (@run header_mutagen demo_config failing_audio (init_world ∅ ∅ ∅))
    as [w|] eqn:Hrun; [|by vm_compute in Hrun].
  assert (Hi : coros w !! 0
               = Some (AwaitPending (HAudio "mp3") (syn_key mp3_synthesis) 1)).
  { vm_compute in Hrun. injection Hrun as <-. vm_compute. reflexivity. }
  exists w. split; [reflexivity|].
  apply (@no_deadlock header_mutagen demo_config w 0 _
           (ex_intro _ failing_audio
              (ex_intro _ ∅ (ex_intro _ ∅ (ex_intro _ ∅ Hrun))))
           Hi).
  intros r. discriminate.
Defined.

(** ** Termination *)

Lemma rank_le c : rank c <= 4.
Proof. destruct c as [| | | |? ? ? []| | |? []|? ? ? []|[]|]; simpl; lia. Qed.

Lemma pot_of_le cs i : pot_of cs i <= 4.
Proof. unfold pot_of. destruct (cs !! i); [apply rank_le|lia]. Qed.

Lemma pot_app cs news i : pot_of (cs ++ news) i <= pot_of cs i.
Proof.
  unfold pot_of. destruct (cs !! i) as [c|] eqn:Hi.
  - by rewrite (lookup_app_l_Some _ _ _ _ Hi).
  - destruct ((cs ++ news) !! i); [apply rank_le|lia].
Qed.

Lemma pot_set_other cs j c' i :
  j <> i -> pot_of (<[j:=c']> cs) i = pot_of cs i.
Proof. intros Hne. unfold pot_of. by rewrite list_lookup_insert_ne. Qed.

Lemma pot_set_self cs news i c c' :
  cs !! i = Some c -> rank c' < rank c ->
  pot_of (<[i:=c']> (cs ++ news)) i + 1 <= pot_of cs i.
Proof.
  intros Hi Hr. unfold pot_of. rewrite Hi.
  rewrite list_lookup_insert_eq; [lia|].
  rewrite length_app. apply lookup_lt_Some in Hi. lia.
Qed.

Lemma pot_set_self' cs i c c' :
  cs !! i = Some c -> rank c' < rank c ->
  pot_of (<[i:=c']> cs) i + 1 <= pot_of cs i.
Proof.
  intros Hi Hr. rewrite <- (app_nil_r cs) at 1. by eapply pot_set_self.
Qed.

(** The new pool, seen from coroutine [i], after a coroutine has been
    resumed. *)
Ltac pot Hj :=
  lazymatch goal with
  | |- _ + 1 <= _ =>
      first [ eapply pot_set_self; [exact Hj|simpl; lia]
            | eapply pot_set_self'; [exact Hj|simpl; lia] ]
  | |- _ =>
      rewrite pot_set_other by done;
      first [ apply pot_app | reflexivity ]
  end.

Ltac split_resumed j i :=
  destruct (decide (j = i)) as [->|?];
  [ rewrite bool_decide_eq_true_2 by done
  | rewrite bool_decide_eq_false_2 by done; rewrite Nat.add_0_r ].

Lemma step_potential `{Mutagen} cfg ev w w' i :
  step cfg ev w = Some w' ->
  pot_of (coros w') i + (if resumes i ev then 1 else 0) <= pot_of (coros w) i.
Proof.
  intros Hstep.
  destruct ev as [e|j|j|j r|n|n]; cbn [step resumes] in *.
  - injection Hstep as <-. world. rewrite Nat.add_0_r. apply pot_app.
  - unfold run_coro in Hstep.
    destruct (coros w !! j) as [c0|] eqn:Hj; [|done].
    split_resumed j i.
    all: repeat case_match; try done.
    all: injection Hstep as <-.
    all: unfold_steps.
    all: go.
    all: pot Hj.
  - unfold run_job, save_speech in Hstep.
    destruct (coros w !! j) as [c0|] eqn:Hj; [|done].
    split_resumed j i.
    all: destruct c0 as [| | | |k key f [r|]| | | |key f data [r|]|[]|];
      try done.
    all: try (injection Hstep as <-; go; pot Hj).
    all: try (destruct (bool_decide _); injection Hstep as <-; go; pot Hj).
    all: injection Hstep as <-.
    all: pose proof (fold_remove_file
                       (map snd (map_to_list (file_cache w))) w) as Hf.
    all: cbv zeta in Hf; fold (remove_files w) in Hf.
    all: destruct Hf as (_ & _ & _ & Hcs & _).
    all: rewrite <- Hcs in Hj |- *; go; pot Hj.
  - destruct (coros w !! j) as [c0|] eqn:Hj; [|done].
    split_resumed j i.
    all: repeat case_match; try done.
    all: injection Hstep as <-; go; pot Hj.
  - repeat case_match; try done.
    all: injection Hstep as <-.
    all: unfold_steps; go.
    all: by rewrite Nat.add_0_r.
  - repeat case_match; try done.
    injection Hstep as <-. go. by rewrite Nat.add_0_r.
Qed.

(** Every coroutine ends after a bounded number of steps.  In a run of the
    manager, whatever the events are, a coroutine is resumed at most four
    times, by the loop, by the executor and by answers of the engine taken
    together; more precisely, at most as often as its state at the start
    of the run allows. *)
Theorem coroutine_steps_bounded `{Mutagen} cfg evs w w' i :
  run cfg evs w = Some w' ->
  length (filter (fun ev => resumes i ev = true) evs) + potential w' i
  <= potential w i
  /\ potential w i <= 4.
Proof.
  intros Hrun. split; [|apply pot_of_le].
  change (potential w' i) with (pot_of (coros w') i).
  change (potential w i) with (pot_of (coros w) i).
  revert w Hrun. induction evs as [|ev evs IH]; intros w; simpl.
  - intros [= <-]. lia.
  - destruct (step cfg ev w) as [w1|] eqn:Hstep; [|done].
    intros Hrun. specialize (IH _ Hrun).
    pose proof (step_potential _ _ _ _ i Hstep) as Hs.
    rewrite filter_cons. destruct (decide (resumes i ev = true)) as [He|He].
    + rewrite He in Hs. simpl. lia.
    + lia.
Qed.

Lemma coroutine_steps_bounded_witness :
  length (filter (fun ev => resumes 3 ev = true) shared_requests) <= 4.
Proof.
  destruct (@run header_mutagen demo_config shared_requests (init_world ∅ ∅ ∅))
    as [w|] eqn:Hrun; [|by vm_compute in Hrun].
  destruct (@coroutine_steps_bounded header_mutagen demo_config
              shared_requests _ w 3 Hrun) as [Hcount Hmax].
  lia.
Defined.
